(** * ew6: pattern-candidate search and evaluation pipeline

    A shallow embedding of the core of the [ew6] package:

    - [ew6/ew/core/pruner.py]       beam search and span-based NMS
    - [ew6/ew/detectors/analyzer.py] search layers of the candidate generator
    - [ew6/ew/core/rules_p5.py]     the leg-based impulse validator
    - [ew6/ew/core/scorer.py]       Fibonacci-ratio score and confidence
    - [ew6/backtest/simple.py]      the trade simulator and its report
    - [ew6/run/walkforward.py]      the stability-mode fold loop

    Numeric conventions.  A Python [int] is a [Z].  A Python [float] is
    read as a real number ([R]): prices, scores, returns and equity obey
    the laws of exact arithmetic, rounding and NaN are outside the model.
    The one non-finite float the code manufactures itself,
    [float("inf")], is a constructor of its own ([PInf]).  A division
    that Python would refuse ([ZeroDivisionError]) is [None] in [fdiv],
    and the simulator runs in the option monad over it. *)

From Stdlib Require Import String Reals Lra Lia ZArith Bool List Sorted Permutation.
Import ListNotations.

Open Scope R_scope.

(** ** Python sequence helpers *)

Section PySeq.
Context {A : Type}.

(** [l[:k]] for an arbitrary integer [k]: a negative bound counts from
    the end of the list. *)
Definition py_prefix (k : Z) (l : list A) : list A :=
  if (k <? 0)%Z
  then firstn (length l - Z.to_nat (- k)) l
  else firstn (Z.to_nat k) l.

(** [l.sort(key=key, reverse=True)]: a stable sort, larger keys first;
    entries with equal keys keep their relative order. *)
Fixpoint insert_desc (key : A -> R) (x : A) (l : list A) : list A :=
  match l with
  | [] => [x]
  | y :: l' =>
      if Rlt_dec (key x) (key y)
      then y :: insert_desc key x l'
      else x :: y :: l'
  end.

Definition sort_desc (key : A -> R) (l : list A) : list A :=
  fold_right (insert_desc key) [] l.
End PySeq.

(** [list(range(lo, hi))] *)
Definition py_range (lo hi : Z) : list Z :=
  map (fun i => (lo + Z.of_nat i)%Z) (seq 0 (Z.to_nat (hi - lo))).

(** Boolean readings of the float comparisons. *)
Definition Rltb (a b : R) : bool := if Rlt_dec a b then true else false.
Definition Rleb (a b : R) : bool := if Rle_dec a b then true else false.

(** ** Failure and the option monad *)

(** True division by a float: [ZeroDivisionError] is [None]. *)
Definition fdiv (a b : R) : option R :=
  if Req_dec_T b 0 then None else Some (a / b).

Definition obind {A B : Type} (c : option A) (k : A -> option B) : option B :=
  match c with
  | Some a => k a
  | None => None
  end.

Notation "x <- c ;; k" := (obind c (fun x => k))
  (at level 61, c at next level, right associativity).

(** A float that may be [float("inf")]. *)
Inductive xfloat : Type :=
| Fin (r : R)
| PInf.

(** [math.exp] raises [OverflowError] when its result would exceed the
    largest double, that is for every double argument above
    [exp_max]. *)
Definition exp_max : R := 709.782712893384.

(** [math.exp(x)]: [None] is the [OverflowError]. *)
Definition py_exp (x : R) : option R :=
  if Rltb exp_max x then None else Some (exp x).

(** ** [ew6/ew/core/pruner.py] *)

Module Pruner.

Record BeamConfig := mkBeamConfig {
  beam_width : Z;
  max_candidates : Z;
  max_patterns : Z
}.

Definition default_BeamConfig : BeamConfig := mkBeamConfig 256 5000 50.

Section Beam.
Variable T : Type.
Variable score_fn : list T -> R.
Variable cfg : BeamConfig.

(** A beam entry: a partial tuple and its score. *)
Definition entry : Type := (list T * R)%type.

(** The mutable state of the two inner loops: [next_beam], the
    counter [generated], and (ghost) the arguments [score_fn] was
    called with, in call order. *)
Record loop_state := mkLoop {
  next_beam : list entry;
  generated : Z;
  scored : list (list T)
}.

(** [for item in layer: ...] for one [prefix]. *)
Fixpoint expand_prefix (prefix : list T) (layer : list T)
         (st : loop_state) : loop_state :=
  match layer with
  | [] => st
  | item :: rest =>
      let cand := prefix ++ [item] in
      let s := score_fn cand in
      let st' := mkLoop (next_beam st ++ [(cand, s)])
                        (generated st + 1)
                        (scored st ++ [cand]) in
      if (generated st' >=? max_candidates cfg)%Z
      then st'
      else expand_prefix prefix rest st'
  end.

(** [for prefix, _ in beam: ...], with the second budget test. *)
Fixpoint expand_beam (beam : list entry) (layer : list T)
         (st : loop_state) : loop_state :=
  match beam with
  | [] => st
  | (prefix, _) :: rest =>
      let st' := expand_prefix prefix layer st in
      if (generated st' >=? max_candidates cfg)%Z
      then st'
      else expand_beam rest layer st'
  end.

(** [for li, layer in enumerate(layers): ...], with the third budget
    test after the beam has been cut to width. *)
Fixpoint run_layers (layers : list (list T)) (beam : list entry)
         (gen : Z) (log : list (list T)) : list entry * Z * list (list T) :=
  match layers with
  | [] => (beam, gen, log)
  | layer :: rest =>
      let st := expand_beam beam layer (mkLoop [] gen log) in
      let beam' := py_prefix (Z.max 1 (beam_width cfg))
                             (sort_desc snd (next_beam st)) in
      if (generated st >=? max_candidates cfg)%Z
      then (beam', generated st, scored st)
      else run_layers rest beam' (generated st) (scored st)
  end.

(** The whole run: the returned list, the final value of
    [generated], and the log of scoring calls. *)
Definition beam_search_run (layers : list (list T))
  : list entry * Z * list (list T) :=
  let '(beam, gen, log) := run_layers layers [([], 0)] 0%Z [] in
  (py_prefix (max_patterns cfg) (sort_desc snd beam), gen, log).

Definition beam_search (layers : list (list T)) : list entry :=
  fst (fst (beam_search_run layers)).

(** Number of partial-prefix scoring evaluations of a run. *)
Definition evaluations (layers : list (list T)) : Z :=
  Z.of_nat (length (snd (beam_search_run layers))).
End Beam.

(** Overlap ratio on index spans [[start,end)]. *)
Definition overlap_ratio (a_span b_span : Z * Z) : R :=
  let '(a0, a1) := a_span in
  let '(b0, b1) := b_span in
  let inter := Z.max 0 (Z.min a1 b1 - Z.max a0 b0) in
  let union := (Z.max a1 b1 - Z.min a0 b0)%Z in
  if (union <=? 0)%Z then 0 else IZR inter / IZR union.

Section NMS.
Variable T : Type.
Variable span_fn : T -> Z * Z.
Variable score_fn : T -> R.
Variable overlap_thresh : R.
Variable max_keep : Z.

(** The inner [for kt in kept] loop: [true] when some kept item
    overlaps [sp] by at least the threshold ([ok = False]). *)
Definition suppressed (sp : Z * Z) (kept : list T) : bool :=
  existsb (fun kt =>
             if Rle_dec overlap_thresh (overlap_ratio sp (span_fn kt))
             then true else false) kept.

Fixpoint nms_loop (ordered : list T) (kept : list T) : list T :=
  match ordered with
  | [] => kept
  | it :: rest =>
      if suppressed (span_fn it) kept
      then nms_loop rest kept
      else
        let kept' := kept ++ [it] in
        if (Z.of_nat (length kept') >=? max_keep)%Z
        then kept'
        else nms_loop rest kept'
  end.

Definition nms_by_span (items : list T) : list T :=
  nms_loop (sort_desc score_fn items) [].
End NMS.

End Pruner.

(** ** [ew6/ew/core/model.py] and [ew6/ew/core/monowave.py] *)

Module Model.

(** The [meta] dictionary of a pattern, by the three keys the core
    reads and writes; [None] is an absent key. *)
Record Meta := mkMeta {
  w4_overlap : option bool;
  score : option R;
  confidence : option R
}.

Definition empty_meta : Meta := mkMeta None None None.

Record MonoWave := mkMonoWave {
  mw_start_idx : Z;
  mw_end_idx : Z;
  mw_start_px : R;
  mw_end_px : R
}.

Definition mw_direction (mw : MonoWave) : Z :=
  if Rltb (mw_start_px mw) (mw_end_px mw) then 1
  else if Rltb (mw_end_px mw) (mw_start_px mw) then (-1)
  else 0.

Definition mw_abs_move (mw : MonoWave) : R :=
  Rabs (mw_end_px mw - mw_start_px mw).

Record WaveLeg := mkWaveLeg {
  start_idx : Z;
  end_idx : Z;
  start_px : R;
  end_px : R
}.

Definition direction (l : WaveLeg) : Z :=
  if Rltb (start_px l) (end_px l) then 1
  else if Rltb (end_px l) (start_px l) then (-1)
  else 0.

Definition abs_move (l : WaveLeg) : R := Rabs (end_px l - start_px l).

Record WavePattern := mkWavePattern {
  kind : string;
  legs : list WaveLeg;
  meta : Meta
}.

(** [self.legs[0].start_idx if self.legs else 0] and its three
    siblings. *)
Definition pattern_start_idx (p : WavePattern) : Z :=
  match legs p with
  | [] => 0
  | l :: _ => start_idx l
  end.

Definition pattern_end_idx (p : WavePattern) : Z :=
  match legs p with
  | [] => 0
  | l :: ls => end_idx (last ls l)
  end.

Definition pattern_start_px (p : WavePattern) : R :=
  match legs p with
  | [] => 0
  | l :: _ => start_px l
  end.

Definition pattern_end_px (p : WavePattern) : R :=
  match legs p with
  | [] => 0
  | l :: ls => end_px (last ls l)
  end.

End Model.

(** ** [ew6/ew/detectors/analyzer.py]: the search layers *)

Module Analyzer.
Import Model.

Record AnalyzerConfig := mkAnalyzerConfig {
  monowave_skip : Z;
  min_leg_abs_move : R;
  max_gap : Z;
  beam_width : Z;
  max_candidates : Z;
  max_patterns : Z;
  nms_overlap : R
}.

Definition _mw_to_leg (mw : MonoWave) : WaveLeg :=
  mkWaveLeg (mw_start_idx mw) (mw_end_idx mw) (mw_start_px mw) (mw_end_px mw).

(** Four copies of the gap layer after the start-index layer. *)
Definition _layers (n : Z) (max_gap : Z) : list (list Z) :=
  py_range 0 (Z.max 0 (n - 4))
    :: repeat (py_range 1 (max_gap + 2)) 4.

End Analyzer.

(** ** [ew6/ew/core/rules_p5.py] *)

Module RulesP5.
Import Model.

(** [mw.direction] is present on every [MonoWave]. *)
Definition _dir (mw : MonoWave) : Z := mw_direction mw.

Definition _abs_move (mw : MonoWave) : R := mw_abs_move mw.

Definition Z_list_eqb (a b : list Z) : bool :=
  if list_eq_dec Z.eq_dec a b then true else false.

(** The call with [return_meta=True]: the verdict and the metadata
    dictionary; every rejection returns an empty dictionary. *)
Definition is_valid_impulse_from_monowaves_meta (mws : list MonoWave)
  : bool * Meta :=
  match mws with
  | [m0; m1; m2; m3; m4] =>
      let d := map _dir mws in
      if existsb (Z.eqb 0) d then (false, empty_meta)
      else
        let s := _dir m0 in
        let expected := [s; - s; s; - s; s]%Z in
        if negb (Z_list_eqb d expected) then (false, empty_meta)
        else
          let p0 := mw_start_px m0 in
          let p1 := mw_end_px m0 in
          let p2 := mw_end_px m1 in
          let p4 := mw_end_px m3 in
          if (if (s =? 1)%Z then Rleb p2 p0 else Rleb p0 p2)
          then (false, empty_meta)
          else
            let w1 := _abs_move m0 in
            let w3 := _abs_move m2 in
            let w5 := _abs_move m4 in
            if Rleb w3 (Rmin w1 w5) then (false, empty_meta)
            else
              let flag := if (s =? 1)%Z then Rltb p4 p1 else Rltb p1 p4 in
              (true, mkMeta (Some flag) None None)
  | _ => (false, empty_meta)
  end.

(** The call with the default [return_meta=False]. *)
Definition is_valid_impulse_from_monowaves (mws : list MonoWave) : bool :=
  fst (is_valid_impulse_from_monowaves_meta mws).

End RulesP5.

(** ** [ew6/ew/core/scorer.py] *)

Module Scorer.
Import Model.

Record ScoreConfig := mkScoreConfig {
  fib_w2 : R * R;
  fib_w3 : R * R;
  fib_w4 : R * R;
  overlap_penalty : R;
  extreme_penalty : R
}.

Definition default_ScoreConfig : ScoreConfig :=
  mkScoreConfig (0.236, 0.786) (1, 2.618) (0.236, 0.786) 2.5 1.

Definition _within (x lo hi : R) : R :=
  if Rleb lo x && Rleb x hi then 1
  else if Rltb x lo
       then (if Rltb 0 lo then exp (- ((lo - x) / lo) * 2) else 0)
       else (if Rltb 0 hi then exp (- ((x - hi) / hi) * 2) else 0).

(** [min(m)] and [max(m)] of a non-empty list, scanned left to right. *)
Definition py_min (x : R) (xs : list R) : R := fold_left Rmin xs x.
Definition py_max (x : R) (xs : list R) : R := fold_left Rmax xs x.

Definition score_impulse (pattern : WavePattern) (cfg : ScoreConfig) : R :=
  match map (fun l => Rabs (end_px l - start_px l)) (legs pattern) with
  | [w1; w2; w3; w4; w5] =>
      let mn := py_min w1 [w2; w3; w4; w5] in
      if Rleb mn 0 then 0
      else
        let r2 := w2 / w1 in
        let r3 := w3 / w1 in
        let r4 := if Rltb 0 w3 then w4 / w3 else 0 in
        let s := 0 in
        let s := s + 2 * _within r2 (fst (fib_w2 cfg)) (snd (fib_w2 cfg)) in
        let s := s + 2 * _within r3 (fst (fib_w3 cfg)) (snd (fib_w3 cfg)) in
        let s := s + 1.5 * _within r4 (fst (fib_w4 cfg)) (snd (fib_w4 cfg)) in
        let s := if Rltb (Rmin w1 w5) w3 then s + 1 else s in
        let s := match w4_overlap (meta pattern) with
                 | Some true => s - overlap_penalty cfg
                 | _ => s
                 end in
        let mx := py_max w1 [w2; w3; w4; w5] in
        let s := if Rltb 0 mn && Rltb 10 (mx / mn)
                 then s - extreme_penalty cfg else s in
        let span := (pattern_end_idx pattern - pattern_start_idx pattern)%Z in
        s + Rmin (Rmax (IZR span / 500) 0) 0.5
  | _ => 0
  end.

(** The value of [1.0 / (1.0 + math.exp(-(score - 2.5)))]; the call's
    [OverflowError] is in [confidence_from_score_exn] below. *)
Definition confidence_from_score (score : R) : R :=
  1 / (1 + exp (- (score - 2.5))).

(** [confidence_from_score] with the exception of its [math.exp] call:
    [None] is the [OverflowError] raised for scores so low that
    [-(score - 2.5)] exceeds [exp_max]. *)
Definition confidence_from_score_exn (score : R) : option R :=
  e <- py_exp (- (score - 2.5)) ;;
  Some (1 / (1 + e)).

(** The logistic function the specification names. *)
Definition logistic (x : R) : R := 1 / (1 + exp (- x)).

End Scorer.

(** ** [ew6/backtest/simple.py] *)

Module Backtest.
Import Model.

Record Trade := mkTrade {
  pattern_idx : Z;
  trade_direction : Z;
  entry_px : R;
  exit_px : R;
  ret : R;
  pnl : R;
  equity_after : R;
  fees : R;
  slippage : R
}.

Record BacktestReport := mkBacktestReport {
  initial_cash : R;
  final_equity : R;
  trades : Z;
  wins : Z;
  winrate : R;
  avg_ret : R;
  total_ret : R;
  max_drawdown : R;
  equity_curve : list R;
  profit_factor : xfloat;
  expectancy : R;
  sharpe_like : xfloat
}.

(** [sum(xs)]: left to right from [0]. *)
Definition py_sum (xs : list R) : R := fold_left Rplus xs 0.

Fixpoint dd_loop (curve : list R) (peak mdd : R) : option R :=
  match curve with
  | [] => Some mdd
  | x :: rest =>
      let peak := if Rltb peak x then x else peak in
      dd <- (if Rltb 0 peak then fdiv (peak - x) peak else Some 0) ;;
      let mdd := if Rltb mdd dd then dd else mdd in
      dd_loop rest peak mdd
  end.

Definition _dd_from_curve (curve : list R) : option R :=
  match curve with
  | [] => Some 0
  | c0 :: _ => dd_loop curve c0 0
  end.

(** [bars.df["close"]] is the list [closes].  The result is Python's
    [Optional[float]]: [None] is the value returned by the [except]
    arm, reached when the clamped index is [-1] (an empty frame). *)
Definition _close_at (closes : list R) (idx : Z) : option R :=
  let n := Z.of_nat (length closes) in
  let idx := if (idx <? 0)%Z then 0%Z else idx in
  let idx := if (idx >=? n)%Z then (n - 1)%Z else idx in
  if (idx <? 0)%Z then None else nth_error closes (Z.to_nat idx).

(** The loop variables of [backtest_patterns]. *)
Record bt_state := mkState {
  st_equity : R;
  st_curve : list R;
  st_trades : list Trade;
  st_wins : Z;
  st_rets : list R;
  st_gross_wins : R;
  st_gross_losses : R
}.

Section Run.
Variable initial_cash : R.
Variable risk_fraction : R.
Variable min_confidence : R.
(** [bars]: [None] when no bar series is passed, else its closes. *)
Variable bars : option (list R).
Variable entry_mode : string.
Variable fee_bps : R.
Variable slippage_bps : R.

Definition fb : R := fee_bps / 10000.
Definition sb : R := slippage_bps / 10000.

(** [meta.get("confidence", 0.0)] *)
Definition conf_of (p : WavePattern) : R :=
  match confidence (meta p) with
  | Some c => c
  | None => 0
  end.

(** Entry and exit price of a pattern whose first leg is [l0] and
    last leg is [lN] (source lines 116-126). *)
Definition resolve_prices (l0 lN : WaveLeg) : R * R :=
  if String.eqb entry_mode "bar" then
    match bars with
    | Some closes =>
        match _close_at closes (start_idx l0),
              _close_at closes (end_idx lN) with
        | Some e, Some x => (e, x)
        | _, _ => (start_px l0, end_px lN)
        end
    | None => (start_px l0, end_px lN)
    end
  else (start_px l0, end_px lN).

(** Source lines 132-166: the trade record and the updated loop
    variables, once [gross_ret] has been computed. *)
Definition record_trade (i : Z) (direction : Z) (entry exitp gross_ret : R)
           (st : bt_state) : bt_state :=
  let signed_gross := if (direction =? 1)%Z then gross_ret else - gross_ret in
  let cost_frac := 2 * (fb + sb) in
  let signed_net := signed_gross - cost_frac in
  let stake := st_equity st * risk_fraction in
  let pnl := stake * signed_net in
  let equity2 := st_equity st + pnl in
  let fees := stake * (2 * fb) in
  let slip := stake * (2 * sb) in
  let t := mkTrade i direction entry exitp signed_net pnl equity2 fees slip in
  let win := Rltb 0 signed_net in
  mkState equity2
          (st_curve st ++ [equity2])
          (st_trades st ++ [t])
          (if win then (st_wins st + 1)%Z else st_wins st)
          (st_rets st ++ [signed_net])
          (if win then st_gross_wins st + signed_net else st_gross_wins st)
          (if win then st_gross_losses st
           else st_gross_losses st + - signed_net).

(** One iteration of [for i, p in enumerate(patterns)]; a [continue]
    returns the state as it was. *)
Definition bt_step (i : Z) (p : WavePattern) (st : bt_state)
  : option bt_state :=
  if Rltb (conf_of p) min_confidence then Some st
  else if (Z.of_nat (length (legs p)) <? 5)%Z then Some st
  else
    match legs p with
    | [] => Some st
    | l0 :: ls =>
        let lN := last ls l0 in
        let direction :=
          if Rleb 0 (end_px l0 - start_px l0) then 1%Z else (-1)%Z in
        let '(entry, exitp) := resolve_prices l0 lN in
        if Rleb entry 0 || Rleb exitp 0 then Some st
        else
          gross_ret <- fdiv (exitp - entry) entry ;;
          Some (record_trade i direction entry exitp gross_ret st)
    end.

Fixpoint bt_loop (i : Z) (patterns : list WavePattern) (st : bt_state)
  : option bt_state :=
  match patterns with
  | [] => Some st
  | p :: rest =>
      st' <- bt_step i p st ;;
      bt_loop (i + 1) rest st'
  end.

Definition init_state : bt_state :=
  mkState initial_cash [initial_cash] [] 0 [] 0 0.

(** The sentinel convention shared by profit factor and the
    Sharpe-like ratio: the quotient when the denominator exceeds
    [1e-12], else [inf] or [0.0] by the sign of the numerator. *)
Definition guarded_ratio (num den : R) : option xfloat :=
  if Rltb 1e-12 den
  then q <- fdiv num den ;; Some (Fin q)
  else Some (if Rltb 0 num then PInf else Fin 0).

Definition backtest_patterns (patterns : list WavePattern)
  : option (list Trade * BacktestReport) :=
  st <- bt_loop 0 patterns init_state ;;
  let equity := st_equity st in
  let rets := st_rets st in
  total_ret <- (if Rltb 0 initial_cash
                then fdiv (equity - initial_cash) initial_cash
                else Some 0) ;;
  avg_ret <- (match rets with
              | [] => Some 0
              | _ => fdiv (py_sum rets) (INR (length rets))
              end) ;;
  winrate <- (match st_trades st with
              | [] => Some 0
              | _ => fdiv (IZR (st_wins st)) (INR (length (st_trades st)))
              end) ;;
  mdd <- _dd_from_curve (st_curve st) ;;
  profit_factor <- guarded_ratio (st_gross_wins st) (st_gross_losses st) ;;
  sharpe_like <-
    (if (2 <=? length rets)%nat
     then
       let mu := avg_ret in
       var <- fdiv (py_sum (map (fun x => (x - mu) ^ 2) rets))
                   (IZR (Z.of_nat (length rets) - 1)) ;;
       let sd := if Rltb 0 var then sqrt var else 0 in
       guarded_ratio mu sd
     else Some (Fin 0)) ;;
  Some (st_trades st,
        mkBacktestReport initial_cash equity
                         (Z.of_nat (length (st_trades st)))
                         (st_wins st) winrate avg_ret total_ret mdd
                         (st_curve st) profit_factor avg_ret sharpe_like).
End Run.

End Backtest.

(** ** [ew6/run/walkforward.py]: the stability path *)

Module WalkForward.

(** The exceptions a call can end in. *)
Inductive exn : Type :=
| TypeError
| ValueError
| ZeroDivisionError
| ImportError
| OverflowError.

Definition result (A : Type) : Type := (exn + A)%type.

Definition rbind {A B : Type} (c : result A) (k : A -> result B) : result B :=
  match c with
  | inl e => inl e
  | inr a => k a
  end.

Notation "x <-- c ;; k" := (rbind c (fun x => k))
  (at level 61, c at next level, right associativity).

Record WaveOptions := mkWaveOptions {
  monowave_skip : Z;
  min_leg_abs_move : R;
  max_gap : Z;
  beam_width : Z;
  max_candidates : Z;
  max_patterns : Z;
  nms_overlap : R
}.

(** A value passed by keyword. *)
Inductive kwval : Type :=
| KInt (z : Z)
| KFloat (r : R)
| KOptions (o : WaveOptions).

(** An object as the list of its attributes. *)
Definition obj : Type := list (string * kwval).

(** The fields of the frozen dataclass [AnalyzerConfig], with their
    defaults ([analyzer.py], lines 32-41). *)
Definition AnalyzerConfig_defaults : obj :=
  [("monowave_skip", KInt 1); ("min_leg_abs_move", KFloat 0);
   ("max_gap", KInt 1); ("beam_width", KInt 256);
   ("max_candidates", KInt 5000); ("max_patterns", KInt 50);
   ("nms_overlap", KFloat 0.70)]%string.

(** [AnalyzerConfig] called with keywords: the generated [__init__] takes its
    seven fields and nothing else; an unknown keyword is a
    [TypeError].  Given keywords shadow the defaults. *)
Definition AnalyzerConfig_new (kwargs : obj) : result obj :=
  if forallb (fun kv =>
                existsb (fun d => String.eqb (fst kv) (fst d))
                        AnalyzerConfig_defaults) kwargs
  then inr (kwargs ++ AnalyzerConfig_defaults)
  else inl TypeError.

(** [AnalyzerConfig.from_options(opts)], the constructor call of the
    sibling callers ([batch.py], [tuner.py]). *)
Definition AnalyzerConfig_from_options (opts : WaveOptions) : result obj :=
  AnalyzerConfig_new
    [("monowave_skip", KInt (monowave_skip opts));
     ("min_leg_abs_move", KFloat (min_leg_abs_move opts));
     ("max_gap", KInt (max_gap opts));
     ("beam_width", KInt (beam_width opts));
     ("max_candidates", KInt (max_candidates opts));
     ("max_patterns", KInt (max_patterns opts));
     ("nms_overlap", KFloat (nms_overlap opts))]%string.

(** [bars[i0:i1]] for [0 <= i0]. *)
Definition _slice_to_barseries {B : Type} (bars : list B) (i0 i1 : Z) : list B :=
  firstn (Z.to_nat (i1 - i0)) (skipn (Z.to_nat i0) bars).

Definition _clamp (x lo hi : Z) : Z := Z.max lo (Z.min hi x).

(** [math.exp] in the exception type of this module. *)
Definition math_exp (x : R) : result R :=
  match py_exp x with
  | Some v => inr v
  | None => inl OverflowError
  end.

Definition _score (pos_frac ret_mu ret_sd : R) : result R :=
  let sd := Rmax ret_sd 1e-9 in
  let sharpe_like := ret_mu / sd in
  e1 <-- math_exp (- 3.0 * (pos_frac - 0.5)) ;;
  let s1 := 1 / (1 + e1) in
  e2 <-- math_exp (- 1.5 * sharpe_like) ;;
  let s2 := 1 / (1 + e2) in
  inr (0.55 * s1 + 0.45 * s2).

(** The returned dictionary. *)
Record WFResult := mkWFResult {
  wf_splits : Z;
  wf_pos_frac : R;
  wf_ret_mu : R;
  wf_ret_sd : R;
  wf_score : R;
  wf_fold_ret : list R;
  wf_fold_start : list Z;
  wf_fold_end : list Z
}.

Definition empty_result : WFResult := mkWFResult 0 0 0 0 0 [] [] [].

Section Run.
(** One bar; the series is a list of them. *)
Variable B : Type.
(** The swing source, an external collaborator. *)
Variable extract_swings : list B -> R -> result (list (Z * R)).
(** What follows the construction of the analyzer configuration in
    [_run_on_slice] (lines 61-71): detection on the swings,
    simulation on the slice, and the report's total return. *)
Variable detect_and_backtest :
  list (Z * R) -> obj -> list B -> obj -> result R.

Definition _run_on_slice (bars_slice : list B) (zigzag_pct : R)
           (options : WaveOptions) (backtest_kwargs : obj) : result R :=
  swings <-- extract_swings bars_slice zigzag_pct ;;
  cfg <-- AnalyzerConfig_new [("options"%string, KOptions options)] ;;
  detect_and_backtest swings cfg bars_slice backtest_kwargs.

(** The three fold arrays. *)
Definition folds : Type := (list R * list Z * list Z)%type.

(** [for k in range(splits_eff)] in the stability branch. *)
Fixpoint stability_loop (ks : list Z) (bars : list B) (n seg : Z)
         (min_bars_per_split : Z) (zigzag_pct : R) (options : WaveOptions)
         (btkw : obj) (acc : folds) : result folds :=
  match ks with
  | [] => inr acc
  | k :: rest =>
      let i0 := (k * seg)%Z in
      let i1 := Z.min n ((k + 1) * seg) in
      if (i1 - i0 <? min_bars_per_split)%Z
      then stability_loop rest bars n seg min_bars_per_split
                          zigzag_pct options btkw acc
      else
        r <-- _run_on_slice (_slice_to_barseries bars i0 i1)
                            zigzag_pct options btkw ;;
        let '(fold_ret, fold_start, fold_end) := acc in
        stability_loop rest bars n seg min_bars_per_split
                       zigzag_pct options btkw
                       (fold_ret ++ [r], fold_start ++ [i0], fold_end ++ [i1])
  end.

(** [int(a / b)] for non-negative [a]; a zero divisor raises. *)
Definition int_div (a b : Z) : result Z :=
  if (b =? 0)%Z then inl ZeroDivisionError else inr (a / b)%Z.

(** [walk_forward_metrics] with [mode] normalised to ["stability"]. *)
Definition walk_forward_metrics (bars : list B) (zigzag_pct : R)
           (options : WaveOptions) (splits : Z) (min_bars_per_split : Z)
           (backtest_kwargs : obj) : result WFResult :=
  let n := Z.of_nat (length bars) in
  if (n <=? 0)%Z then inr empty_result
  else
    let splits := _clamp splits 2 20 in
    q <-- int_div n splits ;;
    let seg := Z.max q min_bars_per_split in
    q' <-- int_div n seg ;;
    let splits_eff := Z.max 2 (Z.min 20 q') in
    fs <-- stability_loop (py_range 0 splits_eff) bars n seg
                          min_bars_per_split zigzag_pct options
                          backtest_kwargs ([], [], []) ;;
    let '(fold_ret, fold_start, fold_end) := fs in
    match fold_ret with
    | [] => inr empty_result
    | _ =>
        let len := INR (length fold_ret) in
        let mu := Backtest.py_sum fold_ret / len in
        let sd := sqrt (Backtest.py_sum
                          (map (fun x => (x - mu) ^ 2) fold_ret) / len) in
        let pos := INR (length (filter (fun x => Rltb 0 x) fold_ret)) / len in
        sc <-- _score pos mu sd ;;
        inr (mkWFResult (Z.of_nat (length fold_ret)) pos mu sd
                        sc fold_ret fold_start fold_end)
    end.
End Run.

End WalkForward.

(** ** [ew6/ew/core/monowave.py]: legs from swing points *)

Module Monowave.
Import Model.

Record MonoWaveConfig := mkMonoWaveConfig {
  skip : Z;
  min_abs_move : R
}.

(** A swing point after [_get_idx_px]: the pair [(idx, px)]. *)
Definition swing : Type := (Z * R)%type.

(** [pts.sort(key=lambda x: x[0])]: stable, smaller indices first. *)
Fixpoint insert_by_idx (x : swing) (l : list swing) : list swing :=
  match l with
  | [] => [x]
  | y :: l' =>
      if (fst y <? fst x)%Z
      then y :: insert_by_idx x l'
      else x :: y :: l'
  end.

Definition sort_by_idx (l : list swing) : list swing :=
  fold_right insert_by_idx [] l.

(** [l[::step]] for [step >= 1]: [k] counts the elements still to be
    passed over before the next one is taken. *)
Fixpoint stride_from {A : Type} (step k : nat) (l : list A) : list A :=
  match l with
  | [] => []
  | x :: rest =>
      match k with
      | O => x :: stride_from step (step - 1) rest
      | S k' => stride_from step k' rest
      end
  end.

Definition stride {A : Type} (step : nat) (l : list A) : list A :=
  stride_from step 0 l.

(** Equality of two [(idx, px)] tuples. *)
Definition swing_eqb (a b : swing) : bool :=
  (fst a =? fst b)%Z && (if Req_dec_T (snd a) (snd b) then true else false).

(** [zip(l[:-1], l[1:])] *)
Fixpoint consecutive {A : Type} (l : list A) : list (A * A) :=
  match l with
  | a :: ((b :: _) as rest) => (a, b) :: consecutive rest
  | _ => []
  end.

(** The strided points, with the last point appended when the stride
    has not ended on it (source lines 87-90). *)
Definition downsample (step : nat) (pts : list swing) : list swing :=
  let filtered := stride step pts in
  match pts with
  | [] => filtered
  | p :: ps =>
      if swing_eqb (last filtered p) (last ps p)
      then filtered
      else filtered ++ [last ps p]
  end.

Definition build_monowaves_from_swings (swings : list swing)
           (cfg : MonoWaveConfig) : list MonoWave :=
  if (length swings <? 2)%nat then []
  else
    let pts := sort_by_idx swings in
    let step := Z.to_nat (Z.max 1 (skip cfg + 1)) in
    let filtered := downsample step pts in
    let mws := map (fun ab => mkMonoWave (fst (fst ab)) (fst (snd ab))
                                         (snd (fst ab)) (snd (snd ab)))
                   (consecutive filtered) in
    filter (fun mw => negb (Rltb 0 (min_abs_move cfg)
                            && Rltb (mw_abs_move mw) (min_abs_move cfg)))
           mws.

End Monowave.

(** ** [ew6/ew/detectors/analyzer.py]: the scan *)

Module Scan.
Import Model Analyzer.

(** [l[i]]: a negative index counts from the end; [None] is
    [IndexError]. *)
Definition py_index {A : Type} (l : list A) (i : Z) : option A :=
  let n := Z.of_nat (length l) in
  if (0 <=? i)%Z then nth_error l (Z.to_nat i)
  else if (- n <=? i)%Z then nth_error l (Z.to_nat (n + i))
  else None.

(** [[l[i] for i in idxs]] *)
Fixpoint gather {A : Type} (l : list A) (idxs : list Z) : option (list A) :=
  match idxs with
  | [] => Some []
  | i :: rest =>
      x <- py_index l i ;;
      xs <- gather l rest ;;
      Some (x :: xs)
  end.

(** The running sums of a tuple [(i0, d1, d2, ...)]: the leg indices. *)
Fixpoint running (acc : Z) (ds : list Z) : list Z :=
  match ds with
  | [] => []
  | d :: rest => (acc + d)%Z :: running (acc + d) rest
  end.

Definition idxs_of (tup : list Z) : list Z :=
  match tup with
  | [] => []
  | i0 :: ds => i0 :: running i0 ds
  end.

(** [sum(int(x) - 1 for x in tup[1:])] *)
Definition gap_sum (tup : list Z) : Z :=
  fold_left (fun acc x => (acc + (x - 1))%Z) (tl tup) 0%Z.

(** The loop over [enumerate(dirs)]: [false] at the first direction
    that differs from [s] at an even place or [-s] at an odd one. *)
Fixpoint alternates (s : Z) (k : nat) (dirs : list Z) : bool :=
  match dirs with
  | [] => true
  | dk :: rest =>
      if (dk =? (if Nat.even k then s else - s))%Z
      then alternates s (S k) rest
      else false
  end.

(** The pattern built from a window of five monowaves and the
    validator's metadata, and the same with score and confidence
    written into its metadata. *)
Definition pattern_of (win : list MonoWave) (m : Meta) : WavePattern :=
  mkWavePattern "impulse_1_5" (map _mw_to_leg win) m.

Definition scored_pattern (win : list MonoWave) (m : Meta) : WavePattern :=
  let p := pattern_of win m in
  let sc := Scorer.score_impulse p Scorer.default_ScoreConfig in
  mkWavePattern (kind p) (legs p)
                (mkMeta (w4_overlap m) (Some sc)
                        (Some (Scorer.confidence_from_score sc))).

Section Prefix.
Variable mws : list MonoWave.

(** The closure [score_prefix] of [scan_impulses_from_swings]; [None]
    is an [IndexError] out of [mws[i]]. *)
Definition score_prefix (tup : list Z) : option R :=
  let n := Z.of_nat (length mws) in
  match tup with
  | [] => Some 0
  | i0 :: _ =>
      let idxs := idxs_of tup in
      if (last idxs i0 >=? n)%Z then Some (- 1e9)
      else if (length idxs =? 5)%nat then
        win <- gather mws idxs ;;
        let '(ok, m) := RulesP5.is_valid_impulse_from_monowaves_meta win in
        if negb ok then Some (- 1e6)
        else
          let sc := Scorer.score_impulse (pattern_of win m)
                                         Scorer.default_ScoreConfig in
          let gap_pen := 0.05 * IZR (gap_sum tup) in
          Some (sc - gap_pen)
      else if (2 <=? length idxs)%nat then
        win <- gather mws idxs ;;
        let dirs := map mw_direction win in
        if existsb (Z.eqb 0) dirs then Some (- 1e9)
        else if alternates (hd 0%Z dirs) 0 dirs then Some 0
        else Some (- 1e3)
      else Some 0
  end.

(** The score handed to the beam search; an [IndexError] is recorded
    by [collect_errors] and read here as [0]. *)
Definition score_or_zero (tup : list Z) : R :=
  match score_prefix tup with
  | Some s => s
  | None => 0
  end.

(** One turn of the loop over the beam's tuples (source lines
    131-147): [Some None] is a [continue], [None] an [IndexError]. *)
Definition pattern_of_tuple (tup : list Z) : option (option WavePattern) :=
  let n := Z.of_nat (length mws) in
  if negb (length tup =? 5)%nat then Some None
  else
    let idxs := idxs_of tup in
    if (last idxs 0 >=? n)%Z then Some None
    else
      win <- gather mws idxs ;;
      let '(ok, m) := RulesP5.is_valid_impulse_from_monowaves_meta win in
      if negb ok then Some None
      else Some (Some (scored_pattern win m)).

Fixpoint collect (tups : list (list Z)) : option (list WavePattern) :=
  match tups with
  | [] => Some []
  | tup :: rest =>
      r <- pattern_of_tuple tup ;;
      ps <- collect rest ;;
      Some (match r with
            | Some p => p :: ps
            | None => ps
            end)
  end.
End Prefix.

(** [meta.get("score", 0.0)] *)
Definition score_of (p : WavePattern) : R :=
  match score (meta p) with
  | Some s => s
  | None => 0
  end.

(** [scan_impulses_from_swings]; [None] is an [IndexError] raised by a
    scoring call or by the loop over the beam's tuples.  The beam
    search is run on [score_or_zero]; the run is void as soon as one of
    its scoring calls was an error. *)
Definition scan_impulses_from_swings (swings : list Monowave.swing)
           (cfg : AnalyzerConfig) : option (list WavePattern) :=
  let mws := Monowave.build_monowaves_from_swings
               swings
               (Monowave.mkMonoWaveConfig (monowave_skip cfg)
                                          (min_leg_abs_move cfg)) in
  let n := Z.of_nat (length mws) in
  if (n <? 5)%Z then Some []
  else
    let layers := _layers n (max_gap cfg) in
    let bcfg := Pruner.mkBeamConfig (beam_width cfg) (max_candidates cfg)
                                    (max_patterns cfg) in
    let '(tuples_scores, _, calls) :=
      Pruner.beam_search_run Z (score_or_zero mws) bcfg layers in
    if forallb (fun tup => match score_prefix mws tup with
                           | Some _ => true
                           | None => false
                           end) calls
    then
      patterns <- collect mws (map fst tuples_scores) ;;
      Some (Pruner.nms_by_span WavePattern
              (fun p => (pattern_start_idx p, pattern_end_idx p))
              score_of (nms_overlap cfg) (max_patterns cfg) patterns)
    else None.

End Scan.

(** ** [ew6/run/batch.py]: the best pattern of a scan *)

Module Batch.
Import Model.

(** [max(xs, key=key)] on a non-empty list: the first element whose
    key no later element exceeds. *)
Fixpoint py_max_by {A : Type} (key : A -> R) (best : A) (xs : list A) : A :=
  match xs with
  | [] => best
  | x :: rest =>
      if Rltb (key best) (key x)
      then py_max_by key x rest
      else py_max_by key best rest
  end.

(** [meta.get("confidence", 0.0)] *)
Definition confidence_of (p : WavePattern) : R :=
  match confidence (meta p) with
  | Some c => c
  | None => 0
  end.

Definition summarize_patterns (patterns : list WavePattern) : R * R :=
  match patterns with
  | [] => (0, 0)
  | p :: rest =>
      let best := py_max_by Scan.score_of p rest in
      (Scan.score_of best, confidence_of best)
  end.

End Batch.

(** ** [ew6/run/rank.py] *)

Module Rank.

(** The metadata of a job, by the five keys the ranker reads; [None] is
    a missing key or a [None] value.  Profit factor and Sharpe-like
    ratio may be [inf], the one non-finite value the simulator writes. *)
Record JobMeta := mkJobMeta {
  bt_totalret : option R;
  bt_mdd : option R;
  bt_pf : option xfloat;
  bt_sharpe : option xfloat;
  wf_score : option R
}.

Record RankedItem := mkRankedItem {
  symbol : string;
  timeframe : string;
  score : R;
  meta : JobMeta
}.

(** [_get(m, key, default)] with [default = 0.0]. *)
Definition _get (v : option R) : R :=
  match v with
  | Some r => r
  | None => 0
  end.

Definition _get_x (v : option xfloat) : xfloat :=
  match v with
  | Some x => x
  | None => Fin 0
  end.

(** [min(max(0.0, pf), 40.0)] *)
Definition capped_pf (pf : xfloat) : R :=
  match pf with
  | Fin r => Rmin (Rmax 0 r) 40
  | PInf => 40
  end.

(** [1.0 / (1.0 + math.exp(-1.2 * sh))]; [math.exp(-inf)] is [0.0],
    and [None] is the [OverflowError] of [math.exp]. *)
Definition squash_sharpe (sh : xfloat) : option R :=
  match sh with
  | Fin r => e <- py_exp (- 1.2 * r) ;; Some (1 / (1 + e))
  | PInf => Some (1 / (1 + 0))
  end.

(** The in-sample part of [composite_score] (source lines 42-54);
    [None] is an [OverflowError]. *)
Definition in_sample (m : JobMeta) : option R :=
  let ret := Rmax 0 (_get (bt_totalret m)) in
  let mdd := Rmax 0 (_get (bt_mdd m)) in
  e_ret <- py_exp (- 2 * ret) ;;
  let s_ret := 1 - e_ret in
  let s_mdd := 1 / (1 + 10 * mdd) in
  e_pf <- py_exp (- 0.15 * capped_pf (_get_x (bt_pf m))) ;;
  let s_pf := 1 - e_pf in
  s_sh <- squash_sharpe (_get_x (bt_sharpe m)) ;;
  Some (0.35 * s_ret + 0.25 * s_mdd + 0.25 * s_pf + 0.15 * s_sh).

Definition composite_score (m : JobMeta) (oos_weight : R) : option R :=
  ins <- in_sample m ;;
  match wf_score m with
  | None => Some ins
  | Some wf =>
      let wf_score := Rmax 0 (Rmin 1 wf) in
      let ow := Rmax 0 (Rmin 1 oos_weight) in
      Some ((1 - ow) * ins + ow * wf_score)
  end.

(** The loop that scores every job, in input order; it ends at the
    first job whose score raises. *)
Fixpoint score_items (results : list (string * string * JobMeta))
         (oos_weight : R) : option (list RankedItem) :=
  match results with
  | [] => Some []
  | (sym, tf, m) :: rest =>
      sc <- composite_score m oos_weight ;;
      items <- score_items rest oos_weight ;;
      Some (mkRankedItem sym tf sc m :: items)
  end.

Definition rank_results (results : list (string * string * JobMeta))
           (top : Z) (oos_weight : R) : option (list RankedItem) :=
  items <- score_items results oos_weight ;;
  Some (py_prefix (Z.max 0 top) (sort_desc score items)).

End Rank.

(** * The grid search over options ([ew/detectors/tuner.py]) *)

Module Tuner.
Import Model.

Inductive error : Type :=
| IndexError
| AssertionError.

Record TuneResult := mkTuneResult {
  options : WalkForward.WaveOptions;
  patterns : Z;
  best_score : R;
  best_conf : R
}.

(** [AnalyzerConfig.from_options(opts)] *)
Definition AnalyzerConfig_from_options (opts : WalkForward.WaveOptions)
  : Analyzer.AnalyzerConfig :=
  Analyzer.mkAnalyzerConfig
    (WalkForward.monowave_skip opts) (WalkForward.min_leg_abs_move opts)
    (WalkForward.max_gap opts) (WalkForward.beam_width opts)
    (WalkForward.max_candidates opts) (WalkForward.max_patterns opts)
    (WalkForward.nms_overlap opts).

Definition _summarize (pats : list WavePattern) : R * R :=
  match pats with
  | [] => (0, 0)
  | p :: rest =>
      let best := Batch.py_max_by Scan.score_of p rest in
      (Scan.score_of best, Batch.confidence_of best)
  end.

(** [a > b] on tuples [(float, int, float)]: decided at the first
    component in which the two differ. *)
Definition tuple_gt (a b : R * Z * R) : bool :=
  let '(a1, a2, a3) := a in
  let '(b1, b2, b3) := b in
  if Req_dec_T a1 b1
  then (if (a2 =? b2)%Z then Rltb b3 a3 else (b2 <? a2)%Z)
  else Rltb b1 a1.

Definition rank_key (tr : TuneResult) : R * Z * R :=
  (best_conf tr, (- patterns tr)%Z, best_score tr).

(** The options of the four nested loops, in the order the loops
    visit them. *)
Definition grid (base : WalkForward.WaveOptions)
           (monowave_skips : list Z) (min_moves : list R)
           (max_gaps : list Z) (beam_widths : list Z)
           (max_patterns : Z) (nms_overlap : R)
  : list WalkForward.WaveOptions :=
  flat_map (fun sk =>
    flat_map (fun mm =>
      flat_map (fun mg =>
        map (fun bw =>
               WalkForward.mkWaveOptions
                 sk mm mg bw (WalkForward.max_candidates base)
                 max_patterns nms_overlap)
            beam_widths)
        max_gaps)
      min_moves)
    monowave_skips.

(** The body of the innermost loop up to [tr = TuneResult(...)];
    [None] is an [IndexError] out of the scan. *)
Definition evaluate (swings : list Monowave.swing)
           (opts : WalkForward.WaveOptions) : option TuneResult :=
  pats <- Scan.scan_impulses_from_swings
            swings (AnalyzerConfig_from_options opts) ;;
  let '(bs, bc) := _summarize pats in
  Some (mkTuneResult opts (Z.of_nat (length pats)) bs bc).

Fixpoint tune_loop (swings : list Monowave.swing)
         (todo : list WalkForward.WaveOptions) (best : option TuneResult)
  : error + option TuneResult :=
  match todo with
  | [] => inr best
  | opts :: rest =>
      match evaluate swings opts with
      | None => inl IndexError
      | Some tr =>
          match best with
          | None => tune_loop swings rest (Some tr)
          | Some b =>
              if tuple_gt (rank_key tr) (rank_key b)
              then tune_loop swings rest (Some tr)
              else tune_loop swings rest (Some b)
          end
      end
  end.

Definition tune_wave_options (swings : list Monowave.swing)
           (base : WalkForward.WaveOptions)
           (monowave_skips : list Z) (min_moves : list R)
           (max_gaps : list Z) (beam_widths : list Z)
           (max_patterns : Z) (nms_overlap : R) : error + TuneResult :=
  match tune_loop swings
                  (grid base monowave_skips min_moves max_gaps beam_widths
                        max_patterns nms_overlap)
                  None with
  | inl e => inl e
  | inr None => inl AssertionError
  | inr (Some best) => inr best
  end.

End Tuner.

(** * Notions used in the statements *)

Section BeamNotions.
Import Pruner.
Variable T : Type.
Variable cfg : BeamConfig.

(** The counter agrees with the log of scoring calls and has not
    passed the budget. *)
Definition within_budget (gen : Z) (log : list (list T)) : Prop :=
  Z.of_nat (length log) = gen /\ (gen <= max_candidates cfg)%Z.
End BeamNotions.

Section NMSNotions.
Import Pruner.
Variable T : Type.
Variable span_fn : T -> Z * Z.
Variable overlap_thresh : R.

(** Overlap of two items' spans stays under the threshold. *)
Definition apart (a b : T) : Prop :=
  overlap_ratio (span_fn a) (span_fn b) < overlap_thresh.
End NMSNotions.

Section ValidatorNotions.
Import Model.

(** The direction of a leg as the specification has it: the sign of
    its price move, end price less start price. *)
Definition move_sign (m : MonoWave) : Z :=
  if Rlt_dec 0 (mw_end_px m - mw_start_px m) then 1
  else if Rlt_dec (mw_end_px m - mw_start_px m) 0 then (-1)
  else 0.

(** The magnitude of a leg: the size of its price move. *)
Definition magnitude (m : MonoWave) : R :=
  Rabs (mw_end_px m - mw_start_px m).

(** The five conditions of the claim, for legs [m0 .. m4], in terms of
    the legs' prices alone. *)
Definition impulse_shape (m0 m1 m2 m3 m4 : MonoWave) : Prop :=
  let s := move_sign m0 in
  (forall m, In m [m0; m1; m2; m3; m4] -> move_sign m <> 0%Z)
  /\ map move_sign [m0; m1; m2; m3; m4] = [s; - s; s; - s; s]%Z
  /\ (s = 1%Z -> mw_end_px m1 > mw_start_px m0)
  /\ (s = (-1)%Z -> mw_end_px m1 < mw_start_px m0)
  /\ magnitude m2 > Rmin (magnitude m0) (magnitude m4).
End ValidatorNotions.

Section BacktestNotions.
Import Model Backtest.
Variables initial_cash risk_fraction min_confidence : R.
Variable bars : option (list R).
Variable entry_mode : string.
Variables fee_bps slippage_bps : R.

(** The resolved entry and exit price of a pattern. *)
Definition prices (p : WavePattern) : R * R :=
  match legs p with
  | [] => (0, 0)
  | l0 :: ls => resolve_prices bars entry_mode l0 (last ls l0)
  end.

(** Trade direction, from the first leg. *)
Definition first_direction (p : WavePattern) : Z :=
  match legs p with
  | [] => 1
  | l0 :: _ => if Rleb 0 (end_px l0 - start_px l0) then 1 else (-1)
  end.

(** The pattern is passed over: low confidence, fewer than five legs,
    or a non-positive resolved price. *)
Definition skipped (p : WavePattern) : Prop :=
  conf_of p < min_confidence
  \/ (length (legs p) < 5)%nat
  \/ fst (prices p) <= 0
  \/ snd (prices p) <= 0.

Definition skipb (p : WavePattern) : bool :=
  Rltb (conf_of p) min_confidence
  || (Z.of_nat (length (legs p)) <? 5)%Z
  || Rleb (fst (prices p)) 0
  || Rleb (snd (prices p)) 0.

(** The state after the trade on pattern [p], taken as number [i]. *)
Definition traded (i : Z) (p : WavePattern) (st : bt_state) : bt_state :=
  let entry := fst (prices p) in
  let exitp := snd (prices p) in
  record_trade risk_fraction fee_bps slippage_bps i (first_direction p)
               entry exitp ((exitp - entry) / entry) st.

(** The loop, as the fold it computes. *)
Fixpoint run_from (i : Z) (patterns : list WavePattern) (st : bt_state)
  : bt_state :=
  match patterns with
  | [] => st
  | p :: rest =>
      run_from (i + 1) rest (if skipb p then st else traded i p st)
  end.

(** Sum of the positive net returns, and of the absolute values of the
    negative ones, over a trade log. *)
Definition sum_wins (ts : list Trade) : R :=
  py_sum (filter (fun r => Rltb 0 r) (map ret ts)).

Definition sum_losses (ts : list Trade) : R :=
  py_sum (map Rabs (filter (fun r => Rltb r 0) (map ret ts))).

(** Indices of the patterns that are not passed over, counted from
    [i], in list order. *)
Fixpoint qualifying (i : Z) (patterns : list WavePattern) : list Z :=
  match patterns with
  | [] => []
  | p :: rest =>
      if skipb p then qualifying (i + 1) rest
      else i :: qualifying (i + 1) rest
  end.

(** What holds of the loop variables after every iteration. *)
Record consistent (st : bt_state) : Prop := mkConsistent {
  cons_len : length (st_curve st) = S (length (st_trades st));
  cons_first : nth_error (st_curve st) 0 = Some initial_cash;
  cons_last : nth_error (st_curve st) (length (st_trades st))
              = Some (st_equity st);
  cons_chain :
    forall k t, nth_error (st_trades st) k = Some t ->
      exists e, nth_error (st_curve st) k = Some e
                /\ pnl t = e * risk_fraction * ret t
                /\ nth_error (st_curve st) (S k) = Some (e + pnl t)
                /\ equity_after t = e + pnl t;
  cons_rets : st_rets st = map ret (st_trades st);
  cons_wins : st_gross_wins st = sum_wins (st_trades st);
  cons_losses : st_gross_losses st = sum_losses (st_trades st)
}.
End BacktestNotions.

(** ** Concrete patterns *)

(** The scenario pattern of C8 on increasing indices, from 0 to 50. *)
Definition forward_scenario : Model.WavePattern :=
  Model.mkWavePattern
    "impulse_1_5"
    [Model.mkWaveLeg 0 10 100 110; Model.mkWaveLeg 10 20 110 107;
     Model.mkWaveLeg 20 30 107 119; Model.mkWaveLeg 30 40 119 115;
     Model.mkWaveLeg 40 50 115 124]
    Model.empty_meta.

(** A pattern of six legs, confidence 0.9, all prices positive. *)
Definition six_leg_pattern : Model.WavePattern :=
  Model.mkWavePattern
    "impulse_1_5"
    [Model.mkWaveLeg 0 10 100 110; Model.mkWaveLeg 10 20 110 107;
     Model.mkWaveLeg 20 30 107 119; Model.mkWaveLeg 30 40 119 115;
     Model.mkWaveLeg 40 50 115 124; Model.mkWaveLeg 50 60 124 120]
    (Model.mkMeta None (Some 6.6) (Some 0.9)).

(** A five-leg pattern of confidence 0.2. *)
Definition low_confidence_pattern : Model.WavePattern :=
  Model.mkWavePattern
    "impulse_1_5"
    [Model.mkWaveLeg 0 10 100 110; Model.mkWaveLeg 10 20 110 107;
     Model.mkWaveLeg 20 30 107 119; Model.mkWaveLeg 30 40 119 115;
     Model.mkWaveLeg 40 50 115 124]
    (Model.mkMeta None (Some 1.1) (Some 0.2)).

(** Two five-leg patterns traded at their leg prices: the first doubles
    (entry 1, exit 2), the second loses one part in ten to the
    thirteenth (entry 10^13, exit 10^13 - 1). *)
Definition doubling_pattern : Model.WavePattern :=
  Model.mkWavePattern
    "impulse_1_5"
    [Model.mkWaveLeg 0 10 1 2; Model.mkWaveLeg 10 20 2 1.5;
     Model.mkWaveLeg 20 30 1.5 3; Model.mkWaveLeg 30 40 3 1.8;
     Model.mkWaveLeg 40 50 1.8 2]
    (Model.mkMeta None (Some 6.6) (Some 0.9)).

Definition tiny_loss_pattern : Model.WavePattern :=
  Model.mkWavePattern
    "impulse_1_5"
    [Model.mkWaveLeg 0 10 10000000000000 10000000000001;
     Model.mkWaveLeg 10 20 10000000000001 10000000000000;
     Model.mkWaveLeg 20 30 10000000000000 10000000000002;
     Model.mkWaveLeg 30 40 10000000000002 9999999999998;
     Model.mkWaveLeg 40 50 9999999999998 9999999999999]
    (Model.mkMeta None (Some 6.6) (Some 0.9)).

(** ** Notions for the beam, the ranking order and the legs *)

(** [b] does not come before [a] in a list sorted by decreasing key. *)
Definition key_desc {A : Type} (key : A -> R) (a b : A) : Prop :=
  key b <= key a.

(** The tuple takes its first component from the first layer, its
    second from the second, and so on; it is no longer than the list of
    layers. *)
Fixpoint drawn {T : Type} (layers : list (list T)) (cand : list T) : Prop :=
  match cand, layers with
  | [], _ => True
  | x :: c, l :: ls => In x l /\ drawn ls c
  | _ :: _, [] => False
  end.

(** Each leg starts where the one before it ended, in index and
    price. *)
Fixpoint chained (mws : list Model.MonoWave) : Prop :=
  match mws with
  | a :: ((b :: _) as rest) =>
      Model.mw_end_idx a = Model.mw_start_idx b
      /\ Model.mw_end_px a = Model.mw_start_px b
      /\ chained rest
  | _ => True
  end.

(** The growth factor of a trade log: the product of
    [1 + risk_fraction * ret] over its trades. *)
Definition growth (risk_fraction : R) (ts : list Backtest.Trade) : R :=
  fold_left (fun acc t => acc * (1 + risk_fraction * Backtest.ret t)) ts 1.

(** What the scan promises of a pattern it returns, given the
    monowaves [mws] it worked on: the legs are five of those monowaves
    and pass the validator, and the metadata holds the overlap flag,
    the pattern's own score and the confidence of that score. *)
Definition scan_pattern (mws : list Model.MonoWave) (p : Model.WavePattern)
  : Prop :=
  exists win,
    Forall (fun mw => In mw mws) win
    /\ length win = 5%nat
    /\ RulesP5.is_valid_impulse_from_monowaves win = true
    /\ Model.legs p = map Analyzer._mw_to_leg win
    /\ Model.kind p = "impulse_1_5"%string
    /\ (exists flag, Model.w4_overlap (Model.meta p) = Some flag)
    /\ Model.score (Model.meta p)
       = Some (Scorer.score_impulse p Scorer.default_ScoreConfig)
    /\ Model.confidence (Model.meta p)
       = Some (Scorer.confidence_from_score
                 (Scorer.score_impulse p Scorer.default_ScoreConfig)).

Section BeamShapeNotions.
Import Pruner.
Variable T : Type.
Variable score_fn : list T -> R.
Variable full : list (list T).

(** A beam entry after [k] layers: a tuple of [k] items drawn from the
    layers. *)
Definition at_level (k : nat) (e : entry T) : Prop :=
  length (fst e) = k /\ drawn full (fst e).

(** The entry's second component is the score of its tuple. *)
Definition carries_score (e : entry T) : Prop := snd e = score_fn (fst e).

(** The state of the layer loop after [k] layers: the next beam holds
    scored tuples of [k] items, and every logged scoring call was on a
    tuple drawn from the layers. *)
Definition shaped (k : nat) (st : loop_state T) : Prop :=
  Forall (fun e => at_level k e /\ carries_score e) (next_beam T st)
  /\ Forall (drawn full) (scored T st).
End BeamShapeNotions.

(** Order of two swing points by index. *)
Definition idx_le (a b : Monowave.swing) : Prop := (fst a <= fst b)%Z.

(** The leg between two consecutive kept points. *)
Definition leg_between (ab : Monowave.swing * Monowave.swing)
  : Model.MonoWave :=
  Model.mkMonoWave (fst (fst ab)) (fst (snd ab)) (snd (fst ab)) (snd (snd ab)).

(** The monowave with its prices reflected about [c / 2]: a rise
    becomes a fall of the same size over the same bars. *)
Definition mirror (c : R) (mw : Model.MonoWave) : Model.MonoWave :=
  Model.mkMonoWave (Model.mw_start_idx mw) (Model.mw_end_idx mw)
                   (c - Model.mw_start_px mw) (c - Model.mw_end_px mw).

(** The same reflection on a swing point, a leg and a pattern; the
    pattern keeps its kind and metadata. *)
Definition mirror_swing (c : R) (s : Monowave.swing) : Monowave.swing :=
  (fst s, c - snd s).

Definition mirror_leg (c : R) (l : Model.WaveLeg) : Model.WaveLeg :=
  Model.mkWaveLeg (Model.start_idx l) (Model.end_idx l)
                  (c - Model.start_px l) (c - Model.end_px l).

Definition mirror_pattern (c : R) (p : Model.WavePattern)
  : Model.WavePattern :=
  Model.mkWavePattern (Model.kind p) (map (mirror_leg c) (Model.legs p))
                      (Model.meta p).

(** The job's Sharpe-like ratio is not so negative that its logistic
    squash overflows: [-1.2 * sh] does not exceed 709.782712893384,
    the largest argument [math.exp] takes. *)
Definition sharpe_in_range (m : Rank.JobMeta) : Prop :=
  match Rank._get_x (Rank.bt_sharpe m) with
  | Fin r => - 1.2 * r <= 709.782712893384
  | PInf => True
  end.

(** [a] comes before [b] in the lexicographic order of the tuner's
    ranking tuples. *)
Definition lex_lt (a b : R * Z * R) : Prop :=
  let '(a1, a2, a3) := a in
  let '(b1, b2, b3) := b in
  a1 < b1 \/ (a1 = b1 /\ ((a2 < b2)%Z \/ (a2 = b2 /\ a3 < b3))).

(** * Properties *)

(** ** Sequences *)

Section PySeqFacts.
Context {A : Type}.

Lemma insert_desc_length (key : A -> R) x l :
  length (insert_desc key x l) = S (length l).
Proof.
  induction l as [|y l IH]; simpl; [reflexivity|].
  destruct (Rlt_dec (key x) (key y)); simpl; congruence.
Qed.

Lemma sort_desc_length (key : A -> R) l :
  length (sort_desc key l) = length l.
Proof.
  induction l as [|x l IH]; simpl; [reflexivity|].
  rewrite insert_desc_length. congruence.
Qed.

Lemma py_prefix_length_le k (l : list A) :
  (length (py_prefix k l) <= length l)%nat.
Proof.
  unfold py_prefix. destruct (k <? 0)%Z; rewrite length_firstn; lia.
Qed.
End PySeqFacts.

Lemma py_range_length lo hi : length (py_range lo hi) = Z.to_nat (hi - lo).
Proof. unfold py_range. now rewrite length_map, length_seq. Qed.

Lemma py_range_In lo hi x : In x (py_range lo hi) <-> (lo <= x < hi)%Z.
Proof.
  unfold py_range. rewrite in_map_iff. split.
  - intros (i & <- & Hi). apply in_seq in Hi. lia.
  - intros H. exists (Z.to_nat (x - lo)). split; [lia|].
    apply in_seq. lia.
Qed.

(** ** Float comparisons *)

Lemma Rleb_false a b : Rleb a b = false <-> b < a.
Proof. unfold Rleb. destruct (Rle_dec a b); split; intros; try lra; congruence. Qed.

Lemma Rleb_true a b : Rleb a b = true <-> a <= b.
Proof. unfold Rleb. destruct (Rle_dec a b); split; intros; try lra; congruence. Qed.

Lemma Rltb_true a b : Rltb a b = true <-> a < b.
Proof. unfold Rltb. destruct (Rlt_dec a b); split; intros; try lra; congruence. Qed.

Lemma Rltb_false a b : Rltb a b = false <-> b <= a.
Proof. unfold Rltb. destruct (Rlt_dec a b); split; intros; try lra; congruence. Qed.

(** ** The candidate budget of the beam search *)

Section BeamBudget.
Import Pruner.
Variable T : Type.
Variable score_fn : list T -> R.
Variable cfg : BeamConfig.

Local Abbreviation within_budget := (within_budget T cfg).

Lemma expand_prefix_budget prefix layer st :
  (generated T st < max_candidates cfg)%Z ->
  Z.of_nat (length (scored T st)) = generated T st ->
  let st' := expand_prefix T score_fn cfg prefix layer st in
  within_budget (generated T st') (scored T st').
Proof.
  revert st. induction layer as [|item rest IH]; intros st Hlt Hlog; simpl.
  - split; [exact Hlog | lia].
  - destruct (Z.geb_spec (generated T st + 1) (max_candidates cfg)) as [Hge|Hnge].
    + split; simpl; [rewrite length_app; simpl; lia | lia].
    + apply IH; simpl; [lia | rewrite length_app; simpl; lia].
Qed.

Lemma expand_beam_budget beam layer st :
  (generated T st < max_candidates cfg)%Z ->
  Z.of_nat (length (scored T st)) = generated T st ->
  let st' := expand_beam T score_fn cfg beam layer st in
  within_budget (generated T st') (scored T st').
Proof.
  revert st. induction beam as [|[prefix sc] rest IH]; intros st Hlt Hlog; simpl.
  - split; [exact Hlog | lia].
  - pose proof (expand_prefix_budget prefix layer st Hlt Hlog) as [H1 H2].
    simpl in H1, H2.
    destruct (Z.geb_spec
                (generated T (expand_prefix T score_fn cfg prefix layer st))
                (max_candidates cfg)) as [Hge|Hnge].
    + split; assumption.
    + apply IH; [lia | exact H1].
Qed.

Lemma run_layers_budget layers beam gen log :
  (gen < max_candidates cfg)%Z ->
  Z.of_nat (length log) = gen ->
  let '(_, gen', log') := run_layers T score_fn cfg layers beam gen log in
  within_budget gen' log'.
Proof.
  revert beam gen log.
  induction layers as [|layer rest IH]; intros beam gen log Hlt Hlog; simpl.
  - split; [exact Hlog | lia].
  - pose proof (expand_beam_budget beam layer (mkLoop T [] gen log) Hlt Hlog)
      as [H1 H2]. simpl in H1, H2.
    destruct (Z.geb_spec
                (generated T (expand_beam T score_fn cfg beam layer
                                          (mkLoop T [] gen log)))
                (max_candidates cfg)) as [Hge|Hnge].
    + split; assumption.
    + apply IH; [lia | exact H1].
Qed.
End BeamBudget.

(** C1, as stated, fails for a budget of zero: the budget test follows
    the increment, so one layer holding one item is scored once. *)
Lemma beam_search_budget_zero_exceeded :
  ~ (Pruner.evaluations Z (fun _ => 0%R) (Pruner.mkBeamConfig 256 0 50) [[0%Z]]
     <= Pruner.max_candidates (Pruner.mkBeamConfig 256 0 50))%Z.
Proof.
  unfold Pruner.evaluations, Pruner.beam_search_run. simpl. lia.
Qed.

(** C1 (amended): whenever [max_candidates] is at least 1, a run of
    [beam_search] scores at most [max_candidates] partial prefixes in
    total, over all layers and all beam entries; the counter
    [generated] is exactly the number of scoring calls made. *)
Theorem beam_search_budget :
  forall (T : Type) (score_fn : list T -> R) (cfg : Pruner.BeamConfig)
         (layers : list (list T)),
    (1 <= Pruner.max_candidates cfg)%Z ->
    (Pruner.evaluations T score_fn cfg layers <= Pruner.max_candidates cfg)%Z
    /\ snd (fst (Pruner.beam_search_run T score_fn cfg layers))
       = Pruner.evaluations T score_fn cfg layers.
Proof.
  intros T score_fn cfg layers Hpos.
  unfold Pruner.evaluations, Pruner.beam_search_run.
  pose proof (run_layers_budget T score_fn cfg layers [([], 0)] 0%Z []) as H.
  destruct (Pruner.run_layers T score_fn cfg layers [([], 0)] 0 [])
    as [[beam gen] log].
  destruct H as [H1 H2]; [lia | reflexivity |].
  simpl. split; lia.
Qed.

Lemma beam_search_budget_witness :
  (1 <= Pruner.max_candidates (Pruner.mkBeamConfig 2 3 50))%Z
  /\ (Pruner.evaluations Z (fun _ => 0%R) (Pruner.mkBeamConfig 2 3 50)
                         [[0; 1]; [1; 2]]%Z
      <= 3)%Z.
Proof.
  split; [simpl; lia|].
  apply (beam_search_budget Z (fun _ => 0%R) (Pruner.mkBeamConfig 2 3 50)
                            [[0; 1]; [1; 2]]%Z).
  simpl; lia.
Defined.

(** ** Non-maximum suppression by span *)

Lemma overlap_ratio_sym a b : Pruner.overlap_ratio a b = Pruner.overlap_ratio b a.
Proof.
  destruct a as [a0 a1], b as [b0 b1]. unfold Pruner.overlap_ratio.
  now rewrite (Z.min_comm a1 b1), (Z.max_comm a0 b0),
              (Z.max_comm a1 b1), (Z.min_comm a0 b0).
Qed.

Section OrderedPairs.
Context {A : Type} (P : A -> A -> Prop).

Lemma FOP_snoc l x :
  ForallOrdPairs P l -> Forall (fun k => P k x) l ->
  ForallOrdPairs P (l ++ [x]).
Proof.
  induction 1 as [|a l Ha Hl IH]; intros Hx; simpl.
  - constructor; constructor.
  - inversion Hx; subst. constructor.
    + apply Forall_app. split; [assumption | constructor; [assumption | constructor]].
    + apply IH. assumption.
Qed.

Lemma FOP_nth l :
  ForallOrdPairs P l ->
  forall i j a b, (i < j)%nat ->
    nth_error l i = Some a -> nth_error l j = Some b -> P a b.
Proof.
  induction 1 as [|x l Hx Hl IH]; intros i j a b Hij Hi Hj.
  - destruct i; discriminate.
  - destruct j as [|j]; [lia|]. destruct i as [|i]; simpl in *.
    + inversion Hi; subst. rewrite Forall_forall in Hx.
      apply Hx. eapply nth_error_In; eassumption.
    + apply (IH i j); [lia | assumption | assumption].
Qed.
End OrderedPairs.

Section NMSFacts.
Import Pruner.
Variable T : Type.
Variable span_fn : T -> Z * Z.
Variable score_fn : T -> R.
Variable overlap_thresh : R.
Variable max_keep : Z.

Local Abbreviation apart := (apart T span_fn overlap_thresh).

Lemma not_suppressed_apart it kept :
  suppressed T span_fn overlap_thresh (span_fn it) kept = false ->
  Forall (fun k => apart k it) kept.
Proof.
  unfold suppressed. induction kept as [|k kept IH]; simpl; intros H.
  - constructor.
  - apply orb_false_iff in H as [Hk Hrest]. constructor.
    + unfold apart. rewrite overlap_ratio_sym.
      destruct (Rle_dec overlap_thresh
                        (overlap_ratio (span_fn it) (span_fn k)));
        [discriminate | lra].
    + apply IH. exact Hrest.
Qed.

Lemma nms_loop_apart ordered kept :
  ForallOrdPairs apart kept ->
  ForallOrdPairs apart (nms_loop T span_fn overlap_thresh max_keep ordered kept).
Proof.
  revert kept. induction ordered as [|it rest IH]; intros kept Hk; simpl.
  - exact Hk.
  - destruct (suppressed T span_fn overlap_thresh (span_fn it) kept) eqn:Hs.
    + apply IH. exact Hk.
    + assert (ForallOrdPairs apart (kept ++ [it])) as Hk'
        by (apply FOP_snoc; [exact Hk | apply not_suppressed_apart; exact Hs]).
      destruct (Z.of_nat (length (kept ++ [it])) >=? max_keep)%Z;
        [exact Hk' | apply IH; exact Hk'].
Qed.

Lemma nms_loop_length ordered kept :
  (Z.of_nat (length kept) < max_keep)%Z ->
  (Z.of_nat (length (nms_loop T span_fn overlap_thresh max_keep ordered kept))
   <= max_keep)%Z.
Proof.
  revert kept. induction ordered as [|it rest IH]; intros kept Hk; simpl.
  - lia.
  - destruct (suppressed T span_fn overlap_thresh (span_fn it) kept).
    + apply IH. exact Hk.
    + destruct (Z.geb_spec (Z.of_nat (length (kept ++ [it]))) max_keep) as [Hge|Hlt].
      * rewrite length_app in *. simpl in *. lia.
      * apply IH. lia.
Qed.
End NMSFacts.

(** C5, as stated, fails for a keep limit of zero: the limit is tested
    after the append, so the first item is always kept. *)
Lemma nms_by_span_keep_zero_exceeded :
  ~ (Z.of_nat (length (Pruner.nms_by_span (Z * Z) (fun sp => sp)
                                          (fun _ => 0%R) 0.7 0
                                          [(0, 10)%Z]))
     <= 0)%Z.
Proof. unfold Pruner.nms_by_span. simpl. lia. Qed.

(** C5 (amended): in the list returned by [nms_by_span], any two items
    at different positions have span overlap ratio strictly below the
    threshold; and whenever [max_keep] is at least 1 the list has at
    most [max_keep] items. *)
Theorem nms_by_span_separated :
  forall (T : Type) (span_fn : T -> Z * Z) (score_fn : T -> R)
         (overlap_thresh : R) (max_keep : Z) (items : list T),
    let out := Pruner.nms_by_span T span_fn score_fn overlap_thresh max_keep items in
    (forall i j a b, i <> j ->
        nth_error out i = Some a -> nth_error out j = Some b ->
        Pruner.overlap_ratio (span_fn a) (span_fn b) < overlap_thresh)
    /\ ((1 <= max_keep)%Z -> (Z.of_nat (length out) <= max_keep)%Z).
Proof.
  intros T span_fn score_fn overlap_thresh max_keep items out. split.
  - assert (ForallOrdPairs (apart T span_fn overlap_thresh) out) as H
      by (apply nms_loop_apart; constructor).
    intros i j a b Hij Hi Hj.
    destruct (Nat.lt_ge_cases i j) as [Hlt|Hge].
    + exact (FOP_nth _ _ H i j a b Hlt Hi Hj).
    + rewrite overlap_ratio_sym.
      apply (FOP_nth _ _ H j i b a); [lia | assumption | assumption].
  - intros Hpos. apply nms_loop_length. simpl. lia.
Qed.

Lemma nms_by_span_separated_witness :
  (1 <= 2)%Z
  /\ (Z.of_nat (length (Pruner.nms_by_span (Z * Z) (fun sp => sp)
                                           (fun sp => IZR (snd sp)) 0.7 2
                                           [(0, 10); (1, 10); (20, 30)]%Z))
      <= 2)%Z.
Proof.
  split; [lia|].
  apply (nms_by_span_separated (Z * Z) (fun sp => sp) (fun sp => IZR (snd sp))
                               0.7 2 [(0, 10); (1, 10); (20, 30)]%Z).
  lia.
Defined.

(** ** The search layers of the candidate generator *)

Lemma py_range_NoDup lo hi : NoDup (py_range lo hi).
Proof.
  unfold py_range. generalize (seq_NoDup (Z.to_nat (hi - lo)) 0).
  induction (seq 0 (Z.to_nat (hi - lo))) as [|i l IH]; intros Hnd; simpl.
  - constructor.
  - inversion Hnd as [|? ? Hi Hl]; subst. constructor; [|apply IH; exact Hl].
    intros Hin. apply in_map_iff in Hin as (j & Hj & Hjl).
    assert (j = i) by lia. subst. contradiction.
Qed.

(** C3, as stated, fails already for five legs: the start layer holds
    index 0, which the interval [[0, n-5)] excludes. *)
Lemma layers_start_not_below_n_minus_5 :
  ~ (forall i0 : Z,
        In i0 (nth 0 (Analyzer._layers 5 1) []) <-> (0 <= i0 < 5 - 5)%Z).
Proof.
  intros H. specialize (H 0%Z). simpl in H.
  assert (0 <= 0 < 5 - 5)%Z by (apply H; left; reflexivity). lia.
Qed.

(** C3 (amended): for a leg array of length [n] the layers are one
    start layer followed by four equal gap layers; the start layer
    ranges exactly over the indices [0 <= i0 < n-4], each gap layer
    exactly over the integers [1 .. max_gap+1], none listed twice. *)
Theorem layers_ranges :
  forall n max_gap : Z,
  exists starts gaps : list Z,
    Analyzer._layers n max_gap = [starts; gaps; gaps; gaps; gaps]
    /\ (forall i0, In i0 starts <-> (0 <= i0 < n - 4)%Z)
    /\ (forall delta, In delta gaps <-> (1 <= delta <= max_gap + 1)%Z)
    /\ NoDup starts /\ NoDup gaps.
Proof.
  intros n max_gap.
  exists (py_range 0 (Z.max 0 (n - 4))), (py_range 1 (max_gap + 2)).
  split; [reflexivity|].
  split; [intros i0; rewrite py_range_In; lia|].
  split; [intros delta; rewrite py_range_In; lia|].
  split; apply py_range_NoDup.
Qed.

(** ** The leg-based impulse validator *)

Section Validator.
Import Model RulesP5.

Lemma mw_direction_cases mw :
  mw_direction mw = 1%Z \/ mw_direction mw = (-1)%Z \/ mw_direction mw = 0%Z.
Proof.
  unfold mw_direction.
  destruct (Rltb (mw_start_px mw) (mw_end_px mw));
    destruct (Rltb (mw_end_px mw) (mw_start_px mw)); auto.
Qed.

Lemma existsb_zero_false (d : list Z) :
  existsb (Z.eqb 0) d = false <-> (forall z, In z d -> z <> 0%Z).
Proof.
  induction d as [|z d IH]; cbn [existsb In].
  - split; [intros _ z [] | reflexivity].
  - rewrite orb_false_iff, IH, Z.eqb_neq. split.
    + intros [Hz Hd] y [<-|Hy]; [congruence | auto].
    + intros H. split; [intros E; apply (H z); auto | intros y Hy; apply H; auto].
Qed.

(** The validator's helpers compute the sign and the size of the
    price move. *)
Lemma dir_move_sign mw : _dir mw = move_sign mw.
Proof.
  unfold _dir, mw_direction, move_sign, Rltb.
  destruct (Rlt_dec (mw_start_px mw) (mw_end_px mw)),
           (Rlt_dec 0 (mw_end_px mw - mw_start_px mw)); try lra; try reflexivity.
  destruct (Rlt_dec (mw_end_px mw) (mw_start_px mw)),
           (Rlt_dec (mw_end_px mw - mw_start_px mw) 0); try lra; reflexivity.
Qed.

Lemma abs_move_magnitude mw : _abs_move mw = magnitude mw.
Proof. reflexivity. Qed.

Lemma move_sign_up mw : mw_start_px mw < mw_end_px mw -> move_sign mw = 1%Z.
Proof.
  intros H. unfold move_sign.
  destruct (Rlt_dec 0 (mw_end_px mw - mw_start_px mw)); [reflexivity | lra].
Qed.

Lemma move_sign_down mw :
  mw_end_px mw < mw_start_px mw -> move_sign mw = (-1)%Z.
Proof.
  intros H. unfold move_sign.
  destruct (Rlt_dec 0 (mw_end_px mw - mw_start_px mw)); [lra|].
  destruct (Rlt_dec (mw_end_px mw - mw_start_px mw) 0); [reflexivity | lra].
Qed.

(** The claim's conditions, read on the validator's helpers. *)
Lemma impulse_shape_helpers m0 m1 m2 m3 m4 :
  impulse_shape m0 m1 m2 m3 m4
  <-> (forall m, In m [m0; m1; m2; m3; m4] -> _dir m <> 0%Z)
      /\ map _dir [m0; m1; m2; m3; m4]
         = [_dir m0; - _dir m0; _dir m0; - _dir m0; _dir m0]%Z
      /\ (_dir m0 = 1%Z -> mw_end_px m1 > mw_start_px m0)
      /\ (_dir m0 = (-1)%Z -> mw_end_px m1 < mw_start_px m0)
      /\ _abs_move m2 > Rmin (_abs_move m0) (_abs_move m4).
Proof.
  unfold impulse_shape, magnitude, _abs_move, mw_abs_move. cbn [map].
  rewrite !dir_move_sign.
  split; intros (Hnz & H); (split; [|exact H]); intros m Hm.
  - rewrite dir_move_sign. apply Hnz. exact Hm.
  - rewrite <- dir_move_sign. apply Hnz. exact Hm.
Qed.
End Validator.

(** C4: [is_valid_impulse_from_monowaves] answers [True] exactly on
    five legs whose directions are all nonzero and equal
    [[s,-s,s,-s,s]] for [s] the direction of the first, whose second
    leg ends strictly on the far side of the first leg's start price
    (above it for [s = 1], below it for [s = -1]), and whose third leg
    is strictly longer than the shorter of the first and fifth.  The
    position of the fourth leg's end plays no part: it only sets the
    [w4_overlap] flag of the returned metadata. *)
Theorem is_valid_impulse_iff :
  forall mws : list Model.MonoWave,
    (RulesP5.is_valid_impulse_from_monowaves mws = true
     <-> exists m0 m1 m2 m3 m4,
           mws = [m0; m1; m2; m3; m4] /\ impulse_shape m0 m1 m2 m3 m4)
    /\ (forall m0 m1 m2 m3 m4,
           mws = [m0; m1; m2; m3; m4] ->
           RulesP5.is_valid_impulse_from_monowaves mws = true ->
           RulesP5.is_valid_impulse_from_monowaves_meta mws
           = (true,
              Model.mkMeta
                (Some (if (move_sign m0 =? 1)%Z
                       then Rltb (Model.mw_end_px m3) (Model.mw_end_px m0)
                       else Rltb (Model.mw_end_px m0) (Model.mw_end_px m3)))
                None None)).
Proof.
  intros mws. split.
  - split.
    + intros H.
      destruct mws as [|m0 [|m1 [|m2 [|m3 [|m4 [|m5 rest]]]]]]; try discriminate.
      exists m0, m1, m2, m3, m4. split; [reflexivity|].
      unfold RulesP5.is_valid_impulse_from_monowaves,
        RulesP5.is_valid_impulse_from_monowaves_meta in H.
      destruct (existsb (Z.eqb 0) (map RulesP5._dir [m0; m1; m2; m3; m4])) eqn:Hz;
        [discriminate|].
      unfold RulesP5.Z_list_eqb in H.
      destruct (list_eq_dec Z.eq_dec _ _) as [Hd|Hd]; [|discriminate].
      simpl negb in H. cbv iota in H.
      destruct (if (RulesP5._dir m0 =? 1)%Z
                then Rleb (Model.mw_end_px m1) (Model.mw_start_px m0)
                else Rleb (Model.mw_start_px m0) (Model.mw_end_px m1)) eqn:Hr;
        [discriminate|].
      destruct (Rleb (RulesP5._abs_move m2)
                     (Rmin (RulesP5._abs_move m0) (RulesP5._abs_move m4))) eqn:Hw;
        [discriminate|].
      apply impulse_shape_helpers. repeat split.
      * intros m Hm. rewrite existsb_zero_false in Hz. apply Hz.
        apply in_map. exact Hm.
      * exact Hd.
      * intros Hs. rewrite Hs in Hr. simpl in Hr. apply Rleb_false in Hr. lra.
      * intros Hs. rewrite Hs in Hr. simpl in Hr. apply Rleb_false in Hr. lra.
      * apply Rleb_false in Hw. lra.
    + intros (m0 & m1 & m2 & m3 & m4 & -> & Hshape).
      apply impulse_shape_helpers in Hshape.
      destruct Hshape as (Hnz & Hd & Hup & Hdown & Hw).
      unfold RulesP5.is_valid_impulse_from_monowaves,
        RulesP5.is_valid_impulse_from_monowaves_meta.
      assert (existsb (Z.eqb 0) (map RulesP5._dir [m0; m1; m2; m3; m4]) = false) as Hz.
      { apply existsb_zero_false. intros z Hz.
        apply in_map_iff in Hz as (m & <- & Hm). apply Hnz. exact Hm. }
      rewrite Hz. unfold RulesP5.Z_list_eqb.
      destruct (list_eq_dec Z.eq_dec _ _) as [_|Hne]; [|contradiction].
      simpl negb. cbv iota.
      assert ((if (RulesP5._dir m0 =? 1)%Z
               then Rleb (Model.mw_end_px m1) (Model.mw_start_px m0)
               else Rleb (Model.mw_start_px m0) (Model.mw_end_px m1)) = false) as Hr.
      { destruct (mw_direction_cases m0) as [Hs|[Hs|Hs]].
        - unfold RulesP5._dir in *. rewrite Hs. simpl.
          apply Rleb_false. specialize (Hup Hs). lra.
        - unfold RulesP5._dir in *. rewrite Hs. simpl.
          apply Rleb_false. specialize (Hdown Hs). lra.
        - exfalso. apply (Hnz m0); [left; reflexivity | exact Hs]. }
      rewrite Hr.
      assert (Rleb (RulesP5._abs_move m2)
                   (Rmin (RulesP5._abs_move m0) (RulesP5._abs_move m4)) = false) as Hw'
        by (apply Rleb_false; lra).
      rewrite Hw'. reflexivity.
  - intros m0 m1 m2 m3 m4 -> H. rewrite <- dir_move_sign.
    unfold RulesP5.is_valid_impulse_from_monowaves,
      RulesP5.is_valid_impulse_from_monowaves_meta in *.
    destruct (existsb (Z.eqb 0) (map RulesP5._dir [m0; m1; m2; m3; m4]));
      [discriminate|].
    destruct (negb _); [discriminate|].
    destruct (if (RulesP5._dir m0 =? 1)%Z
              then Rleb (Model.mw_end_px m1) (Model.mw_start_px m0)
              else Rleb (Model.mw_start_px m0) (Model.mw_end_px m1));
      [discriminate|].
    destruct (Rleb _ _); [discriminate|]. reflexivity.
Qed.

(** Resolve float comparisons, minima and maxima between numerals. *)
Ltac rcmp :=
  repeat match goal with
    | |- context [Rltb ?a ?b] =>
        first [ rewrite (proj2 (Rltb_true a b)) by lra
              | rewrite (proj2 (Rltb_false a b)) by lra ]
    | |- context [Rleb ?a ?b] =>
        first [ rewrite (proj2 (Rleb_true a b)) by lra
              | rewrite (proj2 (Rleb_false a b)) by lra ]
    | |- context [Rmin ?a ?b] =>
        first [ rewrite (Rmin_left a b) by lra
              | rewrite (Rmin_right a b) by lra ]
    | |- context [Rmax ?a ?b] =>
        first [ rewrite (Rmax_left a b) by lra
              | rewrite (Rmax_right a b) by lra ]
    end.

Lemma is_valid_impulse_iff_witness :
  RulesP5.is_valid_impulse_from_monowaves
    [Model.mkMonoWave 0 1 100 110; Model.mkMonoWave 1 2 110 107;
     Model.mkMonoWave 2 3 107 119; Model.mkMonoWave 3 4 119 115;
     Model.mkMonoWave 4 5 115 124] = true.
Proof.
  apply (proj1 (is_valid_impulse_iff _)).
  do 5 eexists. split; [reflexivity|].
  assert (move_sign (Model.mkMonoWave 0 1 100 110) = 1%Z) as H0
    by (apply move_sign_up; simpl; lra).
  assert (move_sign (Model.mkMonoWave 1 2 110 107) = (-1)%Z) as H1
    by (apply move_sign_down; simpl; lra).
  assert (move_sign (Model.mkMonoWave 2 3 107 119) = 1%Z) as H2
    by (apply move_sign_up; simpl; lra).
  assert (move_sign (Model.mkMonoWave 3 4 119 115) = (-1)%Z) as H3
    by (apply move_sign_down; simpl; lra).
  assert (move_sign (Model.mkMonoWave 4 5 115 124) = 1%Z) as H4
    by (apply move_sign_up; simpl; lra).
  unfold impulse_shape. cbn [map]. rewrite H0, H1, H2, H3, H4.
  split; [|split; [reflexivity|split; [|split]]].
  - intros m Hm.
    repeat (destruct Hm as [<-|Hm];
            [rewrite ?H0, ?H1, ?H2, ?H3, ?H4; discriminate|]).
    destruct Hm.
  - intros _. simpl. lra.
  - intros H; discriminate H.
  - unfold magnitude. simpl.
    replace (119 - 107) with 12 by lra. replace (110 - 100) with 10 by lra.
    replace (124 - 115) with 9 by lra.
    rewrite !Rabs_pos_eq by lra. rcmp. lra.
Defined.

(** ** Score and confidence *)

Section ScoreFacts.
Import Model Scorer.

Lemma within_inside x lo hi : lo <= x <= hi -> _within x lo hi = 1.
Proof.
  intros [H1 H2]. unfold _within.
  rewrite (proj2 (Rleb_true lo x) H1), (proj2 (Rleb_true x hi) H2).
  reflexivity.
Qed.

(** The score of the scenario's legs, whatever the indices. *)
Lemma score_impulse_scenario p l1 l2 l3 l4 l5 :
  legs p = [l1; l2; l3; l4; l5] ->
  abs_move l1 = 10 -> abs_move l2 = 3 -> abs_move l3 = 12 ->
  abs_move l4 = 4 -> abs_move l5 = 9 ->
  w4_overlap (meta p) <> Some true ->
  score_impulse p default_ScoreConfig
  = 6.5 + Rmin (Rmax (IZR (pattern_end_idx p - pattern_start_idx p) / 500) 0) 0.5.
Proof.
  unfold abs_move. intros Hl H1 H2 H3 H4 H5 Hflag.
  unfold score_impulse. rewrite Hl. cbn [map].
  rewrite H1, H2, H3, H4, H5.
  unfold py_min, py_max. cbn [fold_left].
  replace (Rmin (Rmin (Rmin (Rmin 10 3) 12) 4) 9) with 3 by (rcmp; reflexivity).
  replace (Rmax (Rmax (Rmax (Rmax 10 3) 12) 4) 9) with 12 by (rcmp; reflexivity).
  replace (Rmin 10 9) with 9 by (rcmp; reflexivity).
  cbn [default_ScoreConfig fib_w2 fib_w3 fib_w4 overlap_penalty
       extreme_penalty fst snd].
  rewrite !within_inside by lra.
  rcmp. cbn [andb].
  rewrite within_inside by lra.
  destruct (w4_overlap (meta p)) as [[|]|]; [congruence | lra | lra].
Qed.

Lemma confidence_is_logistic s : confidence_from_score s = logistic (s - 2.5).
Proof. reflexivity. Qed.

Lemma logistic_increasing a b : a < b -> logistic a < logistic b.
Proof.
  intros Hab. unfold logistic.
  assert (exp (- b) < exp (- a)) as He by (apply exp_increasing; lra).
  pose proof (exp_pos (- a)). pose proof (exp_pos (- b)).
  unfold Rdiv. rewrite !Rmult_1_l.
  apply Rinv_lt_contravar; [nra | lra].
Qed.

(** [math.exp] returns the exponential up to [exp_max] and raises
    above it. *)
Lemma py_exp_returns x : x <= exp_max -> py_exp x = Some (exp x).
Proof.
  intros H. unfold py_exp. rewrite (proj2 (Rltb_false exp_max x) H). reflexivity.
Qed.

Lemma py_exp_raises x : exp_max < x -> py_exp x = None.
Proof.
  intros H. unfold py_exp. rewrite (proj2 (Rltb_true exp_max x) H). reflexivity.
Qed.

Lemma confidence_exn_returns s :
  2.5 - exp_max <= s ->
  confidence_from_score_exn s = Some (confidence_from_score s).
Proof.
  intros H. unfold confidence_from_score_exn.
  rewrite py_exp_returns by lra. reflexivity.
Qed.

Lemma confidence_exn_raises s :
  s < 2.5 - exp_max -> confidence_from_score_exn s = None.
Proof.
  intros H. unfold confidence_from_score_exn.
  rewrite py_exp_raises by lra. reflexivity.
Qed.
End ScoreFacts.

Ltac scenario_moves :=
  unfold Model.abs_move; simpl;
  first [ rewrite Rabs_pos_eq by lra | rewrite Rabs_left by lra ]; lra.

(** C8: for a five-leg pattern with leg magnitudes [[10,3,12,4,9]],
    first leg upward, and no [w4_overlap] flag set, whose legs run
    forward in the series (the index span is not negative, as the
    specification's invariants on legs and patterns make it),
    [score_impulse] returns [2 + 2 + 1.5 + 1.0 + min(span/500, 0.5)]
    with [span] the pattern's end index minus its start index; the
    confidence of that score is computed without overflow and is
    [logistic(score - 2.5)].  Whatever the span, the bonus is
    [min(max(span/500, 0), 0.5)]. *)
Theorem score_impulse_fib_scenario :
  forall (p : Model.WavePattern) (l1 l2 l3 l4 l5 : Model.WaveLeg),
    Model.legs p = [l1; l2; l3; l4; l5] ->
    Model.abs_move l1 = 10 -> Model.abs_move l2 = 3 ->
    Model.abs_move l3 = 12 -> Model.abs_move l4 = 4 ->
    Model.abs_move l5 = 9 ->
    Model.direction l1 = 1%Z ->
    Model.w4_overlap (Model.meta p) <> Some true ->
    let span := (Model.pattern_end_idx p - Model.pattern_start_idx p)%Z in
    let sc := Scorer.score_impulse p Scorer.default_ScoreConfig in
    sc = 2 + 2 + 1.5 + 1.0 + Rmin (Rmax (IZR span / 500) 0) 0.5
    /\ Scorer.confidence_from_score sc = Scorer.logistic (sc - 2.5)
    /\ ((0 <= span)%Z -> sc = 2 + 2 + 1.5 + 1.0 + Rmin (IZR span / 500) 0.5)
    /\ Scorer.confidence_from_score_exn sc = Some (Scorer.logistic (sc - 2.5)).
Proof.
  intros p l1 l2 l3 l4 l5 Hl H1 H2 H3 H4 H5 _ Hflag span sc.
  assert (sc = 2 + 2 + 1.5 + 1.0 + Rmin (Rmax (IZR span / 500) 0) 0.5) as Hsc.
  { subst sc span.
    rewrite (score_impulse_scenario p l1 l2 l3 l4 l5 Hl H1 H2 H3 H4 H5 Hflag).
    lra. }
  split; [exact Hsc|]. split; [apply confidence_is_logistic|]. split.
  - intros Hspan. rewrite Hsc. apply IZR_le in Hspan.
    rewrite (Rmax_left (IZR span / 500) 0) by lra. reflexivity.
  - rewrite confidence_exn_returns, confidence_is_logistic; [reflexivity|].
    rewrite Hsc. unfold exp_max.
    pose proof (Rmax_r (IZR span / 500) 0) as Hmax.
    destruct (Rle_dec (Rmax (IZR span / 500) 0) 0.5) as [Hle|Hgt].
    + rewrite Rmin_left by exact Hle. lra.
    + rewrite Rmin_right by lra. lra.
Qed.

Lemma score_impulse_fib_scenario_witness :
  Scorer.score_impulse forward_scenario Scorer.default_ScoreConfig
  = 2 + 2 + 1.5 + 1.0 + Rmin (IZR (50 - 0) / 500) 0.5.
Proof.
  assert (0 <= Model.pattern_end_idx forward_scenario
               - Model.pattern_start_idx forward_scenario)%Z as Hspan
    by (cbv; discriminate).
  refine (proj1 (proj2 (proj2 (score_impulse_fib_scenario
                                 forward_scenario _ _ _ _ _
                                 eq_refl _ _ _ _ _ _ _))) Hspan).
  - scenario_moves.
  - scenario_moves.
  - scenario_moves.
  - scenario_moves.
  - scenario_moves.
  - unfold Model.direction. simpl. rcmp. reflexivity.
  - simpl. discriminate.
Defined.

(** C9, as stated, fails for very low scores: at a score of -1000
    the call of [math.exp] overflows, so [confidence_from_score]
    returns no value there to lie below the confidence of 0. *)
Lemma confidence_raises_at_low_score :
  ~ (exists ca cb,
        Scorer.confidence_from_score_exn (-1000) = Some ca
        /\ Scorer.confidence_from_score_exn 0 = Some cb
        /\ ca < cb).
Proof.
  intros (ca & cb & Ha & _).
  rewrite confidence_exn_raises in Ha by (unfold exp_max; lra).
  discriminate Ha.
Qed.

(** C9 (amended): [confidence_from_score] returns a value exactly for
    the scores from [2.5 - 709.782712893384] upward and raises
    [OverflowError] below; where it returns, the value is the logistic
    function of [score - 2.5], and for two such scores [a < b] the
    confidence of [a] is strictly below that of [b]. *)
Theorem confidence_strictly_increasing :
  (forall s : R,
      2.5 - 709.782712893384 <= s ->
      Scorer.confidence_from_score_exn s = Some (Scorer.logistic (s - 2.5)))
  /\ (forall s : R,
         s < 2.5 - 709.782712893384 ->
         Scorer.confidence_from_score_exn s = None)
  /\ (forall a b : R,
         2.5 - 709.782712893384 <= a -> a < b ->
         exists ca cb,
           Scorer.confidence_from_score_exn a = Some ca
           /\ Scorer.confidence_from_score_exn b = Some cb
           /\ ca < cb).
Proof.
  split; [|split].
  - intros s Hs. rewrite confidence_exn_returns by exact Hs.
    rewrite confidence_is_logistic. reflexivity.
  - intros s Hs. apply confidence_exn_raises. exact Hs.
  - intros a b Ha Hab.
    exists (Scorer.confidence_from_score a), (Scorer.confidence_from_score b).
    split; [apply confidence_exn_returns; exact Ha|].
    split; [apply confidence_exn_returns; unfold exp_max; lra|].
    rewrite !confidence_is_logistic. apply logistic_increasing. lra.
Qed.

Lemma confidence_strictly_increasing_witness :
  exists ca cb,
    Scorer.confidence_from_score_exn 0 = Some ca
    /\ Scorer.confidence_from_score_exn 1 = Some cb
    /\ ca < cb.
Proof.
  apply (proj2 (proj2 confidence_strictly_increasing) 0 1).
  - lra.
  - lra.
Defined.

(** ** The trade simulator *)

Lemma fdiv_some a b : b <> 0 -> fdiv a b = Some (a / b).
Proof. intros H. unfold fdiv. destruct (Req_dec_T b 0); [contradiction | reflexivity]. Qed.

Lemma py_sum_snoc l x : Backtest.py_sum (l ++ [x]) = Backtest.py_sum l + x.
Proof. unfold Backtest.py_sum. rewrite fold_left_app. reflexivity. Qed.

Lemma dd_loop_total curve peak mdd : exists r, Backtest.dd_loop curve peak mdd = Some r.
Proof.
  revert peak mdd. induction curve as [|x rest IH]; intros peak mdd; simpl.
  - eexists; reflexivity.
  - set (peak' := if Rltb peak x then x else peak).
    destruct (Rltb 0 peak') eqn:Hp; cbn [obind].
    + apply Rltb_true in Hp. rewrite fdiv_some by lra. cbn [obind]. apply IH.
    + apply IH.
Qed.

Lemma guarded_ratio_cases num den :
  Backtest.guarded_ratio num den
  = Some (if Rltb 1e-12 den then Fin (num / den)
          else if Rltb 0 num then PInf else Fin 0).
Proof.
  unfold Backtest.guarded_ratio. destruct (Rltb 1e-12 den) eqn:Hd; [|reflexivity].
  apply Rltb_true in Hd. rewrite fdiv_some by lra. reflexivity.
Qed.

Section BacktestFacts.
Import Model Backtest.
Variables initial_cash risk_fraction min_confidence : R.
Variable bars : option (list R).
Variable entry_mode : string.
Variables fee_bps slippage_bps : R.

Local Abbreviation step :=
  (bt_step risk_fraction min_confidence bars entry_mode fee_bps slippage_bps).
Local Abbreviation loop :=
  (bt_loop risk_fraction min_confidence bars entry_mode fee_bps slippage_bps).
Local Abbreviation record := (record_trade risk_fraction fee_bps slippage_bps).
Local Abbreviation simulate :=
  (backtest_patterns initial_cash risk_fraction min_confidence bars
                     entry_mode fee_bps slippage_bps).
Local Abbreviation prices := (prices bars entry_mode).
Local Abbreviation skipped := (skipped min_confidence bars entry_mode).
Local Abbreviation skipb := (skipb min_confidence bars entry_mode).
Local Abbreviation traded :=
  (traded risk_fraction bars entry_mode fee_bps slippage_bps).
Local Abbreviation run_from :=
  (run_from risk_fraction min_confidence bars entry_mode fee_bps slippage_bps).

Lemma skipb_true p : skipb p = true <-> skipped p.
Proof.
  unfold skipb, skipped.
  rewrite !orb_true_iff, Rltb_true, !Rleb_true, Z.ltb_lt. split.
  - intros [[[H|H]|H]|H]; auto. right; left; lia.
  - intros [H|[H|[H|H]]]; auto. left; left; right; lia.
Qed.

Lemma skipb_false p : skipb p = false <-> ~ skipped p.
Proof.
  rewrite <- skipb_true. destruct (skipb p); split; congruence.
Qed.

Lemma bt_step_spec i p st :
  step i p st = Some (if skipb p then st else traded i p st).
Proof.
  unfold bt_step, skipb, traded, prices, first_direction.
  destruct (Rltb (conf_of p) min_confidence); [reflexivity|].
  destruct (Z.of_nat (length (legs p)) <? 5)%Z eqn:Hlen; [reflexivity|].
  destruct (legs p) as [|l0 ls]; [discriminate Hlen|].
  destruct (resolve_prices bars entry_mode l0 (last ls l0)) as [entry exitp].
  cbn [fst snd orb].
  destruct (Rleb entry 0) eqn:He; [reflexivity|].
  destruct (Rleb exitp 0) eqn:Hx; [reflexivity|].
  apply Rleb_false in He. cbn [orb].
  rewrite fdiv_some by lra. reflexivity.
Qed.

Lemma bt_loop_spec patterns :
  forall i st, loop i patterns st = Some (run_from i patterns st).
Proof.
  induction patterns as [|p rest IH]; intros i st; simpl; [reflexivity|].
  rewrite bt_step_spec. cbn [obind]. apply IH.
Qed.

(** The report is always produced: every division met on the way has
    a non-zero divisor. *)
Lemma backtest_patterns_spec patterns :
  let st := run_from 0 patterns (init_state initial_cash) in
  exists rep,
    simulate patterns = Some (st_trades st, rep)
    /\ equity_curve rep = st_curve st
    /\ final_equity rep = st_equity st
    /\ Backtest.trades rep = Z.of_nat (length (st_trades st))
    /\ Backtest.initial_cash rep = initial_cash
    /\ guarded_ratio (st_gross_wins st) (st_gross_losses st)
       = Some (profit_factor rep).
Proof.
  intros st. unfold backtest_patterns.
  rewrite bt_loop_spec. fold st. cbn [obind].
  assert (exists v, (if Rltb 0 initial_cash
                     then fdiv (st_equity st - initial_cash) initial_cash
                     else Some 0) = Some v) as [v1 E1].
  { destruct (Rltb 0 initial_cash) eqn:H; [|eexists; reflexivity].
    apply Rltb_true in H. rewrite fdiv_some by lra. eexists; reflexivity. }
  rewrite E1. cbn [obind].
  assert (exists v, match st_rets st with
                    | [] => Some 0
                    | _ :: _ => fdiv (py_sum (st_rets st))
                                     (INR (length (st_rets st)))
                    end = Some v) as [v2 E2].
  { destruct (st_rets st) as [|r rs] eqn:Hr; [eexists; reflexivity|].
    rewrite fdiv_some; [eexists; reflexivity|].
    apply not_0_INR. simpl. discriminate. }
  rewrite E2. cbn [obind].
  assert (exists v, match st_trades st with
                    | [] => Some 0
                    | _ :: _ => fdiv (IZR (st_wins st))
                                     (INR (length (st_trades st)))
                    end = Some v) as [v3 E3].
  { destruct (st_trades st) as [|t ts] eqn:Ht; [eexists; reflexivity|].
    rewrite fdiv_some; [eexists; reflexivity|].
    apply not_0_INR. simpl. discriminate. }
  rewrite E3. cbn [obind].
  assert (exists v, _dd_from_curve (st_curve st) = Some v) as [v4 E4].
  { unfold _dd_from_curve. destruct (st_curve st); [eexists; reflexivity|].
    apply dd_loop_total. }
  rewrite E4. cbn [obind].
  rewrite (guarded_ratio_cases (st_gross_wins st)). cbn [obind].
  assert (exists v,
             (if (2 <=? length (st_rets st))%nat
              then
                var <- fdiv (py_sum (map (fun x => (x - v2) ^ 2) (st_rets st)))
                            (IZR (Z.of_nat (length (st_rets st)) - 1)) ;;
                guarded_ratio v2 (if Rltb 0 var then sqrt var else 0)
              else Some (Fin 0)) = Some v) as [v5 E5].
  { destruct (2 <=? length (st_rets st))%nat eqn:Hn; [|eexists; reflexivity].
    apply Nat.leb_le in Hn. rewrite fdiv_some.
    - cbn [obind]. rewrite guarded_ratio_cases. eexists; reflexivity.
    - apply not_0_IZR. lia. }
  rewrite E5. cbn [obind].
  eexists. split; [reflexivity|]. cbn.
  repeat split; reflexivity.
Qed.
End BacktestFacts.

Section BacktestInvariant.
Import Model Backtest.
Variables initial_cash risk_fraction min_confidence : R.
Variable bars : option (list R).
Variable entry_mode : string.
Variables fee_bps slippage_bps : R.

Local Abbreviation skip := (skipb min_confidence bars entry_mode).
Local Abbreviation trade :=
  (traded risk_fraction bars entry_mode fee_bps slippage_bps).
Local Abbreviation run :=
  (run_from risk_fraction min_confidence bars entry_mode fee_bps slippage_bps).
Local Abbreviation qualifying := (qualifying min_confidence bars entry_mode).
Local Abbreviation consistent := (consistent initial_cash risk_fraction).

Lemma consistent_init : consistent (init_state initial_cash).
Proof.
  constructor; try reflexivity.
  intros [|k] t H; discriminate H.
Qed.

Lemma sum_wins_snoc ts t :
  sum_wins (ts ++ [t])
  = if Rltb 0 (ret t) then sum_wins ts + ret t else sum_wins ts.
Proof.
  unfold sum_wins. rewrite map_app, filter_app. simpl.
  destruct (Rltb 0 (ret t)); [apply py_sum_snoc | now rewrite app_nil_r].
Qed.

Lemma sum_losses_snoc ts t :
  sum_losses (ts ++ [t])
  = if Rltb 0 (ret t) then sum_losses ts else sum_losses ts + - ret t.
Proof.
  unfold sum_losses. rewrite map_app, filter_app, map_app. simpl.
  destruct (Rltb 0 (ret t)) eqn:Hpos.
  - apply Rltb_true in Hpos.
    rewrite (proj2 (Rltb_false (ret t) 0)) by lra. simpl. now rewrite app_nil_r.
  - apply Rltb_false in Hpos. destruct (Rltb (ret t) 0) eqn:Hneg; simpl.
    + apply Rltb_true in Hneg. rewrite py_sum_snoc, Rabs_left by lra. reflexivity.
    + apply Rltb_false in Hneg. rewrite app_nil_r.
      replace (ret t) with 0 by lra. lra.
Qed.

Lemma consistent_traded i p st :
  consistent st -> consistent (trade i p st).
Proof.
  intros [Hlen Hfirst Hlast Hchain Hrets Hw Hl].
  unfold traded, record_trade.
  set (net := (if (first_direction p =? 1)%Z then _ else _) - _).
  constructor; cbn [st_curve st_trades st_equity st_rets
                    st_gross_wins st_gross_losses].
  - rewrite !length_app. simpl. lia.
  - rewrite nth_error_app1 by lia. exact Hfirst.
  - rewrite length_app. simpl.
    rewrite nth_error_app2 by lia.
    replace (length (st_trades st) + 1 - length (st_curve st))%nat with 0%nat by lia.
    reflexivity.
  - intros k t Hk.
    destruct (Nat.lt_ge_cases k (length (st_trades st))) as [Hlt|Hge].
    + rewrite nth_error_app1 in Hk by exact Hlt.
      destruct (Hchain k t Hk) as (e & H1 & H2 & H3 & H4).
      exists e. rewrite !nth_error_app1 by lia. auto.
    + rewrite nth_error_app2 in Hk by exact Hge.
      destruct (k - length (st_trades st))%nat as [|d] eqn:Hd;
        [|destruct d; discriminate Hk].
      assert (k = length (st_trades st)) by lia. subst k.
      simpl in Hk. inversion Hk; subst t. cbn [pnl ret equity_after].
      exists (st_equity st). rewrite nth_error_app1 by lia.
      split; [exact Hlast|]. split; [reflexivity|].
      split; [|reflexivity].
      rewrite nth_error_app2 by lia.
      replace (S (length (st_trades st)) - length (st_curve st))%nat
        with 0%nat by lia.
      reflexivity.
  - rewrite map_app, Hrets. reflexivity.
  - rewrite sum_wins_snoc. cbn [ret]. rewrite Hw. reflexivity.
  - rewrite sum_losses_snoc. cbn [ret]. rewrite Hl. reflexivity.
Qed.

Lemma consistent_run patterns :
  forall i st, consistent st -> consistent (run i patterns st).
Proof.
  induction patterns as [|p rest IH]; intros i st H; simpl; [exact H|].
  apply IH. destruct (skip p); [exact H | apply consistent_traded; exact H].
Qed.

Lemma run_pattern_idx patterns :
  forall i st,
    map pattern_idx (st_trades (run i patterns st))
    = map pattern_idx (st_trades st) ++ qualifying i patterns.
Proof.
  induction patterns as [|p rest IH]; intros i st; simpl.
  - now rewrite app_nil_r.
  - rewrite IH. destruct (skip p); [reflexivity|].
    unfold traded, record_trade. cbn [st_trades].
    rewrite map_app, <- app_assoc. reflexivity.
Qed.

Lemma qualifying_In patterns :
  forall i0 i,
    In i (qualifying i0 patterns)
    <-> exists k p, nth_error patterns k = Some p
                    /\ i = (i0 + Z.of_nat k)%Z /\ skip p = false.
Proof.
  induction patterns as [|q rest IH]; intros i0 i; simpl.
  - split; [intros [] | intros ([|k] & p & H & _); discriminate H].
  - destruct (skip q) eqn:Hq; simpl; rewrite IH; split.
    + intros (k & p & Hk & -> & Hp). exists (S k), p. repeat split; auto. lia.
    + intros ([|k] & p & Hk & -> & Hp); simpl in Hk.
      * inversion Hk; subst. congruence.
      * exists k, p. repeat split; auto. lia.
    + intros [<-|(k & p & Hk & -> & Hp)].
      * exists 0%nat, q. repeat split; auto. lia.
      * exists (S k), p. repeat split; auto. lia.
    + intros ([|k] & p & Hk & -> & Hp); simpl in Hk.
      * left. lia.
      * right. exists k, p. repeat split; auto. lia.
Qed.

Lemma qualifying_sorted patterns :
  forall i0, StronglySorted Z.lt (qualifying i0 patterns).
Proof.
  induction patterns as [|q rest IH]; intros i0; simpl; [constructor|].
  destruct (skip q); [apply IH|]. constructor; [apply IH|].
  apply Forall_forall. intros i Hi.
  apply qualifying_In in Hi as (k & p & _ & -> & _). lia.
Qed.
End BacktestInvariant.

Lemma sorted_lt_NoDup l : StronglySorted Z.lt l -> NoDup l.
Proof.
  induction 1 as [|x l Hs IH Hx]; constructor; [|exact IH].
  intros Hin. rewrite Forall_forall in Hx. specialize (Hx x Hin). lia.
Qed.

Lemma last_nth_error {A : Type} (l : list A) n x d :
  length l = S n -> nth_error l n = Some x -> last l d = x.
Proof.
  revert n. induction l as [|y l IH]; intros n Hlen Hn; [discriminate|].
  destruct n as [|n]; simpl in *.
  - destruct l; [congruence | discriminate].
  - destruct l as [|z l]; [destruct n; discriminate|].
    apply (IH n); [simpl in *; lia | exact Hn].
Qed.









(** ** The stability path of the walk-forward evaluator *)

Section WalkForwardFacts.
Import WalkForward.
Variable B : Type.
Variable extract_swings : list B -> R -> result (list (Z * R)).
Variable detect_and_backtest :
  list (Z * R) -> obj -> list B -> obj -> result R.

(** The keyword [options] is not a field of [AnalyzerConfig]. *)
Lemma AnalyzerConfig_options_rejected options :
  AnalyzerConfig_new [("options"%string, KOptions options)] = inl TypeError.
Proof. reflexivity. Qed.

(** The sibling callers' constructor call is accepted. *)
Lemma AnalyzerConfig_from_options_accepted opts :
  exists cfg, AnalyzerConfig_from_options opts = inr cfg.
Proof. eexists. reflexivity. Qed.

(** [_run_on_slice] ends in an exception on every input: in the swing
    source's, or in the [TypeError] of the configuration call. *)
Lemma run_on_slice_raises bars_slice zigzag_pct options btkw :
  exists e,
    _run_on_slice B extract_swings detect_and_backtest
                  bars_slice zigzag_pct options btkw = inl e.
Proof.
  unfold _run_on_slice.
  destruct (extract_swings bars_slice zigzag_pct) as [e|swings]; simpl.
  - exists e. reflexivity.
  - exists TypeError. reflexivity.
Qed.

Lemma stability_loop_keeps ks :
  forall bars n seg min_bars zigzag_pct options btkw acc acc',
    stability_loop B extract_swings detect_and_backtest ks bars n seg
                   min_bars zigzag_pct options btkw acc = inr acc' ->
    acc' = acc.
Proof.
  induction ks as [|k rest IH];
    intros bars n seg min_bars zigzag_pct options btkw acc acc' H;
    simpl in H.
  - congruence.
  - destruct (Z.min n ((k + 1) * seg) - k * seg <? min_bars)%Z.
    + eapply IH. exact H.
    + destruct (run_on_slice_raises
                  (_slice_to_barseries bars (k * seg) (Z.min n ((k + 1) * seg)))
                  zigzag_pct options btkw) as [e He].
      rewrite He in H. discriminate H.
Qed.

(** No run of the stability path that returns has recorded a fold. *)
Lemma walk_forward_records_no_fold bars zigzag_pct options splits min_bars btkw res :
  walk_forward_metrics B extract_swings detect_and_backtest bars zigzag_pct
                       options splits min_bars btkw = inr res ->
  res = empty_result.
Proof.
  unfold walk_forward_metrics.
  destruct (Z.of_nat (length bars) <=? 0)%Z; [congruence|].
  destruct (int_div _ _) as [e|q]; simpl; [discriminate|].
  destruct (int_div _ _) as [e|q']; simpl; [discriminate|].
  destruct (stability_loop _ _ _ _ _ _ _ _ _ _ _ _) as [e|[[fr fs] fe]] eqn:Hloop;
    simpl; [discriminate|].
  apply stability_loop_keeps in Hloop. inversion Hloop; subst.
  congruence.
Qed.
End WalkForwardFacts.

(** C2 (the code departs from it): on 400 bars, 2 splits and a minimum
    of 200 bars per fold, with a swing source that answers, the
    stability path records no fold return at all; it ends in the
    [TypeError] raised when [_run_on_slice] builds its analyzer
    configuration, whatever the rest of the pipeline would do. *)
Theorem walk_forward_stability_raises :
  forall (detect_and_backtest :
            list (Z * R) -> WalkForward.obj -> list unit -> WalkForward.obj
            -> WalkForward.result R)
         (swings : list (Z * R)) (zigzag_pct : R)
         (options : WalkForward.WaveOptions) (btkw : WalkForward.obj),
    WalkForward.walk_forward_metrics
      unit (fun _ _ => inr swings) detect_and_backtest
      (repeat tt 400) zigzag_pct options 2 200 btkw
    = inl WalkForward.TypeError.
Proof. intros. reflexivity. Qed.

(** * Further properties of the pipeline *)

(** ** Sorting by decreasing key *)

Section SortDescFacts.
Context {A : Type} (key : A -> R).

Lemma insert_desc_perm x l : Permutation (insert_desc key x l) (x :: l).
Proof.
  induction l as [|y l IH]; simpl; [apply Permutation_refl|].
  destruct (Rlt_dec (key x) (key y)).
  - apply perm_trans with (y :: x :: l); [now apply perm_skip | apply perm_swap].
  - apply Permutation_refl.
Qed.

Lemma sort_desc_perm l : Permutation (sort_desc key l) l.
Proof.
  induction l as [|x l IH]; simpl; [constructor|].
  apply perm_trans with (x :: sort_desc key l);
    [apply insert_desc_perm | now apply perm_skip].
Qed.

Lemma insert_desc_sorted x l :
  StronglySorted (key_desc key) l ->
  StronglySorted (key_desc key) (insert_desc key x l).
Proof.
  induction 1 as [|y l Hs IH Hy]; simpl.
  - constructor; constructor.
  - destruct (Rlt_dec (key x) (key y)) as [Hlt|Hge].
    + constructor; [exact IH|].
      apply (Permutation_Forall (Permutation_sym (insert_desc_perm x l))).
      constructor; [unfold key_desc; lra | exact Hy].
    + constructor; [constructor; assumption|].
      constructor; [unfold key_desc; lra|].
      apply Forall_impl with (P := key_desc key y); [|exact Hy].
      unfold key_desc. intros z Hz. lra.
Qed.

Lemma sort_desc_sorted l : StronglySorted (key_desc key) (sort_desc key l).
Proof.
  induction l as [|x l IH]; simpl; [constructor|].
  apply insert_desc_sorted. exact IH.
Qed.

Lemma sort_desc_Forall (P : A -> Prop) l :
  Forall P l -> Forall P (sort_desc key l).
Proof.
  intros H. apply (Permutation_Forall (Permutation_sym (sort_desc_perm l))).
  exact H.
Qed.

Lemma sort_desc_In x l : In x (sort_desc key l) <-> In x l.
Proof.
  split; apply Permutation_in;
    [apply sort_desc_perm | apply Permutation_sym, sort_desc_perm].
Qed.
End SortDescFacts.

Section SortedFacts.
Context {A : Type} (Rel : A -> A -> Prop).

Lemma sorted_app_l l1 l2 :
  StronglySorted Rel (l1 ++ l2) -> StronglySorted Rel l1.
Proof.
  induction l1 as [|x l1 IH]; simpl; intros H; [constructor|].
  inversion H as [|? ? Hs Hx]; subst. constructor; [apply IH; exact Hs|].
  apply Forall_app in Hx. tauto.
Qed.

Lemma sorted_drop_middle l1 x l2 :
  StronglySorted Rel (l1 ++ x :: l2) -> StronglySorted Rel (l1 ++ l2).
Proof.
  induction l1 as [|y l1 IH]; simpl; intros H.
  - inversion H; assumption.
  - inversion H as [|? ? Hs Hy]; subst. constructor; [apply IH; exact Hs|].
    apply Forall_app in Hy as [H1 H2]. apply Forall_app. split; [exact H1|].
    inversion H2; assumption.
Qed.

Lemma sorted_firstn n l :
  StronglySorted Rel l -> StronglySorted Rel (firstn n l).
Proof.
  intros H. rewrite <- (firstn_skipn n l) in H.
  apply sorted_app_l in H. exact H.
Qed.
End SortedFacts.

Lemma py_prefix_firstn {A : Type} k (l : list A) :
  exists n, py_prefix k l = firstn n l.
Proof. unfold py_prefix. destruct (k <? 0)%Z; eexists; reflexivity. Qed.

Lemma py_prefix_Forall {A : Type} (P : A -> Prop) k (l : list A) :
  Forall P l -> Forall P (py_prefix k l).
Proof.
  intros H. destruct (py_prefix_firstn k l) as [n ->].
  rewrite <- (firstn_skipn n l) in H. apply Forall_app in H. tauto.
Qed.

Lemma py_prefix_sorted {A : Type} (Rel : A -> A -> Prop) k (l : list A) :
  StronglySorted Rel l -> StronglySorted Rel (py_prefix k l).
Proof.
  intros H. destruct (py_prefix_firstn k l) as [n ->].
  apply sorted_firstn. exact H.
Qed.

Lemma py_prefix_nonneg_length {A : Type} k (l : list A) :
  (0 <= k)%Z -> (Z.of_nat (length (py_prefix k l)) <= k)%Z.
Proof.
  intros Hk. unfold py_prefix.
  destruct (Z.ltb_spec k 0); [lia|]. rewrite length_firstn. lia.
Qed.

(** ** Span overlap *)

(** X1: the overlap ratio of two index spans lies between 0 and 1 and
    does not depend on the order of its arguments; it is 0 when one
    span ends where the other starts or earlier, and 1 for a span of
    positive length against itself. *)
Theorem overlap_ratio_range :
  forall a b : Z * Z,
    0 <= Pruner.overlap_ratio a b <= 1
    /\ Pruner.overlap_ratio a b = Pruner.overlap_ratio b a
    /\ ((snd a <= fst b)%Z -> Pruner.overlap_ratio a b = 0)
    /\ ((fst a < snd a)%Z -> Pruner.overlap_ratio a a = 1).
Proof.
  intros [a0 a1] [b0 b1]. split; [|split; [apply overlap_ratio_sym|split]].
  - unfold Pruner.overlap_ratio.
    destruct (Z.leb_spec (Z.max a1 b1 - Z.min a0 b0) 0) as [Hu|Hu]; [lra|].
    assert (0 < IZR (Z.max a1 b1 - Z.min a0 b0)) as Hpos by (apply IZR_lt; lia).
    assert (0 <= IZR (Z.max 0 (Z.min a1 b1 - Z.max a0 b0))) as Hi
        by (apply IZR_le; lia).
    assert (IZR (Z.max 0 (Z.min a1 b1 - Z.max a0 b0))
            <= IZR (Z.max a1 b1 - Z.min a0 b0)) as Hle by (apply IZR_le; lia).
    pose proof (Rinv_0_lt_compat _ Hpos) as Hinv.
    assert (IZR (Z.max a1 b1 - Z.min a0 b0) * / IZR (Z.max a1 b1 - Z.min a0 b0) = 1)
      as Hone by (apply Rinv_r; lra).
    unfold Rdiv. split; nra.
  - simpl. intros Hd. unfold Pruner.overlap_ratio.
    destruct (Z.max a1 b1 - Z.min a0 b0 <=? 0)%Z; [reflexivity|].
    replace (Z.max 0 (Z.min a1 b1 - Z.max a0 b0)) with 0%Z by lia.
    unfold Rdiv. lra.
  - simpl. intros Hlen. unfold Pruner.overlap_ratio.
    rewrite !Z.max_id, !Z.min_id.
    destruct (Z.leb_spec (a1 - a0) 0) as [Hu|Hu]; [lia|].
    replace (Z.max 0 (a1 - a0)) with (a1 - a0)%Z by lia.
    apply Rinv_r. apply not_0_IZR. lia.
Qed.

Lemma overlap_ratio_range_witness :
  Pruner.overlap_ratio (0, 10)%Z (10, 20)%Z = 0
  /\ Pruner.overlap_ratio (3, 8)%Z (3, 8)%Z = 1.
Proof.
  split.
  - apply (proj1 (proj2 (proj2 (overlap_ratio_range (0, 10)%Z (10, 20)%Z)))).
    simpl. lia.
  - apply (proj2 (proj2 (proj2 (overlap_ratio_range (3, 8)%Z (3, 8)%Z)))).
    simpl. lia.
Defined.

(** ** What non-maximum suppression keeps and drops *)

Section NMSMore.
Import Pruner.
Variable T : Type.
Variable span_fn : T -> Z * Z.
Variable score_fn : T -> R.
Variable overlap_thresh : R.
Variable max_keep : Z.

Local Abbreviation loop := (nms_loop T span_fn overlap_thresh max_keep).

Lemma nms_loop_prefix ordered :
  forall kept, exists more, loop ordered kept = kept ++ more.
Proof.
  induction ordered as [|it rest IH]; intros kept; simpl.
  - exists []. now rewrite app_nil_r.
  - destruct (suppressed T span_fn overlap_thresh (span_fn it) kept); [apply IH|].
    destruct (Z.of_nat (length (kept ++ [it])) >=? max_keep)%Z.
    + exists [it]. reflexivity.
    + destruct (IH (kept ++ [it])) as [more Hm].
      exists (it :: more). rewrite Hm, <- app_assoc. reflexivity.
Qed.

Lemma nms_loop_incl ordered :
  forall kept x, In x (loop ordered kept) -> In x kept \/ In x ordered.
Proof.
  induction ordered as [|it rest IH]; intros kept x Hx; simpl in Hx; [auto|].
  destruct (suppressed T span_fn overlap_thresh (span_fn it) kept).
  - destruct (IH _ _ Hx); [auto | right; right; assumption].
  - destruct (Z.of_nat (length (kept ++ [it])) >=? max_keep)%Z.
    + apply in_app_or in Hx as [H|[<-|[]]]; [auto | right; left; reflexivity].
    + destruct (IH _ _ Hx) as [H|H]; [|right; right; exact H].
      apply in_app_or in H as [H|[<-|[]]]; [auto | right; left; reflexivity].
Qed.

Lemma nms_loop_sorted (Rel : T -> T -> Prop) ordered :
  forall kept,
    StronglySorted Rel (kept ++ ordered) ->
    StronglySorted Rel (loop ordered kept).
Proof.
  induction ordered as [|it rest IH]; intros kept H; simpl.
  - now rewrite app_nil_r in H.
  - destruct (suppressed T span_fn overlap_thresh (span_fn it) kept).
    + apply IH. eapply sorted_drop_middle. exact H.
    + assert (StronglySorted Rel ((kept ++ [it]) ++ rest)) as H'
        by (rewrite <- app_assoc; exact H).
      destruct (Z.of_nat (length (kept ++ [it])) >=? max_keep)%Z.
      * eapply sorted_app_l. exact H'.
      * apply IH. exact H'.
Qed.

Lemma suppressed_true sp kept :
  suppressed T span_fn overlap_thresh sp kept = true ->
  exists kt, In kt kept /\ overlap_thresh <= overlap_ratio sp (span_fn kt).
Proof.
  unfold suppressed. intros H. apply existsb_exists in H as (kt & Hin & Hk).
  exists kt. split; [exact Hin|].
  destruct (Rle_dec overlap_thresh (overlap_ratio sp (span_fn kt)));
    [assumption | discriminate].
Qed.

(** An item that is dropped while the keep limit is not reached
    overlaps a kept item by at least the threshold. *)
Lemma nms_loop_complete ordered :
  forall kept,
    (Z.of_nat (length (loop ordered kept)) < max_keep)%Z ->
    forall it, In it ordered ->
      In it (loop ordered kept)
      \/ exists kt, In kt (loop ordered kept)
                    /\ overlap_thresh
                       <= overlap_ratio (span_fn it) (span_fn kt).
Proof.
  induction ordered as [|x rest IH]; intros kept Hlen it Hit; [destruct Hit|].
  simpl in *.
  destruct (suppressed T span_fn overlap_thresh (span_fn x) kept) eqn:Hs.
  - destruct Hit as [<-|Hit]; [|apply IH; assumption].
    right. apply suppressed_true in Hs as (kt & Hin & Hov).
    exists kt. split; [|exact Hov].
    destruct (nms_loop_prefix rest kept) as [more ->].
    apply in_or_app. left. exact Hin.
  - destruct (Z.geb_spec (Z.of_nat (length (kept ++ [x]))) max_keep) as [Hge|Hlt].
    + lia.
    + destruct Hit as [<-|Hit]; [|apply IH; assumption].
      left. destruct (nms_loop_prefix rest (kept ++ [x])) as [more ->].
      apply in_or_app. left. apply in_or_app. right. left. reflexivity.
Qed.

Lemma sorted_head_max (key : T -> R) x l :
  StronglySorted (key_desc key) (x :: l) ->
  forall y, In y (x :: l) -> key y <= key x.
Proof.
  intros H y [<-|Hy]; [lra|].
  inversion H as [|? ? _ Hx]; subst. rewrite Forall_forall in Hx.
  apply Hx. exact Hy.
Qed.
End NMSMore.

(** X2: [nms_by_span] returns input items only, in order of
    non-increasing score; and from a non-empty input it always keeps,
    in first place, an item whose score no input item exceeds. *)
Theorem nms_by_span_keeps_best :
  forall (T : Type) (span_fn : T -> Z * Z) (score_fn : T -> R)
         (overlap_thresh : R) (max_keep : Z) (items : list T),
    let out := Pruner.nms_by_span T span_fn score_fn overlap_thresh max_keep items in
    (forall x, In x out -> In x items)
    /\ StronglySorted (key_desc score_fn) out
    /\ (items <> [] ->
        exists top rest,
          out = top :: rest /\ In top items
          /\ forall y, In y items -> score_fn y <= score_fn top).
Proof.
  intros T span_fn score_fn overlap_thresh max_keep items out.
  unfold Pruner.nms_by_span in out.
  pose proof (sort_desc_sorted score_fn items) as Hsorted.
  split; [|split].
  - intros x Hx. apply nms_loop_incl in Hx as [[]|Hx].
    apply sort_desc_In in Hx. exact Hx.
  - apply nms_loop_sorted. exact Hsorted.
  - intros Hne. subst out.
    destruct (sort_desc score_fn items) as [|top ordered] eqn:Hs.
    + exfalso. apply Hne.
      apply Permutation_nil. rewrite <- Hs. apply sort_desc_perm.
    + assert (exists rest,
                 Pruner.nms_loop T span_fn overlap_thresh max_keep
                                 (top :: ordered) [] = top :: rest) as [rest Hrest].
      { simpl. destruct (_ >=? max_keep)%Z; [exists []; reflexivity|].
        destruct (nms_loop_prefix T span_fn overlap_thresh max_keep ordered [top])
          as [more ->]. exists more. reflexivity. }
      exists top, rest. split; [exact Hrest|]. split.
      * apply (sort_desc_In score_fn). rewrite Hs. left. reflexivity.
      * intros y Hy. apply (sorted_head_max T score_fn top ordered Hsorted).
        rewrite <- Hs. apply sort_desc_In. exact Hy.
Qed.

Lemma nms_by_span_keeps_best_witness :
  exists top rest,
    Pruner.nms_by_span (Z * Z) (fun sp => sp) (fun sp => IZR (snd sp)) 0.7 2
                       [(0, 10); (1, 10); (20, 30)]%Z = top :: rest
    /\ In top [(0, 10); (1, 10); (20, 30)]%Z.
Proof.
  destruct (proj2 (proj2 (nms_by_span_keeps_best
                            (Z * Z) (fun sp => sp) (fun sp => IZR (snd sp)) 0.7 2
                            [(0, 10); (1, 10); (20, 30)]%Z)))
    as (top & rest & Hout & Hin & _); [discriminate|].
  exists top, rest. split; assumption.
Defined.

(** X3: when [nms_by_span] returns fewer than [max_keep] items, every
    input item it left out overlaps some returned item by at least the
    threshold. *)
Theorem nms_by_span_drops_only_overlapping :
  forall (T : Type) (span_fn : T -> Z * Z) (score_fn : T -> R)
         (overlap_thresh : R) (max_keep : Z) (items : list T),
    let out := Pruner.nms_by_span T span_fn score_fn overlap_thresh max_keep items in
    (Z.of_nat (length out) < max_keep)%Z ->
    forall it, In it items ->
      In it out
      \/ exists kt, In kt out
                    /\ overlap_thresh
                       <= Pruner.overlap_ratio (span_fn it) (span_fn kt).
Proof.
  intros T span_fn score_fn overlap_thresh max_keep items out Hlen it Hit.
  apply nms_loop_complete; [exact Hlen|].
  apply sort_desc_In. exact Hit.
Qed.

Lemma nms_by_span_drops_only_overlapping_witness :
  let out := Pruner.nms_by_span (Z * Z) (fun sp => sp) (fun sp => IZR (snd sp))
                                0.7 5 [(0, 10)%Z; (1, 9)%Z] in
  out = [(0, 10)%Z]
  /\ exists kt, In kt out /\ 0.7 <= Pruner.overlap_ratio (1, 9)%Z kt.
Proof.
  intros out.
  assert (out = [(0, 10)%Z]) as Hout.
  { unfold out, Pruner.nms_by_span, sort_desc. simpl.
    destruct (Rlt_dec 10 9) as [H|_]; [lra|]. simpl.
    change (Z.max 0 8) with 8%Z. change (Z.max 9 10) with 10%Z.
    destruct (Rle_dec 0.7 (8 / 10)) as [_|H]; [reflexivity | lra]. }
  split; [exact Hout|].
  destruct (nms_by_span_drops_only_overlapping
              (Z * Z) (fun sp => sp) (fun sp => IZR (snd sp)) 0.7 5
              [(0, 10)%Z; (1, 9)%Z]) with (it := (1, 9)%Z) as [Hin|Hex].
  - fold out. rewrite Hout. simpl. lia.
  - right. left. reflexivity.
  - fold out in Hin. rewrite Hout in Hin.
    destruct Hin as [E|[]]. discriminate E.
  - exact Hex.
Defined.

(** ** The shape of the beam *)

Lemma drawn_snoc {T : Type} (layers : list (list T)) :
  forall prefix layer item,
    drawn layers prefix ->
    nth_error layers (length prefix) = Some layer ->
    In item layer ->
    drawn layers (prefix ++ [item]).
Proof.
  induction layers as [|l ls IH]; intros prefix layer item Hd Hn Hi.
  - destruct prefix; discriminate Hn.
  - destruct prefix as [|x prefix]; simpl in *.
    + inversion Hn; subst. split; [exact Hi | destruct ls; exact I].
    + destruct Hd as [Hx Hd]. split; [exact Hx|]. eapply IH; eassumption.
Qed.

Lemma drawn_length {T : Type} (layers : list (list T)) :
  forall cand, drawn layers cand -> (length cand <= length layers)%nat.
Proof.
  induction layers as [|l ls IH]; intros [|x cand] H; simpl in *.
  - lia.
  - destruct H.
  - lia.
  - destruct H as [_ H]. apply IH in H. lia.
Qed.

Section BeamShape.
Import Pruner.
Variable T : Type.
Variable score_fn : list T -> R.
Variable cfg : BeamConfig.
Variable full : list (list T).

Local Abbreviation at_level := (at_level T full).
Local Abbreviation carries_score := (carries_score T score_fn).
Local Abbreviation shaped := (shaped T score_fn full).

Lemma expand_prefix_shaped k prefix whole layer :
  length prefix = k -> drawn full prefix ->
  nth_error full k = Some whole ->
  (forall item, In item layer -> In item whole) ->
  forall st, shaped (S k) st ->
             shaped (S k) (expand_prefix T score_fn cfg prefix layer st).
Proof.
  intros Hk Hd Hn. induction layer as [|item rest IH]; intros Hin st Hst; simpl.
  - exact Hst.
  - assert (drawn full (prefix ++ [item])) as Hcand.
    { eapply drawn_snoc; [exact Hd | rewrite Hk; exact Hn | apply Hin; left; reflexivity]. }
    assert (shaped (S k)
              (mkLoop T (next_beam T st ++ [(prefix ++ [item], score_fn (prefix ++ [item]))])
                      (generated T st + 1) (scored T st ++ [prefix ++ [item]]))) as Hst'.
    { destruct Hst as [Hb Hl]. split; simpl.
      - apply Forall_app. split; [exact Hb|]. constructor; [|constructor].
        split; [|reflexivity]. split; [|exact Hcand].
        simpl. rewrite length_app. simpl. lia.
      - apply Forall_app. split; [exact Hl|]. constructor; [exact Hcand | constructor]. }
    destruct (_ >=? max_candidates cfg)%Z; [exact Hst'|].
    apply IH; [|exact Hst']. intros x Hx. apply Hin. right. exact Hx.
Qed.

Lemma expand_beam_shaped k layer beam :
  nth_error full k = Some layer ->
  Forall (at_level k) beam ->
  forall st, shaped (S k) st ->
             shaped (S k) (expand_beam T score_fn cfg beam layer st).
Proof.
  intros Hn. induction beam as [|[prefix sc] rest IH]; intros Hb st Hst; simpl.
  - exact Hst.
  - inversion Hb as [|? ? Hhd Hrest]; subst.
    destruct Hhd as [Hlen Hd]. simpl in Hlen, Hd.
    assert (shaped (S k) (expand_prefix T score_fn cfg prefix layer st)) as Hst'
      by (eapply expand_prefix_shaped; eauto).
    destruct (_ >=? max_candidates cfg)%Z; [exact Hst'|].
    apply IH; assumption.
Qed.

Lemma run_layers_shaped rest :
  forall done beam gen log,
    full = done ++ rest ->
    Forall (at_level (length done)) beam ->
    Forall (drawn full) log ->
    let '(beam', gen', log') := run_layers T score_fn cfg rest beam gen log in
    Forall (drawn full) log'
    /\ (exists k, (k <= length full)%nat
                  /\ Forall (at_level k) beam'
                  /\ ((gen' < max_candidates cfg)%Z -> k = length full))
    /\ (rest <> [] \/ Forall carries_score beam -> Forall carries_score beam').
Proof.
  induction rest as [|layer rest IH]; intros done beam gen log Hfull Hb Hl; simpl.
  - split; [exact Hl|]. split; [|intros [H|H]; [congruence | exact H]].
    rewrite app_nil_r in Hfull. subst done. exists (length full). auto.
  - assert (nth_error full (length done) = Some layer) as Hn.
    { rewrite Hfull, nth_error_app2 by lia. now rewrite Nat.sub_diag. }
    pose proof (expand_beam_shaped (length done) layer beam Hn Hb
                  (mkLoop T [] gen log)) as Hst.
    destruct Hst as [Hnb Hlog]; [split; [constructor | exact Hl]|].
    set (st := expand_beam T score_fn cfg beam layer (mkLoop T [] gen log)) in *.
    set (beam1 := py_prefix (Z.max 1 (beam_width cfg))
                            (sort_desc snd (next_beam T st))).
    assert (Forall (fun e => at_level (S (length done)) e /\ carries_score e) beam1)
      as Hb1 by (apply py_prefix_Forall, sort_desc_Forall; exact Hnb).
    assert (Forall (at_level (S (length done))) beam1) as Hlev
      by (refine (Forall_impl _ _ Hb1); intros e [H1 H2]; exact H1).
    assert (Forall carries_score beam1) as Hsc
      by (refine (Forall_impl _ _ Hb1); intros e [H1 H2]; exact H2).
    assert (S (length done) <= length full)%nat as Hle
      by (rewrite Hfull, length_app; simpl; lia).
    destruct (Z.geb_spec (generated T st) (max_candidates cfg)) as [Hge|Hlt].
    + split; [exact Hlog|]. split; [|intros _; exact Hsc].
      exists (S (length done)). split; [exact Hle|]. split; [exact Hlev | lia].
    + specialize (IH (done ++ [layer]) beam1 (generated T st) (scored T st)).
      rewrite length_app in IH. simpl in IH.
      replace (length done + 1)%nat with (S (length done)) in IH by lia.
      destruct (run_layers T score_fn cfg rest beam1 (generated T st) (scored T st))
        as [[beam' gen'] log'].
      destruct IH as (H1 & H2 & H3);
        [rewrite <- app_assoc; exact Hfull | exact Hlev | exact Hlog |].
      split; [exact H1|]. split; [exact H2|]. intros _.
      apply H3. right. exact Hsc.
Qed.
End BeamShape.

Lemma beam_search_run_shape (T : Type) (score_fn : list T -> R)
      (cfg : Pruner.BeamConfig) (layers : list (list T)) :
  let '(out, gen, log) := Pruner.beam_search_run T score_fn cfg layers in
  Forall (drawn layers) log
  /\ Forall (fun e => drawn layers (fst e)) out
  /\ (layers <> [] -> Forall (fun e => snd e = score_fn (fst e)) out)
  /\ StronglySorted (key_desc snd) out
  /\ (exists k, (k <= length layers)%nat
                /\ Forall (fun e => length (fst e) = k) out
                /\ ((gen < Pruner.max_candidates cfg)%Z -> k = length layers))
  /\ ((0 <= Pruner.max_patterns cfg)%Z ->
      (Z.of_nat (length out) <= Pruner.max_patterns cfg)%Z).
Proof.
  unfold Pruner.beam_search_run.
  pose proof (run_layers_shaped T score_fn cfg layers layers [] [([], 0)] 0%Z []
                                eq_refl) as H.
  destruct (Pruner.run_layers T score_fn cfg layers [([], 0)] 0 [])
    as [[beam gen] log].
  destruct H as (Hlog & (k & Hk & Hlev & Hfull) & Hsc).
  { constructor; [|constructor]. split; [reflexivity|]. simpl.
    destruct layers; exact I. }
  { constructor. }
  split; [exact Hlog|]. split; [|split; [|split; [|split]]].
  - apply py_prefix_Forall, sort_desc_Forall.
    refine (Forall_impl _ _ Hlev). intros e [_ He]. exact He.
  - intros Hne. apply py_prefix_Forall, sort_desc_Forall. apply Hsc. left. exact Hne.
  - apply py_prefix_sorted, sort_desc_sorted.
  - exists k. split; [exact Hk|]. split; [|exact Hfull].
    apply py_prefix_Forall, sort_desc_Forall.
    refine (Forall_impl _ _ Hlev). intros e [He _]. exact He.
  - apply py_prefix_nonneg_length.
Qed.

(** X4: every entry [beam_search] returns is a tuple that takes its
    i-th component from the i-th layer; with at least one layer each
    entry carries the score of its own tuple; the entries come by
    non-increasing score, all of one length, at most [max_patterns] of
    them when that is not negative; and when the run made fewer than
    [max_candidates] scoring calls every returned tuple is complete,
    one component per layer. *)
Theorem beam_search_returns_scored_tuples :
  forall (T : Type) (score_fn : list T -> R) (cfg : Pruner.BeamConfig)
         (layers : list (list T)),
    let out := Pruner.beam_search T score_fn cfg layers in
    Forall (fun e => drawn layers (fst e)) out
    /\ (layers <> [] -> Forall (fun e => snd e = score_fn (fst e)) out)
    /\ StronglySorted (key_desc snd) out
    /\ (exists k, (k <= length layers)%nat
                  /\ Forall (fun e => length (fst e) = k) out)
    /\ ((Pruner.evaluations T score_fn cfg layers < Pruner.max_candidates cfg)%Z ->
        Forall (fun e => length (fst e) = length layers) out)
    /\ ((0 <= Pruner.max_patterns cfg)%Z ->
        (Z.of_nat (length out) <= Pruner.max_patterns cfg)%Z).
Proof.
  intros T score_fn cfg layers out. subst out.
  unfold Pruner.beam_search, Pruner.evaluations.
  pose proof (beam_search_run_shape T score_fn cfg layers) as H.
  pose proof (run_layers_budget T score_fn cfg layers [([], 0)] 0%Z []) as Hb.
  unfold Pruner.beam_search_run in *.
  destruct (Pruner.run_layers T score_fn cfg layers [([], 0)] 0 [])
    as [[beam gen] log].
  simpl. destruct H as (_ & H1 & H2 & H3 & (k & Hk & Hlen & Hfull) & H5).
  split; [exact H1|]. split; [exact H2|]. split; [exact H3|].
  split; [exists k; auto|]. split; [|exact H5].
  intros Hev.
  assert (gen < Pruner.max_candidates cfg)%Z as Hgen.
  { destruct (Z.lt_ge_cases 0 (Pruner.max_candidates cfg)) as [Hpos|Hneg]; [|lia].
    destruct Hb as [Hb _]; [exact Hpos | reflexivity | lia]. }
  rewrite <- (Hfull Hgen). exact Hlen.
Qed.

Lemma beam_search_returns_scored_tuples_witness :
  Forall (fun e => snd e = (fun t : list Z => IZR (hd 0%Z t)) (fst e))
         (Pruner.beam_search Z (fun t => IZR (hd 0%Z t))
                             (Pruner.mkBeamConfig 2 10 50) [[0; 1]; [1; 2]]%Z)
  /\ (Z.of_nat (length (Pruner.beam_search Z (fun t => IZR (hd 0%Z t))
                                           (Pruner.mkBeamConfig 2 10 50)
                                           [[0; 1]; [1; 2]]%Z)) <= 50)%Z.
Proof.
  pose proof (beam_search_returns_scored_tuples
                Z (fun t => IZR (hd 0%Z t)) (Pruner.mkBeamConfig 2 10 50)
                [[0; 1]; [1; 2]]%Z) as H.
  cbv zeta in H. destruct H as (_ & Hsc & _ & _ & _ & Hn).
  split; [apply Hsc; discriminate | apply Hn; simpl; lia].
Defined.

(** ** Ranges of the closeness, the score and the confidence *)

Lemma exp_neg_range y : y < 0 -> 0 < exp y < 1.
Proof.
  intros Hy. split; [apply exp_pos|].
  rewrite <- exp_0. apply exp_increasing. exact Hy.
Qed.

Lemma within_cases x lo hi :
  (lo <= x <= hi /\ Scorer._within x lo hi = 1)
  \/ (~ (lo <= x <= hi) /\ 0 <= Scorer._within x lo hi < 1).
Proof.
  unfold Scorer._within.
  destruct (Rleb lo x) eqn:H1; [destruct (Rleb x hi) eqn:H2|].
  - left. apply Rleb_true in H1. apply Rleb_true in H2. simpl. split; [lra | reflexivity].
  - right. apply Rleb_true in H1. apply Rleb_false in H2. simpl.
    split; [lra|]. rewrite (proj2 (Rltb_false x lo)) by lra.
    destruct (Rltb 0 hi) eqn:Hh; [|lra].
    apply Rltb_true in Hh.
    assert (0 < (x - hi) / hi) by (apply Rdiv_lt_0_compat; lra).
    destruct (exp_neg_range (- ((x - hi) / hi) * 2)); lra.
  - right. apply Rleb_false in H1. simpl. split; [lra|].
    rewrite (proj2 (Rltb_true x lo)) by lra.
    destruct (Rltb 0 lo) eqn:Hl; [|lra].
    apply Rltb_true in Hl.
    assert (0 < (lo - x) / lo) by (apply Rdiv_lt_0_compat; lra).
    destruct (exp_neg_range (- ((lo - x) / lo) * 2)); lra.
Qed.

(** X5: the closeness [_within x lo hi] lies between 0 and 1, and it is
    1 exactly when [x] is inside the band [lo <= x <= hi]. *)
Theorem within_unit_range :
  forall x lo hi : R,
    0 <= Scorer._within x lo hi <= 1
    /\ (Scorer._within x lo hi = 1 <-> lo <= x <= hi).
Proof.
  intros x lo hi.
  destruct (within_cases x lo hi) as [[Hin Hw]|[Hout Hw]].
  - rewrite Hw. split; [lra|]. split; [intros _; exact Hin | reflexivity].
  - split; [lra|]. split; [intros E; lra | intros Hin; contradiction].
Qed.

Lemma within_bounds x lo hi : 0 <= Scorer._within x lo hi <= 1.
Proof. destruct (within_cases x lo hi) as [[_ ->]|[_ H]]; lra. Qed.

Lemma py_min_le x xs : Scorer.py_min x xs <= x /\ Forall (fun y => Scorer.py_min x xs <= y) xs.
Proof.
  unfold Scorer.py_min. revert x.
  induction xs as [|y xs IH]; intros x; simpl; [split; [lra | constructor]|].
  destruct (IH (Rmin x y)) as [H1 H2].
  pose proof (Rmin_l x y). pose proof (Rmin_r x y).
  split; [lra|]. constructor; [lra | exact H2].
Qed.

Section ScoreRange.
Import Model Scorer.

Lemma score_impulse_bounds p :
  -3.5 <= score_impulse p default_ScoreConfig <= 7.
Proof.
  unfold score_impulse.
  destruct (map _ (legs p)) as [|w1 [|w2 [|w3 [|w4 [|w5 [|w6 ws]]]]]]; try lra.
  destruct (Rleb _ 0); [lra|].
  cbn [default_ScoreConfig fib_w2 fib_w3 fib_w4 overlap_penalty
       extreme_penalty fst snd].
  pose proof (within_bounds (w2 / w1) 0.236 0.786).
  pose proof (within_bounds (w3 / w1) 1 2.618).
  pose proof (within_bounds (if Rltb 0 w3 then w4 / w3 else 0) 0.236 0.786).
  set (span := IZR (pattern_end_idx p - pattern_start_idx p) / 500).
  assert (0 <= Rmin (Rmax span 0) 0.5 <= 0.5) as Hspan.
  { pose proof (Rmax_r span 0). pose proof (Rmin_r (Rmax span 0) 0.5).
    unfold Rmin in *. destruct (Rle_dec (Rmax span 0) 0.5); lra. }
  destruct (Rltb (Rmin w1 w5) w3);
    destruct (w4_overlap (meta p)) as [[|]|];
    destruct (Rltb 0 _ && Rltb 10 _); lra.
Qed.

Lemma confidence_range s : 0 < confidence_from_score s < 1.
Proof.
  unfold confidence_from_score.
  pose proof (exp_pos (- (s - 2.5))) as He.
  assert (0 < / (1 + exp (- (s - 2.5)))) by (apply Rinv_0_lt_compat; lra).
  assert ((1 + exp (- (s - 2.5))) * / (1 + exp (- (s - 2.5))) = 1)
    by (apply Rinv_r; lra).
  unfold Rdiv. split; nra.
Qed.
End ScoreRange.

(** X6: under the default configuration the score of any pattern lies
    between -3.5 and 7, and the confidence of such a score is computed
    without overflow and lies strictly between 0 and 1. *)
Theorem score_and_confidence_ranges :
  forall p : Model.WavePattern,
    let sc := Scorer.score_impulse p Scorer.default_ScoreConfig in
    -3.5 <= sc <= 7
    /\ exists c, Scorer.confidence_from_score_exn sc = Some c /\ 0 < c < 1.
Proof.
  intros p sc. pose proof (score_impulse_bounds p) as Hsc. fold sc in Hsc.
  split; [exact Hsc|].
  exists (Scorer.confidence_from_score sc). split.
  - apply confidence_exn_returns. unfold exp_max. lra.
  - apply confidence_range.
Qed.

(** X7: the confidence is 1/2 at a score of 2.5 and exceeds 1/2 exactly
    for the scores above 2.5. *)
Theorem confidence_midpoint :
  Scorer.confidence_from_score 2.5 = 1 / 2
  /\ (forall s : R, 1 / 2 < Scorer.confidence_from_score s <-> 2.5 < s).
Proof.
  assert (Scorer.confidence_from_score 2.5 = 1 / 2) as Hmid.
  { unfold Scorer.confidence_from_score.
    replace (- (2.5 - 2.5)) with 0 by lra. rewrite exp_0. lra. }
  split; [exact Hmid|]. intros s. rewrite <- Hmid.
  rewrite !confidence_is_logistic. split.
  - intros H. destruct (Rlt_le_dec 2.5 s) as [Hlt|Hle]; [exact Hlt|].
    exfalso. destruct Hle as [Hlt|Heq].
    + pose proof (logistic_increasing (s - 2.5) (2.5 - 2.5)). lra.
    + subst s. lra.
  - intros H. apply logistic_increasing. lra.
Qed.

(** X8: [score_impulse] is 0, under any configuration, for a pattern
    that does not have exactly five legs and for one with a leg whose
    end price equals its start price. *)
Theorem score_impulse_degenerate :
  forall (p : Model.WavePattern) (cfg : Scorer.ScoreConfig),
    length (Model.legs p) <> 5%nat
    \/ (exists l, In l (Model.legs p) /\ Model.end_px l = Model.start_px l) ->
    Scorer.score_impulse p cfg = 0.
Proof.
  intros p cfg H. unfold Scorer.score_impulse.
  destruct (Model.legs p) as [|l1 [|l2 [|l3 [|l4 [|l5 [|l6 ls]]]]]];
    try reflexivity.
  destruct H as [H|(l & Hin & Hflat)]; [simpl in H; congruence|].
  cbn [map].
  set (m1 := Rabs _). set (m2 := Rabs _). set (m3 := Rabs _).
  set (m4 := Rabs _). set (m5 := Rabs _).
  assert (Scorer.py_min m1 [m2; m3; m4; m5] <= 0) as Hmin.
  { destruct (py_min_le m1 [m2; m3; m4; m5]) as [H1 Hall].
    rewrite Forall_forall in Hall.
    assert (Rabs (Model.end_px l - Model.start_px l) = 0) as Hz
      by (rewrite Hflat, Rminus_diag; apply Rabs_R0).
    destruct Hin as [<-|[<-|[<-|[<-|[<-|[]]]]]].
    - fold m1 in Hz. lra.
    - fold m2 in Hz. rewrite <- Hz. apply Hall. simpl. auto.
    - fold m3 in Hz. rewrite <- Hz. apply Hall. simpl. auto.
    - fold m4 in Hz. rewrite <- Hz. apply Hall. simpl. auto.
    - fold m5 in Hz. rewrite <- Hz. apply Hall. simpl. auto. }
  rewrite (proj2 (Rleb_true _ _) Hmin). reflexivity.
Qed.

Lemma score_impulse_degenerate_witness :
  Scorer.score_impulse
    (Model.mkWavePattern "impulse_1_5" [Model.mkWaveLeg 0 1 100 110]
                         Model.empty_meta)
    Scorer.default_ScoreConfig = 0.
Proof.
  apply score_impulse_degenerate. left. simpl. discriminate.
Defined.

(** ** Bar lookup, empty runs and compounding in the simulator *)

(** X9: on a non-empty series [_close_at] always finds a close: the
    one at the index itself when it is in range, the first for a
    negative index and the last for an index past the end; on an empty
    series it finds none. *)
Theorem close_at_clamps :
  forall (closes : list R) (idx : Z),
    let n := Z.of_nat (length closes) in
    (closes = [] -> Backtest._close_at closes idx = None)
    /\ (closes <> [] ->
        Backtest._close_at closes idx
        = nth_error closes (Z.to_nat (Z.max 0 (Z.min idx (n - 1))))
        /\ exists v, Backtest._close_at closes idx = Some v).
Proof.
  intros closes idx n. subst n. split.
  - intros ->. unfold Backtest._close_at. cbn [length Z.of_nat].
    destruct (Z.ltb_spec idx 0) as [Hneg|Hpos]; [reflexivity|].
    destruct (Z.geb_spec idx 0) as [Hge|Hlt]; [reflexivity | lia].
  - intros Hne.
    assert (0 < Z.of_nat (length closes))%Z as Hn
      by (destruct closes; [congruence | simpl; lia]).
    assert (Backtest._close_at closes idx
            = nth_error closes (Z.to_nat (Z.max 0 (Z.min idx (Z.of_nat (length closes) - 1)))))
      as Heq.
    { unfold Backtest._close_at.
      destruct (Z.ltb_spec idx 0) as [Hneg|Hpos].
      - destruct (Z.geb_spec 0 (Z.of_nat (length closes))); [lia|].
        replace (Z.max 0 (Z.min idx (Z.of_nat (length closes) - 1))) with 0%Z by lia.
        reflexivity.
      - destruct (Z.geb_spec idx (Z.of_nat (length closes))) as [Hbig|Hin].
        + destruct (Z.ltb_spec (Z.of_nat (length closes) - 1) 0); [lia|].
          f_equal. lia.
        + destruct (Z.ltb_spec idx 0); [lia|]. f_equal. lia. }
    split; [exact Heq|]. rewrite Heq.
    destruct (nth_error closes _) as [v|] eqn:Hv; [exists v; reflexivity|].
    apply nth_error_None in Hv. lia.
Qed.

Lemma close_at_clamps_witness :
  Backtest._close_at [1; 2; 3] 7 = nth_error [1; 2; 3] 2.
Proof.
  apply (proj2 (close_at_clamps [1; 2; 3] 7)). discriminate.
Defined.

Section BacktestMore.
Import Model Backtest.
Variables initial_cash risk_fraction min_confidence : R.
Variable bars : option (list R).
Variable entry_mode : string.
Variables fee_bps slippage_bps : R.

Local Abbreviation skip := (skipb min_confidence bars entry_mode).
Local Abbreviation run :=
  (run_from risk_fraction min_confidence bars entry_mode fee_bps slippage_bps).
Local Abbreviation simulate :=
  (backtest_patterns initial_cash risk_fraction min_confidence bars
                     entry_mode fee_bps slippage_bps).

Lemma run_all_skipped patterns :
  Forall (fun p => skip p = true) patterns ->
  forall i st, run i patterns st = st.
Proof.
  induction 1 as [|p rest Hp _ IH]; intros i st; simpl; [reflexivity|].
  rewrite Hp. apply IH.
Qed.

(** Every field of the report, read off the final loop variables. *)
Lemma backtest_patterns_report patterns :
  let st := run 0 patterns (init_state initial_cash) in
  exists rep,
    simulate patterns = Some (st_trades st, rep)
    /\ final_equity rep = st_equity st
    /\ equity_curve rep = st_curve st
    /\ Backtest.wins rep = st_wins st
    /\ winrate rep = match st_trades st with
                     | [] => 0
                     | _ :: _ => IZR (st_wins st) / INR (length (st_trades st))
                     end
    /\ total_ret rep = (if Rltb 0 initial_cash
                        then (st_equity st - initial_cash) / initial_cash
                        else 0)
    /\ _dd_from_curve (st_curve st) = Some (max_drawdown rep)
    /\ avg_ret rep = match st_rets st with
                     | [] => 0
                     | _ :: _ => py_sum (st_rets st) / INR (length (st_rets st))
                     end
    /\ expectancy rep = avg_ret rep
    /\ Backtest.trades rep = Z.of_nat (length (st_trades st))
    /\ ((length (st_rets st) < 2)%nat -> sharpe_like rep = Fin 0)
    /\ guarded_ratio (st_gross_wins st) (st_gross_losses st)
       = Some (profit_factor rep).
Proof.
  intros st. unfold backtest_patterns.
  rewrite bt_loop_spec. fold st. cbn [obind].
  assert ((if Rltb 0 initial_cash
           then fdiv (st_equity st - initial_cash) initial_cash
           else Some 0)
          = Some (if Rltb 0 initial_cash
                  then (st_equity st - initial_cash) / initial_cash
                  else 0)) as E1.
  { destruct (Rltb 0 initial_cash) eqn:H; [|reflexivity].
    apply Rltb_true in H. now rewrite fdiv_some by lra. }
  rewrite E1. cbn [obind].
  assert (match st_rets st with
          | [] => Some 0
          | _ :: _ => fdiv (py_sum (st_rets st)) (INR (length (st_rets st)))
          end
          = Some (match st_rets st with
                  | [] => 0
                  | _ :: _ => py_sum (st_rets st) / INR (length (st_rets st))
                  end)) as E2.
  { destruct (st_rets st) as [|r rs]; [reflexivity|].
    rewrite fdiv_some; [reflexivity|]. apply not_0_INR. simpl. discriminate. }
  rewrite E2. cbn [obind].
  assert (match st_trades st with
          | [] => Some 0
          | _ :: _ => fdiv (IZR (st_wins st)) (INR (length (st_trades st)))
          end
          = Some (match st_trades st with
                  | [] => 0
                  | _ :: _ => IZR (st_wins st) / INR (length (st_trades st))
                  end)) as E3.
  { destruct (st_trades st) as [|t ts]; [reflexivity|].
    rewrite fdiv_some; [reflexivity|]. apply not_0_INR. simpl. discriminate. }
  rewrite E3. cbn [obind].
  assert (exists v, _dd_from_curve (st_curve st) = Some v) as [v4 E4].
  { unfold _dd_from_curve. destruct (st_curve st); [eexists; reflexivity|].
    apply dd_loop_total. }
  rewrite E4. cbn [obind].
  rewrite (guarded_ratio_cases (st_gross_wins st)). cbn [obind].
  set (mu := match st_rets st with
             | [] => 0
             | _ :: _ => py_sum (st_rets st) / INR (length (st_rets st))
             end).
  destruct (2 <=? length (st_rets st))%nat eqn:Hn.
  - apply Nat.leb_le in Hn. rewrite fdiv_some by (apply not_0_IZR; lia).
    cbn [obind]. rewrite guarded_ratio_cases. cbn [obind].
    eexists. split; [reflexivity|]. cbn.
    repeat (split; [reflexivity|]). split; [intros; lia | reflexivity].
  - cbn [obind]. eexists. split; [reflexivity|]. cbn.
    repeat (split; [reflexivity|]). split; reflexivity.
Qed.

Lemma growth_snoc ts t :
  growth risk_fraction (ts ++ [t])
  = growth risk_fraction ts * (1 + risk_fraction * ret t).
Proof. unfold growth. rewrite fold_left_app. reflexivity. Qed.

Lemma run_compounds patterns :
  forall i st,
    st_equity st = initial_cash * growth risk_fraction (st_trades st) ->
    st_equity (run i patterns st)
    = initial_cash * growth risk_fraction (st_trades (run i patterns st)).
Proof.
  induction patterns as [|p rest IH]; intros i st H; simpl; [exact H|].
  apply IH. destruct (skip p); [exact H|].
  unfold traded, record_trade. cbn [st_equity st_trades].
  rewrite growth_snoc. cbn [ret]. rewrite H. ring.
Qed.

Lemma run_counts_wins patterns :
  forall i st,
    st_wins st = Z.of_nat (length (filter (fun t => Rltb 0 (ret t)) (st_trades st))) ->
    st_wins (run i patterns st)
    = Z.of_nat (length (filter (fun t => Rltb 0 (ret t))
                               (st_trades (run i patterns st)))).
Proof.
  induction patterns as [|p rest IH]; intros i st H; simpl; [exact H|].
  apply IH. destruct (skip p); [exact H|].
  unfold traded, record_trade. cbn [st_wins st_trades].
  rewrite filter_app, length_app. cbn [filter ret].
  destruct (Rltb 0 _); simpl; lia.
Qed.
End BacktestMore.

(** X10: when every pattern is passed over (so also on an empty list)
    the simulator returns no trade and a report that rests at the
    start: final equity equal to [initial_cash], a one-point curve, no
    trades or wins, and zero win rate, returns, drawdown, profit factor
    and Sharpe-like ratio. *)
Theorem backtest_nothing_qualifies :
  forall (initial_cash risk_fraction min_confidence : R)
         (bars : option (list R)) (entry_mode : string)
         (fee_bps slippage_bps : R) (patterns : list Model.WavePattern),
    Forall (skipped min_confidence bars entry_mode) patterns ->
    Backtest.backtest_patterns initial_cash risk_fraction min_confidence
                               bars entry_mode fee_bps slippage_bps patterns
    = Some ([], Backtest.mkBacktestReport initial_cash initial_cash 0 0 0 0 0 0
                                          [initial_cash] (Fin 0) 0 (Fin 0)).
Proof.
  intros initial_cash risk_fraction min_confidence bars entry_mode
         fee_bps slippage_bps patterns Hall.
  assert (Forall (fun p => skipb min_confidence bars entry_mode p = true) patterns)
    as Hall' by (refine (Forall_impl _ _ Hall); intros p Hp; apply skipb_true; exact Hp).
  unfold Backtest.backtest_patterns.
  rewrite bt_loop_spec, (run_all_skipped _ _ _ _ _ _ _ Hall').
  cbn [obind Backtest.init_state Backtest.st_equity Backtest.st_rets
       Backtest.st_trades Backtest.st_curve Backtest.st_wins
       Backtest.st_gross_wins Backtest.st_gross_losses length Nat.leb].
  assert ((if Rltb 0 initial_cash
           then fdiv (initial_cash - initial_cash) initial_cash
           else Some 0) = Some 0) as E1.
  { destruct (Rltb 0 initial_cash) eqn:H; [|reflexivity].
    apply Rltb_true in H. rewrite fdiv_some by lra. f_equal.
    unfold Rdiv. rewrite Rminus_diag. ring. }
  rewrite E1. cbn [obind].
  assert (Backtest._dd_from_curve [initial_cash] = Some 0) as E2.
  { unfold Backtest._dd_from_curve, Backtest.dd_loop.
    rewrite (proj2 (Rltb_false initial_cash initial_cash)) by lra.
    destruct (Rltb 0 initial_cash) eqn:H.
    - apply Rltb_true in H. rewrite fdiv_some by lra. cbn [obind].
      replace ((initial_cash - initial_cash) / initial_cash) with 0
        by (unfold Rdiv; rewrite Rminus_diag; ring).
      rewrite (proj2 (Rltb_false 0 0)) by lra. reflexivity.
    - cbn [obind]. rewrite (proj2 (Rltb_false 0 0)) by lra. reflexivity. }
  rewrite E2. cbn [obind].
  rewrite guarded_ratio_cases.
  rewrite (proj2 (Rltb_false 1e-12 0)) by lra.
  rewrite (proj2 (Rltb_false 0 0)) by lra.
  reflexivity.
Qed.

Lemma backtest_nothing_qualifies_witness :
  Backtest.backtest_patterns 10000 1 0.5 None "pattern" 10 5
                             [low_confidence_pattern]
  = Some ([], Backtest.mkBacktestReport 10000 10000 0 0 0 0 0 0
                                        [10000] (Fin 0) 0 (Fin 0)).
Proof.
  apply backtest_nothing_qualifies.
  constructor; [|constructor].
  left. unfold Backtest.conf_of. simpl. lra.
Defined.




(** ** Maximum drawdown *)

Lemma decline_mono p q y :
  0 < p -> p <= q -> 0 < y -> (p - y) / p <= (q - y) / q.
Proof.
  intros Hp Hpq Hy.
  replace ((p - y) / p) with (1 - y * / p) by (field; lra).
  replace ((q - y) / q) with (1 - y * / q) by (field; lra).
  assert (/ q <= / p) by (apply Rinv_le_contravar; lra).
  nra.
Qed.

Lemma decline_range p y : 0 < y -> y <= p -> 0 <= (p - y) / p < 1.
Proof.
  intros Hy Hyp.
  replace ((p - y) / p) with (1 - y * / p) by (field; lra).
  assert (0 < / p) by (apply Rinv_0_lt_compat; lra).
  assert (p * / p = 1) by (apply Rinv_r; lra).
  split; nra.
Qed.

Lemma dd_loop_bound curve :
  forall peak mdd,
    0 < peak -> Forall (fun y => 0 < y) curve -> 0 <= mdd < 1 ->
    exists r,
      Backtest.dd_loop curve peak mdd = Some r
      /\ mdd <= r < 1
      /\ Forall (fun y => (peak - y) / peak <= r) curve
      /\ ForallOrdPairs (fun a b => (a - b) / a <= r) curve.
Proof.
  induction curve as [|x rest IH]; intros peak mdd Hpeak Hpos Hmdd.
  - exists mdd. simpl. repeat split; try lra; constructor.
  - inversion Hpos as [|? ? Hx Hrest]; subst. simpl.
    set (peak' := if Rltb peak x then x else peak).
    assert (peak <= peak' /\ x <= peak') as [Hp1 Hp2].
    { subst peak'. destruct (Rltb peak x) eqn:E;
        [apply Rltb_true in E | apply Rltb_false in E]; lra. }
    rewrite (proj2 (Rltb_true 0 peak')) by lra.
    rewrite fdiv_some by lra. cbn [obind].
    pose proof (decline_range peak' x Hx Hp2) as Hdd.
    set (mdd' := if Rltb mdd ((peak' - x) / peak') then (peak' - x) / peak' else mdd).
    assert (mdd <= mdd' /\ (peak' - x) / peak' <= mdd' /\ 0 <= mdd' < 1)
      as (Hm1 & Hm2 & Hm3).
    { subst mdd'. destruct (Rltb mdd _) eqn:E;
        [apply Rltb_true in E | apply Rltb_false in E]; lra. }
    destruct (IH peak' mdd') as (r & Hr & Hrange & Hall & Hpairs); try lra;
      [exact Hrest|].
    exists r. split; [exact Hr|]. split; [lra|]. split.
    + constructor.
      * pose proof (decline_mono peak peak' x Hpeak Hp1 Hx). lra.
      * rewrite Forall_forall in *. intros y Hy.
        pose proof (decline_mono peak peak' y Hpeak Hp1 (Hrest y Hy)).
        specialize (Hall y Hy). simpl in Hall. lra.
    + constructor; [|exact Hpairs].
      rewrite Forall_forall in *. intros y Hy.
      pose proof (decline_mono x peak' y Hx Hp2 (Hrest y Hy)).
      specialize (Hall y Hy). simpl in Hall. lra.
Qed.

Lemma dd_loop_never_falling curve :
  forall peak,
    StronglySorted Rle (peak :: curve) ->
    Backtest.dd_loop curve peak 0 = Some 0.
Proof.
  induction curve as [|x rest IH]; intros peak Hs; [reflexivity|].
  inversion Hs as [|? ? Hrest Hpeak]; subst.
  inversion Hpeak as [|? ? Hpx _]; subst. simpl.
  assert ((if Rltb peak x then x else peak) = x) as ->.
  { destruct (Rltb peak x) eqn:E; [reflexivity|]. apply Rltb_false in E. lra. }
  assert ((if Rltb 0 x then fdiv (x - x) x else Some 0) = Some 0) as ->.
  { destruct (Rltb 0 x) eqn:E; [|reflexivity]. apply Rltb_true in E.
    rewrite fdiv_some by lra. f_equal. unfold Rdiv. rewrite Rminus_diag. ring. }
  cbn [obind]. rewrite (proj2 (Rltb_false 0 0)) by lra.
  apply IH. exact Hrest.
Qed.

(** X13: on a curve of positive values the maximum drawdown is at least
    0 and below 1, and no later point lies below an earlier one by a
    larger fraction of the earlier one. *)
Theorem max_drawdown_bounds_declines :
  forall curve : list R,
    Forall (fun y => 0 < y) curve ->
    exists mdd,
      Backtest._dd_from_curve curve = Some mdd
      /\ 0 <= mdd < 1
      /\ forall i j ci cj,
          (i <= j)%nat ->
          nth_error curve i = Some ci -> nth_error curve j = Some cj ->
          (ci - cj) / ci <= mdd.
Proof.
  intros curve Hpos. unfold Backtest._dd_from_curve.
  destruct curve as [|c0 rest].
  - exists 0. split; [reflexivity|]. split; [lra|].
    intros [|i] j ci cj _ Hi; discriminate Hi.
  - assert (0 < c0) as Hc0 by (inversion Hpos; assumption).
    destruct (dd_loop_bound (c0 :: rest) c0 0 Hc0 Hpos)
      as (r & Hr & Hrange & _ & Hpairs); [lra|].
    exists r. split; [exact Hr|]. split; [lra|].
    intros i j ci cj Hij Hi Hj.
    destruct (Nat.eq_dec i j) as [->|Hne].
    + rewrite Hi in Hj. inversion Hj; subst.
      unfold Rdiv. rewrite Rminus_diag. lra.
    + apply (FOP_nth _ _ Hpairs i j ci cj); [lia | exact Hi | exact Hj].
Qed.

Lemma max_drawdown_bounds_declines_witness :
  exists mdd,
    Backtest._dd_from_curve [100; 120; 90] = Some mdd
    /\ (120 - 90) / 120 <= mdd.
Proof.
  destruct (max_drawdown_bounds_declines [100; 120; 90]) as (mdd & Hm & _ & Hb).
  - repeat constructor; lra.
  - exists mdd. split; [exact Hm|].
    apply (Hb 1%nat 2%nat 120 90); [lia | reflexivity | reflexivity].
Defined.

(** X14: a curve that never falls has a maximum drawdown of 0, whatever
    the sign of its values. *)
Theorem max_drawdown_zero_when_never_falling :
  forall curve : list R,
    StronglySorted Rle curve ->
    Backtest._dd_from_curve curve = Some 0.
Proof.
  intros curve Hs. unfold Backtest._dd_from_curve.
  destruct curve as [|c0 rest]; [reflexivity|].
  apply dd_loop_never_falling.
  constructor; [exact Hs|]. constructor; [lra|].
  inversion Hs; assumption.
Qed.

Lemma max_drawdown_zero_when_never_falling_witness :
  Backtest._dd_from_curve [-5; 0; 3; 3; 8] = Some 0.
Proof.
  apply max_drawdown_zero_when_never_falling.
  repeat (constructor; [|repeat (constructor; try lra)]). constructor.
Defined.

(** ** Entry prices without bars *)

Section PriceFallback.
Import Model Backtest.

Lemma resolve_prices_fallback bars entry_mode l0 lN :
  String.eqb entry_mode "bar" = false \/ bars = None \/ bars = Some [] ->
  resolve_prices bars entry_mode l0 lN = (start_px l0, end_px lN).
Proof.
  unfold resolve_prices. intros [H|[H|H]].
  - rewrite H. reflexivity.
  - subst. destruct (String.eqb entry_mode "bar"); reflexivity.
  - subst. destruct (String.eqb entry_mode "bar"); [|reflexivity].
    unfold _close_at. cbn [length Z.of_nat].
    destruct (start_idx l0 <? 0)%Z; [reflexivity|].
    destruct (start_idx l0 >=? 0)%Z; [reflexivity|].
    destruct (start_idx l0 <? 0)%Z; [reflexivity|].
    destruct (Z.to_nat (start_idx l0)); reflexivity.
Qed.

Lemma bt_step_fallback rf mc bars entry_mode fee slip :
  String.eqb entry_mode "bar" = false \/ bars = None \/ bars = Some [] ->
  forall i p st,
    bt_step rf mc bars entry_mode fee slip i p st
    = bt_step rf mc None "pattern" fee slip i p st.
Proof.
  intros H i p st. unfold bt_step.
  destruct (Rltb (conf_of p) mc); [reflexivity|].
  destruct (Z.of_nat (length (legs p)) <? 5)%Z; [reflexivity|].
  destruct (legs p) as [|l0 ls]; [reflexivity|].
  rewrite (resolve_prices_fallback bars entry_mode l0 (last ls l0) H).
  reflexivity.
Qed.

Lemma bt_loop_fallback rf mc bars entry_mode fee slip :
  String.eqb entry_mode "bar" = false \/ bars = None \/ bars = Some [] ->
  forall patterns i st,
    bt_loop rf mc bars entry_mode fee slip i patterns st
    = bt_loop rf mc None "pattern" fee slip i patterns st.
Proof.
  intros H patterns. induction patterns as [|p rest IH]; intros i st; simpl;
    [reflexivity|].
  rewrite (bt_step_fallback rf mc bars entry_mode fee slip H).
  destruct (bt_step rf mc None "pattern" fee slip i p st); simpl;
    [apply IH | reflexivity].
Qed.
End PriceFallback.

(** X15: the bar series matters only in entry mode ["bar"] and only
    when it holds bars: in any other mode, without a series, or with an
    empty one, the simulator gives the result of mode ["pattern"], which
    trades at the leg prices. *)
Theorem backtest_falls_back_to_leg_prices :
  forall (initial_cash risk_fraction min_confidence : R)
         (bars : option (list R)) (entry_mode : string)
         (fee_bps slippage_bps : R) (patterns : list Model.WavePattern),
    entry_mode <> "bar"%string \/ bars = None \/ bars = Some [] ->
    Backtest.backtest_patterns initial_cash risk_fraction min_confidence
                               bars entry_mode fee_bps slippage_bps patterns
    = Backtest.backtest_patterns initial_cash risk_fraction min_confidence
                                 None "pattern" fee_bps slippage_bps patterns.
Proof.
  intros initial_cash risk_fraction min_confidence bars entry_mode
         fee_bps slippage_bps patterns H.
  assert (String.eqb entry_mode "bar" = false \/ bars = None \/ bars = Some [])
    as H' by (destruct H as [H|H]; [left; apply String.eqb_neq; exact H | right; exact H]).
  unfold Backtest.backtest_patterns.
  rewrite (bt_loop_fallback risk_fraction min_confidence bars entry_mode
                            fee_bps slippage_bps H').
  reflexivity.
Qed.

Lemma backtest_falls_back_to_leg_prices_witness :
  Backtest.backtest_patterns 10000 1 0 (Some []) "bar" 10 5 [doubling_pattern]
  = Backtest.backtest_patterns 10000 1 0 None "pattern" 10 5 [doubling_pattern].
Proof.
  apply backtest_falls_back_to_leg_prices. right. right. reflexivity.
Defined.

(** ** Walk-forward score and short series *)

Lemma logistic_shape_range y : 0 < 1 / (1 + exp y) < 1.
Proof.
  pose proof (exp_pos y) as He.
  assert (0 < / (1 + exp y)) by (apply Rinv_0_lt_compat; lra).
  assert ((1 + exp y) * / (1 + exp y) = 1) by (apply Rinv_r; lra).
  unfold Rdiv. split; nra.
Qed.

(** X16: the walk-forward robustness score [_score] raises
    [OverflowError] exactly when one of its two exponents,
    [-3.0 * (pos_frac - 0.5)] and [-1.5 * ret_mu / max(ret_sd, 1e-9)],
    exceeds 709.782712893384, the first being tried first; otherwise
    it returns a value strictly between 0 and 1. *)
Theorem wf_score_unit_range :
  forall pos_frac ret_mu ret_sd : R,
    let x1 := - 3.0 * (pos_frac - 0.5) in
    let x2 := - 1.5 * (ret_mu / Rmax ret_sd 1e-9) in
    (x1 <= 709.782712893384 -> x2 <= 709.782712893384 ->
     exists sc,
       WalkForward._score pos_frac ret_mu ret_sd = inr sc /\ 0 < sc < 1)
    /\ (709.782712893384 < x1 \/ 709.782712893384 < x2 ->
        WalkForward._score pos_frac ret_mu ret_sd
        = inl WalkForward.OverflowError).
Proof.
  intros pos_frac ret_mu ret_sd x1 x2.
  unfold WalkForward._score, WalkForward.math_exp. fold x1 x2. split.
  - intros H1 H2.
    rewrite (py_exp_returns x1 H1). cbn [WalkForward.rbind].
    rewrite (py_exp_returns x2 H2). cbn [WalkForward.rbind].
    eexists. split; [reflexivity|].
    pose proof (logistic_shape_range x1). pose proof (logistic_shape_range x2).
    lra.
  - intros H.
    destruct (Rle_dec x1 709.782712893384) as [H1|H1].
    + destruct H as [H|H]; [lra|].
      rewrite (py_exp_returns x1 H1). cbn [WalkForward.rbind].
      rewrite (py_exp_raises x2 H). reflexivity.
    + rewrite (py_exp_raises x1) by (unfold exp_max; lra). reflexivity.
Qed.

Lemma wf_score_unit_range_witness :
  WalkForward._score 0 (-1) 0 = inl WalkForward.OverflowError
  /\ exists sc, WalkForward._score 1 0.02 0.01 = inr sc /\ 0 < sc < 1.
Proof.
  split.
  - apply (proj2 (wf_score_unit_range 0 (-1) 0)). right.
    rewrite Rmax_right by lra. lra.
  - apply (proj1 (wf_score_unit_range 1 0.02 0.01)).
    + lra.
    + rewrite Rmax_left by lra. lra.
Defined.

(** X17: on a series with fewer bars than [min_bars_per_split] the
    stability path returns the all-zero result with no fold, for every
    split count, without calling the swing source. *)
Theorem walk_forward_short_series :
  forall (B : Type)
         (extract_swings : list B -> R -> WalkForward.result (list (Z * R)))
         (detect_and_backtest :
            list (Z * R) -> WalkForward.obj -> list B -> WalkForward.obj
            -> WalkForward.result R)
         (bars : list B) (zigzag_pct : R) (options : WalkForward.WaveOptions)
         (splits min_bars_per_split : Z) (btkw : WalkForward.obj),
    (Z.of_nat (length bars) < min_bars_per_split)%Z ->
    WalkForward.walk_forward_metrics B extract_swings detect_and_backtest
                                     bars zigzag_pct options splits
                                     min_bars_per_split btkw
    = inr WalkForward.empty_result.
Proof.
  intros B extract_swings detect_and_backtest bars zigzag_pct options
         splits min_bars btkw Hshort.
  unfold WalkForward.walk_forward_metrics.
  set (n := Z.of_nat (length bars)) in *.
  destruct (Z.leb_spec n 0) as [Hn|Hn]; [reflexivity|].
  set (s := WalkForward._clamp splits 2 20).
  assert (2 <= s <= 20)%Z as Hs by (subst s; unfold WalkForward._clamp; lia).
  unfold WalkForward.int_div at 1.
  destruct (Z.eqb_spec s 0) as [E|_]; [lia|]. cbn [WalkForward.rbind].
  assert (0 <= n / s <= n)%Z as Hq.
  { split; [apply Z.div_pos; lia|].
    apply Z.div_le_upper_bound; [lia | nia]. }
  replace (Z.max (n / s) min_bars) with min_bars by lia.
  unfold WalkForward.int_div.
  destruct (Z.eqb_spec min_bars 0) as [E|_]; [lia|]. cbn [WalkForward.rbind].
  rewrite (Z.div_small n min_bars) by lia.
  replace (Z.max 2 (Z.min 20 0)) with 2%Z by lia.
  change (py_range 0 2) with [0%Z; 1%Z].
  cbn [WalkForward.stability_loop].
  replace (0 * min_bars)%Z with 0%Z by lia.
  replace ((0 + 1) * min_bars)%Z with min_bars by lia.
  replace (Z.min n min_bars) with n by lia.
  destruct (Z.ltb_spec (n - 0) min_bars) as [_|H]; [|lia].
  replace (Z.min n ((1 + 1) * min_bars)) with n by lia.
  destruct (Z.ltb_spec (n - 1 * min_bars) min_bars) as [_|H]; [|lia].
  reflexivity.
Qed.

Lemma walk_forward_short_series_witness :
  WalkForward.walk_forward_metrics
    unit (fun _ _ => inl WalkForward.ImportError)
    (fun _ _ _ _ => inl WalkForward.ValueError)
    (repeat tt 150) 1 (WalkForward.mkWaveOptions 1 0 1 256 5000 50 0.7)
    3 200 []
  = inr WalkForward.empty_result.
Proof.
  apply walk_forward_short_series. simpl. lia.
Defined.

(** ** The ranker *)

Section RankFacts.
Import Rank.

Lemma in_sample_returns m :
  sharpe_in_range m -> exists v, in_sample m = Some v /\ 0 < v < 1.
Proof.
  intros Hsh. unfold in_sample.
  set (ret := Rmax 0 (_get (bt_totalret m))).
  set (mdd := Rmax 0 (_get (bt_mdd m))).
  set (pf := capped_pf (_get_x (bt_pf m))).
  assert (0 <= ret) by (subst ret; apply Rmax_l).
  assert (0 <= mdd) by (subst mdd; apply Rmax_l).
  assert (0 <= pf) as Hpf.
  { subst pf. unfold capped_pf. destruct (_get_x (bt_pf m)) as [r|]; [|lra].
    pose proof (Rmax_l 0 r). unfold Rmin. destruct (Rle_dec (Rmax 0 r) 40); lra. }
  assert (0 < exp (- 2 * ret) <= 1) as Hret.
  { split; [apply exp_pos|]. rewrite <- exp_0.
    destruct (Req_dec ret 0) as [->|Hne].
    - rewrite Rmult_0_r. lra.
    - left. apply exp_increasing. lra. }
  assert (0 < exp (- 0.15 * pf) <= 1) as Hpfe.
  { split; [apply exp_pos|]. rewrite <- exp_0.
    destruct (Req_dec pf 0) as [->|Hne].
    - rewrite Rmult_0_r. lra.
    - left. apply exp_increasing. lra. }
  assert (0 < 1 / (1 + 10 * mdd) <= 1) as Hmdd.
  { assert (0 < / (1 + 10 * mdd)) by (apply Rinv_0_lt_compat; lra).
    assert ((1 + 10 * mdd) * / (1 + 10 * mdd) = 1) by (apply Rinv_r; lra).
    unfold Rdiv. split; nra. }
  rewrite (py_exp_returns (- 2 * ret)) by (unfold exp_max; lra).
  cbn [obind].
  rewrite (py_exp_returns (- 0.15 * pf)) by (unfold exp_max; lra).
  cbn [obind].
  assert (exists sq, squash_sharpe (_get_x (bt_sharpe m)) = Some sq
                     /\ 0 < sq <= 1) as (sq & -> & Hsq).
  { unfold squash_sharpe, sharpe_in_range in *.
    destruct (_get_x (bt_sharpe m)) as [r|].
    - rewrite (py_exp_returns _ Hsh). cbn [obind].
      eexists. split; [reflexivity|].
      pose proof (logistic_shape_range (- 1.2 * r)). lra.
    - eexists. split; [reflexivity|]. rewrite Rplus_0_r. lra. }
  cbn [obind]. eexists. split; [reflexivity|]. lra.
Qed.

Lemma in_sample_raises m : ~ sharpe_in_range m -> in_sample m = None.
Proof.
  intros Hsh. unfold in_sample.
  assert (0 <= Rmax 0 (_get (bt_totalret m))) by apply Rmax_l.
  assert (0 <= capped_pf (_get_x (bt_pf m))) as Hpf.
  { unfold capped_pf. destruct (_get_x (bt_pf m)) as [r|]; [|lra].
    pose proof (Rmax_l 0 r). unfold Rmin. destruct (Rle_dec (Rmax 0 r) 40); lra. }
  rewrite (py_exp_returns (- 2 * _)) by (unfold exp_max; lra).
  cbn [obind].
  rewrite (py_exp_returns (- 0.15 * _)) by (unfold exp_max; lra).
  cbn [obind].
  unfold squash_sharpe, sharpe_in_range in *.
  destruct (_get_x (bt_sharpe m)) as [r|]; [|exfalso; apply Hsh; exact I].
  rewrite py_exp_raises by (unfold exp_max; lra). reflexivity.
Qed.

Lemma composite_score_returns m w :
  sharpe_in_range m ->
  exists sc, composite_score m w = Some sc /\ 0 <= sc <= 1
             /\ (wf_score m = None -> in_sample m = Some sc /\ 0 < sc < 1).
Proof.
  intros Hsh. unfold composite_score.
  destruct (in_sample_returns m Hsh) as (v & -> & Hv). cbn [obind].
  destruct (wf_score m) as [wf|].
  - eexists. split; [reflexivity|]. split; [|discriminate].
    assert (0 <= Rmax 0 (Rmin 1 wf) <= 1) as Hwf.
    { pose proof (Rmax_l 0 (Rmin 1 wf)). pose proof (Rmin_l 1 wf).
      unfold Rmax in *. destruct (Rle_dec 0 (Rmin 1 wf)); lra. }
    assert (0 <= Rmax 0 (Rmin 1 w) <= 1) as Hw.
    { pose proof (Rmax_l 0 (Rmin 1 w)). pose proof (Rmin_l 1 w).
      unfold Rmax in *. destruct (Rle_dec 0 (Rmin 1 w)); lra. }
    nra.
  - exists v. split; [reflexivity|]. split; [lra|].
    intros _. split; [reflexivity | exact Hv].
Qed.

Lemma composite_score_raises m w :
  ~ sharpe_in_range m -> composite_score m w = None.
Proof.
  intros Hsh. unfold composite_score. rewrite (in_sample_raises m Hsh).
  reflexivity.
Qed.

Lemma score_items_returns w results :
  Forall (fun r => sharpe_in_range (snd r)) results ->
  exists items,
    score_items results w = Some items
    /\ length items = length results
    /\ Forall (fun it =>
                 In (symbol it, timeframe it, meta it) results
                 /\ composite_score (meta it) w = Some (score it)) items.
Proof.
  induction 1 as [|[[sym tf] m] rest Hm _ IH].
  - exists []. repeat split; constructor.
  - destruct IH as (items & Hitems & Hlen & Hall).
    destruct (composite_score_returns m w Hm) as (sc & Hsc & _).
    cbn [score_items]. rewrite Hsc. cbn [obind]. rewrite Hitems. cbn [obind].
    eexists. split; [reflexivity|]. split; [simpl; now rewrite Hlen|].
    constructor.
    + split; [left; reflexivity | exact Hsc].
    + refine (Forall_impl _ _ Hall). intros it [Hin Hit].
      split; [right; exact Hin | exact Hit].
Qed.

Lemma score_items_raises w results :
  Exists (fun r => ~ sharpe_in_range (snd r)) results ->
  score_items results w = None.
Proof.
  induction 1 as [[[sym tf] m] rest Hm|[[sym tf] m] rest _ IH];
    cbn [score_items].
  - rewrite (composite_score_raises m w Hm). reflexivity.
  - rewrite IH. destruct (composite_score m w); reflexivity.
Qed.
End RankFacts.

(** X18: [composite_score] raises [OverflowError] exactly for the jobs
    whose Sharpe-like ratio is so negative that [-1.2 * bt_sharpe]
    exceeds 709.782712893384; for every other job metadata and every
    out-of-sample weight it returns a score between 0 and 1, and
    without a walk-forward score that is the in-sample score, which
    lies strictly between 0 and 1. *)
Theorem composite_score_unit_range :
  forall (m : Rank.JobMeta) (oos_weight : R),
    (sharpe_in_range m ->
     exists sc,
       Rank.composite_score m oos_weight = Some sc
       /\ 0 <= sc <= 1
       /\ (Rank.wf_score m = None ->
           Rank.in_sample m = Some sc /\ 0 < sc < 1))
    /\ (~ sharpe_in_range m -> Rank.composite_score m oos_weight = None).
Proof.
  intros m w. split.
  - apply composite_score_returns.
  - apply composite_score_raises.
Qed.

Lemma composite_score_unit_range_witness :
  (exists sc,
      Rank.composite_score
        (Rank.mkJobMeta (Some 0.2) (Some 0.1) (Some PInf) (Some (Fin 1)) None)
        0.6 = Some sc
      /\ 0 <= sc <= 1)
  /\ Rank.composite_score
       (Rank.mkJobMeta None None None (Some (Fin (-600))) None) 0.6 = None.
Proof.
  split.
  - destruct (proj1 (composite_score_unit_range
                       (Rank.mkJobMeta (Some 0.2) (Some 0.1) (Some PInf)
                                       (Some (Fin 1)) None) 0.6))
      as (sc & Hsc & Hrange & _).
    + unfold sharpe_in_range. simpl. lra.
    + exists sc. split; assumption.
  - apply (proj2 (composite_score_unit_range
                    (Rank.mkJobMeta None None None (Some (Fin (-600))) None)
                    0.6)).
    unfold sharpe_in_range. simpl. lra.
Defined.

(** X19: when no job's Sharpe-like ratio is out of range
    [rank_results] returns at most [max(0, top)] items, by
    non-increasing score; each is an input job carrying its composite
    score; and when [top] is at least the number of jobs all of them
    are returned.  When some job's ratio is out of range, the call
    raises the [OverflowError] of that job's score. *)
Theorem rank_results_sorted_top :
  forall (results : list (string * string * Rank.JobMeta)) (top : Z)
         (oos_weight : R),
    (Forall (fun r => sharpe_in_range (snd r)) results ->
     exists out,
       Rank.rank_results results top oos_weight = Some out
       /\ (Z.of_nat (length out) <= Z.max 0 top)%Z
       /\ StronglySorted (key_desc Rank.score) out
       /\ Forall (fun it =>
                    In (Rank.symbol it, Rank.timeframe it, Rank.meta it) results
                    /\ Rank.composite_score (Rank.meta it) oos_weight
                       = Some (Rank.score it))
                 out
       /\ ((Z.of_nat (length results) <= top)%Z ->
           length out = length results))
    /\ (Exists (fun r => ~ sharpe_in_range (snd r)) results ->
        Rank.rank_results results top oos_weight = None).
Proof.
  intros results top w. unfold Rank.rank_results. split.
  - intros Hok.
    destruct (score_items_returns w results Hok) as (items & -> & Hlen & Hall).
    cbn [obind]. eexists. split; [reflexivity|].
    split; [apply py_prefix_nonneg_length; lia|].
    split; [apply py_prefix_sorted, sort_desc_sorted|].
    split; [apply py_prefix_Forall, sort_desc_Forall; exact Hall|].
    intros Htop. unfold py_prefix.
    destruct (Z.ltb_spec (Z.max 0 top) 0); [lia|].
    rewrite length_firstn, sort_desc_length, Hlen. lia.
  - intros Hbad. rewrite (score_items_raises w results Hbad). reflexivity.
Qed.

Lemma rank_results_sorted_top_witness :
  (exists out,
      Rank.rank_results
        [("BTCUSDT"%string, "1h"%string,
          Rank.mkJobMeta (Some 0.2) (Some 0.1) (Some (Fin 2)) (Some (Fin 1)) None);
         ("ETHUSDT"%string, "4h"%string,
          Rank.mkJobMeta (Some 0.5) (Some 0.3) (Some PInf) (Some (Fin 2))
                         (Some 0.7));
         ("SOLUSDT"%string, "1h"%string,
          Rank.mkJobMeta (Some (-0.1)) (Some 0.4) (Some (Fin 0.5))
                         (Some (Fin (-3))) None)]
        5 0.6 = Some out
      /\ length out = 3%nat
      /\ StronglySorted (key_desc Rank.score) out)
  /\ Rank.rank_results
       [("BTCUSDT"%string, "1h"%string,
         Rank.mkJobMeta (Some 0.2) (Some 0.1) (Some (Fin 2)) (Some (Fin 1)) None);
        ("ETHUSDT"%string, "4h"%string,
         Rank.mkJobMeta None None None (Some (Fin (-600))) None)]
       5 0.6 = None.
Proof.
  split.
  - destruct (proj1 (rank_results_sorted_top
      [("BTCUSDT"%string, "1h"%string,
        Rank.mkJobMeta (Some 0.2) (Some 0.1) (Some (Fin 2)) (Some (Fin 1)) None);
       ("ETHUSDT"%string, "4h"%string,
        Rank.mkJobMeta (Some 0.5) (Some 0.3) (Some PInf) (Some (Fin 2))
                       (Some 0.7));
       ("SOLUSDT"%string, "1h"%string,
        Rank.mkJobMeta (Some (-0.1)) (Some 0.4) (Some (Fin 0.5))
                       (Some (Fin (-3))) None)]
      5 0.6)) as (out & Hout & _ & Hsorted & _ & Hall).
    + repeat (constructor; [unfold sharpe_in_range; simpl; lra|]).
      constructor.
    + exists out. split; [exact Hout|]. split; [|exact Hsorted].
      apply Hall. simpl. lia.
  - apply (proj2 (rank_results_sorted_top
      [("BTCUSDT"%string, "1h"%string,
        Rank.mkJobMeta (Some 0.2) (Some 0.1) (Some (Fin 2)) (Some (Fin 1)) None);
       ("ETHUSDT"%string, "4h"%string,
        Rank.mkJobMeta None None None (Some (Fin (-600))) None)]
      5 0.6)).
    right. left. unfold sharpe_in_range. simpl. lra.
Defined.

(** ** Legs built from swing points *)

Section MonowaveFacts.
Import Model Monowave.

Lemma insert_by_idx_perm x l : Permutation (insert_by_idx x l) (x :: l).
Proof.
  induction l as [|y l IH]; simpl; [apply Permutation_refl|].
  destruct (fst y <? fst x)%Z.
  - apply perm_trans with (y :: x :: l); [now apply perm_skip | apply perm_swap].
  - apply Permutation_refl.
Qed.

Lemma sort_by_idx_perm l : Permutation (sort_by_idx l) l.
Proof.
  induction l as [|x l IH]; simpl; [constructor|].
  apply perm_trans with (x :: sort_by_idx l);
    [apply insert_by_idx_perm | now apply perm_skip].
Qed.

Lemma insert_by_idx_sorted x l :
  StronglySorted idx_le l -> StronglySorted idx_le (insert_by_idx x l).
Proof.
  induction 1 as [|y l Hs IH Hy]; simpl.
  - constructor; constructor.
  - destruct (Z.ltb_spec (fst y) (fst x)) as [Hlt|Hge].
    + constructor; [exact IH|].
      apply (Permutation_Forall (Permutation_sym (insert_by_idx_perm x l))).
      constructor; [unfold idx_le; lia | exact Hy].
    + constructor; [constructor; assumption|].
      constructor; [unfold idx_le; lia|].
      refine (Forall_impl _ _ Hy). unfold idx_le. intros z Hz. lia.
Qed.

Lemma sort_by_idx_sorted l : StronglySorted idx_le (sort_by_idx l).
Proof.
  induction l as [|x l IH]; simpl; [constructor|].
  apply insert_by_idx_sorted. exact IH.
Qed.

Lemma sort_by_idx_length l : length (sort_by_idx l) = length l.
Proof. apply Permutation_length, sort_by_idx_perm. Qed.

Lemma stride_from_In {A : Type} step (l : list A) :
  forall k x, In x (stride_from step k l) -> In x l.
Proof.
  induction l as [|y l IH]; intros k x Hx; simpl in *; [exact Hx|].
  destruct k as [|k].
  - destruct Hx as [<-|Hx]; [left; reflexivity | right; eapply IH; exact Hx].
  - right. eapply IH. exact Hx.
Qed.

Lemma stride_from_sorted {A : Type} (Rel : A -> A -> Prop) step (l : list A) :
  StronglySorted Rel l -> forall k, StronglySorted Rel (stride_from step k l).
Proof.
  induction 1 as [|y l Hs IH Hy]; intros k; simpl; [constructor|].
  destruct k as [|k]; [|apply IH].
  constructor; [apply IH|].
  apply Forall_forall. intros z Hz. rewrite Forall_forall in Hy.
  apply Hy. eapply stride_from_In. exact Hz.
Qed.

Lemma stride_one {A : Type} (l : list A) : stride 1 l = l.
Proof.
  unfold stride. induction l as [|x l IH]; simpl; [reflexivity|].
  now rewrite IH.
Qed.

Lemma stride_from_length {A : Type} step (l : list A) :
  (2 <= step)%nat ->
  forall k,
    (2 * length (stride_from step k l)
     <= length l + (match k with O => 1 | S _ => 0 end))%nat.
Proof.
  intros Hstep. induction l as [|x l IH]; intros k; simpl.
  - destruct k; lia.
  - destruct k as [|k]; simpl.
    + specialize (IH (step - 1)%nat).
      destruct (step - 1)%nat eqn:E; [lia|]. lia.
    + specialize (IH k). destruct k; lia.
Qed.

Lemma swing_eqb_eq a b : swing_eqb a b = true <-> a = b.
Proof.
  unfold swing_eqb. destruct a as [ia pa], b as [ib pb]; simpl.
  rewrite andb_true_iff, Z.eqb_eq.
  destruct (Req_dec_T pa pb) as [E|N]; split.
  - intros [-> _]. subst. reflexivity.
  - intros H. inversion H. auto.
  - intros [_ H]. discriminate.
  - intros H. inversion H. contradiction.
Qed.

Lemma consecutive_length {A : Type} (l : list A) :
  length (consecutive l) = (length l - 1)%nat.
Proof.
  induction l as [|a [|b l] IH]; try reflexivity.
  change (consecutive (a :: b :: l)) with ((a, b) :: consecutive (b :: l)).
  simpl length in *. rewrite IH. lia.
Qed.

Lemma consecutive_sorted (Rel : swing -> swing -> Prop) l :
  StronglySorted Rel l -> Forall (fun ab => Rel (fst ab) (snd ab)) (consecutive l).
Proof.
  induction 1 as [|a l Hs IH Ha]; [constructor|].
  destruct l as [|b l]; [constructor|].
  change (consecutive (a :: b :: l)) with ((a, b) :: consecutive (b :: l)).
  constructor; [|exact IH]. inversion Ha; assumption.
Qed.

Lemma legs_chained_from l :
  forall a, chained (map leg_between (consecutive (a :: l))).
Proof.
  induction l as [|b l IH]; intros a; [exact I|].
  change (consecutive (a :: b :: l)) with ((a, b) :: consecutive (b :: l)).
  specialize (IH b). destruct l as [|c l]; [exact I|].
  change (consecutive (b :: c :: l)) with ((b, c) :: consecutive (c :: l)) in *.
  cbn [map] in *. cbn [chained].
  split; [reflexivity|]. split; [reflexivity|]. exact IH.
Qed.

Lemma legs_chained l : chained (map leg_between (consecutive l)).
Proof. destruct l; [exact I | apply legs_chained_from]. Qed.

Lemma last_cons_default {A : Type} (x : A) l d d' :
  last (x :: l) d = last (x :: l) d'.
Proof.
  revert x. induction l as [|y l IH]; intros x; [reflexivity|].
  change (last (x :: y :: l) d) with (last (y :: l) d).
  change (last (x :: y :: l) d') with (last (y :: l) d').
  apply IH.
Qed.

Lemma last_cons_last {A : Type} (x : A) l d : last (x :: l) d = last l x.
Proof.
  destruct l as [|y l]; [reflexivity|].
  change (last (x :: y :: l) d) with (last (y :: l) d).
  apply last_cons_default.
Qed.

Lemma last_In {A : Type} (l : list A) : forall d, In (last l d) (d :: l).
Proof.
  induction l as [|x l IH]; intros d; [left; reflexivity|].
  rewrite last_cons_last. right. apply IH.
Qed.

Lemma legs_ends l :
  forall a b,
  exists first rest,
    map leg_between (consecutive (a :: b :: l)) = first :: rest
    /\ (mw_start_idx first, mw_start_px first) = a
    /\ (mw_end_idx (last rest first), mw_end_px (last rest first))
       = last (b :: l) a.
Proof.
  induction l as [|c l IH]; intros a b.
  - exists (leg_between (a, b)), []. simpl.
    destruct a, b. repeat split; reflexivity.
  - destruct (IH b c) as (f & r & Hmap & _ & Hlast).
    exists (leg_between (a, b)), (f :: r).
    change (consecutive (a :: b :: c :: l))
      with ((a, b) :: consecutive (b :: c :: l)).
    rewrite map_cons, Hmap. split; [reflexivity|].
    split; [destruct a; reflexivity|].
    rewrite (last_cons_last f r), Hlast.
    rewrite !last_cons_last. reflexivity.
Qed.

Lemma sorted_last_max (l : list swing) a :
  StronglySorted idx_le (a :: l) ->
  Forall (fun x => idx_le x (last l a)) (a :: l).
Proof.
  revert a. induction l as [|b l IH]; intros a Hs.
  - constructor; [unfold idx_le; simpl; lia | constructor].
  - inversion Hs as [|? ? Hs' Ha]; subst.
    specialize (IH b Hs'). rewrite last_cons_last.
    constructor; [|exact IH].
    inversion IH as [|? ? Hb _]; subst. inversion Ha; subst.
    unfold idx_le in *. lia.
Qed.

Lemma downsample_sorted step pts :
  StronglySorted idx_le pts -> StronglySorted idx_le (downsample step pts).
Proof.
  intros Hs. unfold downsample.
  pose proof (stride_from_sorted idx_le step pts Hs 0) as Hf. fold (stride step pts) in Hf.
  destruct pts as [|p ps]; [exact Hf|].
  destruct (swing_eqb _ _); [exact Hf|].
  assert (Forall (fun x => idx_le x (last ps p)) (stride step (p :: ps))) as Hmax.
  { apply Forall_forall. intros x Hx. apply stride_from_In in Hx.
    pose proof (sorted_last_max ps p Hs) as H. rewrite Forall_forall in H.
    apply H. exact Hx. }
  clear Hs. induction Hf as [|x l Hl IH Hx]; simpl.
  - constructor; constructor.
  - inversion Hmax; subst. constructor; [apply IH; assumption|].
    apply Forall_app. split; [exact Hx | constructor; [assumption | constructor]].
Qed.

Lemma downsample_length step pts :
  (1 <= step)%nat -> (2 <= length pts)%nat ->
  (length (downsample step pts) <= length pts)%nat.
Proof.
  intros Hstep Hn. unfold downsample.
  destruct pts as [|p ps]; [simpl in Hn; lia|].
  destruct (Nat.eq_dec step 1) as [->|Hne].
  - rewrite stride_one.
    rewrite last_cons_last.
    rewrite (proj2 (swing_eqb_eq _ _) eq_refl). lia.
  - pose proof (stride_from_length step (p :: ps) ltac:(lia) 0) as Hl.
    fold (stride step (p :: ps)) in Hl.
    destruct (swing_eqb _ _); [simpl in *; lia|].
    rewrite length_app. simpl in *. lia.
Qed.

Lemma downsample_In step pts x :
  In x (downsample step pts) -> In x pts.
Proof.
  unfold downsample. destruct pts as [|p ps]; [intros []|].
  destruct (swing_eqb _ _).
  - apply stride_from_In.
  - intros H. apply in_app_or in H as [H|[<-|[]]].
    + eapply stride_from_In. exact H.
    + apply last_In.
Qed.
End MonowaveFacts.

Lemma consecutive_In {A : Type} (l : list A) a b :
  In (a, b) (Monowave.consecutive l) -> In a l /\ In b l.
Proof.
  induction l as [|x l IH]; [intros []|].
  destruct l as [|y l]; [intros []|].
  change (Monowave.consecutive (x :: y :: l))
    with ((x, y) :: Monowave.consecutive (y :: l)).
  intros [H|H].
  - inversion H; subst. split; [left; reflexivity | right; left; reflexivity].
  - destruct (IH H) as [Ha Hb]. split; right; assumption.
Qed.

Lemma filter_all {A : Type} (f : A -> bool) (l : list A) :
  (forall x, f x = true) -> filter f l = l.
Proof.
  intros H. induction l as [|x l IH]; simpl; [reflexivity|].
  rewrite H, IH. reflexivity.
Qed.

Lemma downsample_cons step (p : Monowave.swing) ps :
  exists f,
    Monowave.downsample step (p :: ps)
    = if Monowave.swing_eqb (last (p :: f) p) (last ps p)
      then p :: f
      else (p :: f) ++ [last ps p].
Proof.
  exists (Monowave.stride_from step (step - 1) ps). reflexivity.
Qed.

Lemma build_monowaves_unfold swings cfg :
  (2 <= length swings)%nat ->
  Monowave.build_monowaves_from_swings swings cfg
  = filter (fun mw => negb (Rltb 0 (Monowave.min_abs_move cfg)
                            && Rltb (Model.mw_abs_move mw) (Monowave.min_abs_move cfg)))
           (map leg_between
                (Monowave.consecutive
                   (Monowave.downsample
                      (Z.to_nat (Z.max 1 (Monowave.skip cfg + 1)))
                      (Monowave.sort_by_idx swings)))).
Proof.
  intros Hn. unfold Monowave.build_monowaves_from_swings.
  destruct (Nat.ltb_spec (length swings) 2); [lia | reflexivity].
Qed.

(** X20: [build_monowaves_from_swings] returns no leg for fewer than
    two swing points and never more legs than swing points less one;
    every leg runs between two of the given swing points, from the
    lower index to the higher; and with a positive [min_abs_move] every
    returned leg moves by at least that much. *)
Theorem build_monowaves_legs :
  forall (swings : list Monowave.swing) (cfg : Monowave.MonoWaveConfig),
    let mws := Monowave.build_monowaves_from_swings swings cfg in
    ((length swings < 2)%nat -> mws = [])
    /\ (length mws <= length swings - 1)%nat
    /\ Forall (fun mw =>
                 (Model.mw_start_idx mw <= Model.mw_end_idx mw)%Z
                 /\ In (Model.mw_start_idx mw, Model.mw_start_px mw) swings
                 /\ In (Model.mw_end_idx mw, Model.mw_end_px mw) swings) mws
    /\ (0 < Monowave.min_abs_move cfg ->
        Forall (fun mw => Monowave.min_abs_move cfg <= Model.mw_abs_move mw) mws).
Proof.
  intros swings cfg mws. subst mws.
  destruct (Nat.ltb_spec (length swings) 2) as [Hshort|Hlong].
  - unfold Monowave.build_monowaves_from_swings.
    rewrite (proj2 (Nat.ltb_lt _ _) Hshort).
    repeat split; try constructor. simpl. lia.
  - rewrite (build_monowaves_unfold swings cfg Hlong).
    set (step := Z.to_nat (Z.max 1 (Monowave.skip cfg + 1))).
    set (D := Monowave.downsample step (Monowave.sort_by_idx swings)).
    split; [intros; lia|]. split; [|split].
    + eapply Nat.le_trans; [apply filter_length_le|].
      rewrite length_map, consecutive_length.
      pose proof (downsample_length step (Monowave.sort_by_idx swings)) as Hd.
      rewrite sort_by_idx_length in Hd. fold D in Hd.
      assert (1 <= step)%nat by (subst step; lia). lia.
    + apply Forall_forall. intros mw Hmw.
      apply filter_In in Hmw as [Hmw _].
      apply in_map_iff in Hmw as ([a b] & <- & Hab).
      pose proof (consecutive_sorted idx_le D
                    (downsample_sorted step _ (sort_by_idx_sorted swings))) as Hs.
      rewrite Forall_forall in Hs. specialize (Hs _ Hab).
      apply consecutive_In in Hab as [Ha Hb].
      apply downsample_In in Ha. apply downsample_In in Hb.
      apply (Permutation_in _ (sort_by_idx_perm swings)) in Ha.
      apply (Permutation_in _ (sort_by_idx_perm swings)) in Hb.
      destruct a as [ia pa], b as [ib pb]. simpl in *.
      split; [exact Hs | split; assumption].
    + intros Hpos. apply Forall_forall. intros mw Hmw.
      apply filter_In in Hmw as [_ Hf].
      rewrite (proj2 (Rltb_true _ _) Hpos) in Hf. simpl in Hf.
      apply negb_true_iff in Hf. apply Rltb_false in Hf. exact Hf.
Qed.

Lemma build_monowaves_legs_witness :
  Monowave.build_monowaves_from_swings [(3%Z, 100)] (Monowave.mkMonoWaveConfig 1 0)
  = [].
Proof.
  apply (proj1 (build_monowaves_legs [(3%Z, 100)] (Monowave.mkMonoWaveConfig 1 0))).
  simpl. lia.
Defined.

(** X21: from at least two swing points of distinct indices, and with
    no minimum move, the legs form one chain: there is at least one
    leg, each leg starts at the index and price where the previous one
    ended, the first starts at the swing point of lowest index and the
    last ends at the swing point of highest index, whatever the skip
    factor. *)
Theorem build_monowaves_chain :
  forall (swings : list Monowave.swing) (cfg : Monowave.MonoWaveConfig),
    (2 <= length swings)%nat ->
    NoDup (map fst swings) ->
    Monowave.min_abs_move cfg <= 0 ->
    exists first rest,
      Monowave.build_monowaves_from_swings swings cfg = first :: rest
      /\ chained (first :: rest)
      /\ In (Model.mw_start_idx first, Model.mw_start_px first) swings
      /\ In (Model.mw_end_idx (last rest first),
             Model.mw_end_px (last rest first)) swings
      /\ forall s, In s swings ->
           (Model.mw_start_idx first <= fst s
            <= Model.mw_end_idx (last rest first))%Z.
Proof.
  intros swings cfg Hlen Hnd Hmin.
  rewrite (build_monowaves_unfold swings cfg Hlen).
  rewrite filter_all
    by (intros mw; rewrite (proj2 (Rltb_false _ _) Hmin); reflexivity).
  set (step := Z.to_nat (Z.max 1 (Monowave.skip cfg + 1))).
  pose proof (sort_by_idx_sorted swings) as Hsorted.
  pose proof (sort_by_idx_perm swings) as Hperm.
  pose proof (sort_by_idx_length swings) as Hplen.
  assert (NoDup (map fst (Monowave.sort_by_idx swings))) as Hnd'.
  { apply (Permutation_NoDup (l := map fst swings)); [|exact Hnd].
    apply Permutation_map, Permutation_sym, Hperm. }
  destruct (Monowave.sort_by_idx swings) as [|p [|q ps]]; simpl in Hplen; try lia.
  set (z := last (q :: ps) p) in *.
  pose proof (sorted_last_max (q :: ps) p Hsorted) as Hmax. fold z in Hmax.
  assert (In z (q :: ps)) as Hz
    by (subst z; rewrite last_cons_last; apply last_In).
  assert (fst p < fst z)%Z as Hpz.
  { inversion Hmax as [|? ? Hp _]; subst. unfold idx_le in Hp.
    inversion Hnd' as [|? ? Hnotin _]; subst.
    assert (fst p <> fst z)
      by (intros E; apply Hnotin; rewrite E;
          change (In (fst z) (map fst (q :: ps))); apply in_map; exact Hz).
    lia. }
  assert (exists b l, Monowave.downsample step (p :: q :: ps) = p :: b :: l
                      /\ last (b :: l) p = z) as (b & l & HD & Hlast).
  { destruct (downsample_cons step p (q :: ps)) as [f ->]. fold z.
    destruct (Monowave.swing_eqb (last (p :: f) p) z) eqn:E.
    - apply swing_eqb_eq in E. rewrite last_cons_last in E.
      destruct f as [|b l]; [simpl in E; subst z; rewrite <- E in Hpz; lia|].
      exists b, l. split; [reflexivity|].
      rewrite <- E. apply last_cons_default.
    - destruct f as [|b l].
      + exists z, []. split; reflexivity.
      + exists b, (l ++ [z]). split; [reflexivity|].
        change (b :: l ++ [z]) with ((b :: l) ++ [z]). apply last_last. }
  rewrite HD.
  destruct (legs_ends l p b) as (first & rest & Hmap & Hstart & Hend).
  exists first, rest. split; [exact Hmap|]. split; [|split; [|split]].
  - rewrite <- Hmap. apply legs_chained.
  - rewrite Hstart. apply (Permutation_in _ Hperm). left. reflexivity.
  - rewrite Hend, Hlast. apply (Permutation_in _ Hperm). right. exact Hz.
  - intros s Hs. apply (Permutation_in _ (Permutation_sym Hperm)) in Hs.
    rewrite Hlast in Hend.
    assert (Model.mw_start_idx first = fst p) as -> by (rewrite <- Hstart; reflexivity).
    assert (Model.mw_end_idx (last rest first) = fst z) as ->
      by (rewrite <- Hend; reflexivity).
    rewrite Forall_forall in Hmax. specialize (Hmax s Hs). unfold idx_le in Hmax.
    split; [|exact Hmax].
    destruct Hs as [<-|Hs]; [lia|].
    inversion Hsorted as [|? ? _ Hp]; subst. rewrite Forall_forall in Hp.
    apply (Hp s Hs).
Qed.

Lemma build_monowaves_chain_witness :
  exists first rest,
    Monowave.build_monowaves_from_swings
      [(0%Z, 100); (4%Z, 110); (9%Z, 104); (15%Z, 120)]
      (Monowave.mkMonoWaveConfig 1 0) = first :: rest
    /\ chained (first :: rest)
    /\ In (Model.mw_start_idx first, Model.mw_start_px first)
          [(0%Z, 100); (4%Z, 110); (9%Z, 104); (15%Z, 120)]
    /\ In (Model.mw_end_idx (last rest first),
           Model.mw_end_px (last rest first))
          [(0%Z, 100); (4%Z, 110); (9%Z, 104); (15%Z, 120)].
Proof.
  destruct (build_monowaves_chain
              [(0%Z, 100); (4%Z, 110); (9%Z, 104); (15%Z, 120)]
              (Monowave.mkMonoWaveConfig 1 0))
    as (first & rest & H1 & H2 & H3 & H4 & _).
  - simpl. lia.
  - simpl. repeat (constructor; [simpl; intuition lia|]). constructor.
  - simpl. lra.
  - exists first, rest. repeat split; assumption.
Defined.

(** ** The scan *)

Section ScanFacts.
Import Model Analyzer Scan.

Lemma running_bounds ds :
  forall acc,
    Forall (fun d => (1 <= d)%Z) ds ->
    Forall (fun x => (acc < x <= last (running acc ds) acc)%Z) (running acc ds).
Proof.
  induction ds as [|d rest IH]; intros acc Hds; [constructor|].
  inversion Hds as [|? ? Hd Hrest]; subst.
  specialize (IH (acc + d)%Z Hrest).
  change (running acc (d :: rest)) with ((acc + d)%Z :: running (acc + d) rest).
  rewrite last_cons_last.
  assert (acc + d <= last (running (acc + d) rest) (acc + d))%Z as Hlast.
  { destruct (running (acc + d) rest) as [|x xs] eqn:E; [simpl; lia|].
    pose proof (last_In xs x) as Hin. rewrite <- (last_cons_last x xs (acc + d)%Z) in Hin.
    rewrite Forall_forall in IH.
    destruct Hin as [Hin|Hin].
    - specialize (IH x (or_introl eq_refl)). rewrite <- Hin. lia.
    - specialize (IH _ (or_intror Hin)). lia. }
  constructor; [lia|].
  refine (Forall_impl _ _ IH). intros x Hx. simpl in Hx. lia.
Qed.

Lemma idxs_in_range i0 ds n :
  (0 <= i0)%Z -> Forall (fun d => (1 <= d)%Z) ds ->
  (last (idxs_of (i0 :: ds)) i0 < n)%Z ->
  Forall (fun i => (0 <= i < n)%Z) (idxs_of (i0 :: ds)).
Proof.
  intros Hi0 Hds Hlast. unfold idxs_of in *.
  rewrite last_cons_last in Hlast.
  pose proof (running_bounds ds i0 Hds) as Hb.
  constructor.
  - destruct (running i0 ds) as [|x xs] eqn:E; [simpl in Hlast; lia|].
    inversion Hb; subst. lia.
  - refine (Forall_impl _ _ Hb). intros x Hx. lia.
Qed.

Lemma gather_defined {A : Type} (l : list A) idxs :
  Forall (fun i => (0 <= i < Z.of_nat (length l))%Z) idxs ->
  exists win,
    gather l idxs = Some win
    /\ length win = length idxs
    /\ Forall (fun x => In x l) win.
Proof.
  induction 1 as [|i rest Hi _ IH]; simpl.
  - exists []. repeat split; constructor.
  - destruct IH as (win & Hw & Hlen & Hin).
    unfold py_index. destruct (Z.leb_spec 0 i) as [_|H]; [|lia].
    destruct (nth_error l (Z.to_nat i)) as [x|] eqn:Hx.
    + cbn [obind]. rewrite Hw. cbn [obind].
      exists (x :: win). split; [reflexivity|]. split; [simpl; lia|].
      constructor; [eapply nth_error_In; exact Hx | exact Hin].
    + apply nth_error_None in Hx. lia.
Qed.

Lemma drawn_layers_shape n g tup :
  drawn (_layers n g) tup ->
  match tup with
  | [] => True
  | i0 :: ds =>
      (0 <= i0 < n - 4)%Z
      /\ Forall (fun d => (1 <= d <= g + 1)%Z) ds
      /\ (length ds <= 4)%nat
  end.
Proof.
  unfold _layers. cbn [repeat].
  assert (forall d, In d (py_range 1 (g + 2)) -> (1 <= d <= g + 1)%Z) as Hgap
    by (intros d Hd; apply py_range_In in Hd; lia).
  destruct tup as [|i0 ds]; [trivial|]. cbn [drawn]. intros [Hi0 Hds].
  apply py_range_In in Hi0. split; [lia|].
  destruct ds as [|d1 [|d2 [|d3 [|d4 [|d5 r]]]]]; cbn [drawn] in Hds.
  - split; [constructor | simpl; lia].
  - destruct Hds as (H1 & _).
    split; [repeat (apply Forall_cons; [apply Hgap; assumption|]); apply Forall_nil
           | simpl; lia].
  - destruct Hds as (H1 & H2 & _).
    split; [repeat (apply Forall_cons; [apply Hgap; assumption|]); apply Forall_nil
           | simpl; lia].
  - destruct Hds as (H1 & H2 & H3 & _).
    split; [repeat (apply Forall_cons; [apply Hgap; assumption|]); apply Forall_nil
           | simpl; lia].
  - destruct Hds as (H1 & H2 & H3 & H4 & _).
    split; [repeat (apply Forall_cons; [apply Hgap; assumption|]); apply Forall_nil
           | simpl; lia].
  - destruct Hds as (_ & _ & _ & _ & []).
Qed.

Lemma idxs_of_length tup : length (idxs_of tup) = length tup.
Proof.
  destruct tup as [|i0 ds]; [reflexivity|]. simpl. f_equal.
  generalize i0. induction ds as [|d r IH]; intros acc; simpl; [reflexivity|].
  now rewrite IH.
Qed.

Section WithMonowaves.
Variable mws : list MonoWave.
Variable max_gap : Z.

Local Abbreviation n := (Z.of_nat (length mws)).
Local Abbreviation layers := (_layers n max_gap).

Lemma drawn_gather tup i0 ds :
  tup = i0 :: ds -> drawn layers tup ->
  (last (idxs_of tup) i0 < n)%Z ->
  exists win,
    gather mws (idxs_of tup) = Some win
    /\ length win = length tup
    /\ Forall (fun x => In x mws) win.
Proof.
  intros -> Hd Hlast. apply drawn_layers_shape in Hd as (Hi0 & Hds & _).
  destruct (gather_defined mws (idxs_of (i0 :: ds))) as (win & Hw & Hlen & Hin).
  - apply idxs_in_range; [lia | | exact Hlast].
    refine (Forall_impl _ _ Hds). intros d Hd. lia.
  - exists win. rewrite <- (idxs_of_length (i0 :: ds)). auto.
Qed.

Lemma score_prefix_defined tup :
  drawn layers tup -> exists s, score_prefix mws tup = Some s.
Proof.
  intros Hd. unfold score_prefix.
  destruct tup as [|i0 ds] eqn:Htup; [eexists; reflexivity|]. rewrite <- Htup in *.
  destruct (Z.geb_spec (last (idxs_of tup) i0) n) as [_|Hlast];
    [eexists; reflexivity|].
  destruct (drawn_gather tup i0 ds Htup Hd Hlast) as (win & Hw & _).
  rewrite Hw. cbn [obind].
  destruct (length (idxs_of tup) =? 5)%nat.
  - destruct (RulesP5.is_valid_impulse_from_monowaves_meta win) as [ok m].
    destruct (negb ok); eexists; reflexivity.
  - destruct (2 <=? length (idxs_of tup))%nat; [|eexists; reflexivity].
    destruct (existsb _ _); [eexists; reflexivity|].
    destruct (alternates _ _ _); eexists; reflexivity.
Qed.
End WithMonowaves.
End ScanFacts.

Lemma score_impulse_reads_legs_and_flag p q cfg :
  Model.legs p = Model.legs q ->
  Model.w4_overlap (Model.meta p) = Model.w4_overlap (Model.meta q) ->
  Scorer.score_impulse p cfg = Scorer.score_impulse q cfg.
Proof.
  intros Hl Hf.
  unfold Scorer.score_impulse, Model.pattern_end_idx, Model.pattern_start_idx.
  rewrite Hl, Hf. reflexivity.
Qed.

Lemma valid_meta_has_flag win m :
  RulesP5.is_valid_impulse_from_monowaves_meta win = (true, m) ->
  exists flag, Model.w4_overlap m = Some flag.
Proof.
  unfold RulesP5.is_valid_impulse_from_monowaves_meta.
  destruct win as [|m0 [|m1 [|m2 [|m3 [|m4 [|m5 rest]]]]]]; try discriminate.
  destruct (existsb _ _); [discriminate|].
  destruct (negb _); [discriminate|].
  destruct (if (RulesP5._dir m0 =? 1)%Z then _ else _); [discriminate|].
  destruct (Rleb _ _); [discriminate|].
  intros H. inversion H; subst. eexists. reflexivity.
Qed.

Lemma nms_loop_length_le {T : Type} span_fn thr max_keep (ordered : list T) :
  forall kept,
    (length (Pruner.nms_loop T span_fn thr max_keep ordered kept)
     <= length kept + length ordered)%nat.
Proof.
  induction ordered as [|it rest IH]; intros kept; simpl; [lia|].
  destruct (Pruner.suppressed T span_fn thr (span_fn it) kept).
  - specialize (IH kept). lia.
  - destruct (_ >=? max_keep)%Z.
    + rewrite length_app. simpl. lia.
    + specialize (IH (kept ++ [it])). rewrite length_app in IH. simpl in IH. lia.
Qed.

Lemma build_monowaves_length swings cfg :
  (length (Monowave.build_monowaves_from_swings swings cfg)
   <= length swings - 1)%nat.
Proof.
  destruct (Nat.ltb_spec (length swings) 2) as [Hshort|Hlong].
  - unfold Monowave.build_monowaves_from_swings.
    rewrite (proj2 (Nat.ltb_lt _ _) Hshort). simpl. lia.
  - rewrite (build_monowaves_unfold swings cfg Hlong).
    eapply Nat.le_trans; [apply filter_length_le|].
    rewrite length_map, consecutive_length.
    pose proof (downsample_length (Z.to_nat (Z.max 1 (Monowave.skip cfg + 1)))
                                  (Monowave.sort_by_idx swings)) as Hd.
    rewrite sort_by_idx_length in Hd.
    assert (1 <= Z.to_nat (Z.max 1 (Monowave.skip cfg + 1)))%nat by lia. lia.
Qed.

Section ScanPatterns.
Import Model Analyzer Scan.
Variable mws : list MonoWave.
Variable max_gap : Z.

Local Abbreviation n := (Z.of_nat (length mws)).
Local Abbreviation layers := (_layers n max_gap).

Lemma pattern_of_tuple_defined tup :
  drawn layers tup ->
  exists r,
    pattern_of_tuple mws tup = Some r
    /\ forall p, r = Some p -> scan_pattern mws p.
Proof.
  intros Hd. unfold pattern_of_tuple.
  destruct (Nat.eqb_spec (length tup) 5) as [Hlen|Hlen]; cbn [negb];
    [|exists None; split; [reflexivity | discriminate]].
  destruct (Z.geb_spec (last (idxs_of tup) 0%Z) n) as [_|Hlast];
    [exists None; split; [reflexivity | discriminate]|].
  destruct tup as [|i0 ds] eqn:Htup; [discriminate Hlen|]. rewrite <- Htup in *.
  assert (last (idxs_of tup) i0 < n)%Z as Hlast'.
  { rewrite Htup in *. unfold idxs_of in *.
    rewrite (last_cons_default i0 (running i0 ds) i0 0%Z). exact Hlast. }
  destruct (drawn_gather mws max_gap tup i0 ds Htup Hd Hlast')
    as (win & Hw & Hwlen & Hin).
  rewrite Hw. cbn [obind].
  destruct (RulesP5.is_valid_impulse_from_monowaves_meta win) as [ok m] eqn:Hv.
  destruct ok; cbn [negb]; [|exists None; split; [reflexivity | discriminate]].
  eexists. split; [reflexivity|]. intros p Hp. inversion Hp; subst p. clear Hp.
  destruct (valid_meta_has_flag win m Hv) as [flag Hflag].
  assert (score_impulse_eq :
            Scorer.score_impulse (scored_pattern win m) Scorer.default_ScoreConfig
            = Scorer.score_impulse (pattern_of win m) Scorer.default_ScoreConfig)
    by (apply score_impulse_reads_legs_and_flag; reflexivity).
  exists win. split; [exact Hin|]. split; [lia|]. split.
  { unfold RulesP5.is_valid_impulse_from_monowaves. rewrite Hv. reflexivity. }
  split; [reflexivity|]. split; [reflexivity|].
  split; [exists flag; exact Hflag|].
  rewrite score_impulse_eq. split; reflexivity.
Qed.

Lemma collect_defined tups :
  Forall (drawn layers) tups ->
  exists ps,
    collect mws tups = Some ps
    /\ Forall (scan_pattern mws) ps
    /\ (length ps <= length tups)%nat.
Proof.
  induction 1 as [|tup rest Htup _ IH]; simpl.
  - exists []. repeat split; constructor.
  - destruct (pattern_of_tuple_defined tup Htup) as (r & Hr & Hgood).
    destruct IH as (ps & Hps & Hall & Hlen).
    rewrite Hr, Hps. cbn [obind]. eexists. split; [reflexivity|].
    destruct r as [p|]; split; simpl; try lia; try exact Hall.
    constructor; [apply Hgood; reflexivity | exact Hall].
Qed.
End ScanPatterns.

(** What a scan returns, and that it returns. *)
Lemma scan_result swings cfg :
  let mws := Monowave.build_monowaves_from_swings
               swings
               (Monowave.mkMonoWaveConfig (Analyzer.monowave_skip cfg)
                                          (Analyzer.min_leg_abs_move cfg)) in
  exists patterns,
    Scan.scan_impulses_from_swings swings cfg = Some patterns
    /\ ((length mws < 5)%nat -> patterns = [])
    /\ Forall (scan_pattern mws) patterns
    /\ StronglySorted (key_desc Scan.score_of) patterns
    /\ ForallOrdPairs
         (fun a b =>
            Pruner.overlap_ratio
              (Model.pattern_start_idx a, Model.pattern_end_idx a)
              (Model.pattern_start_idx b, Model.pattern_end_idx b)
            < Analyzer.nms_overlap cfg) patterns
    /\ ((0 <= Analyzer.max_patterns cfg)%Z ->
        (Z.of_nat (length patterns) <= Analyzer.max_patterns cfg)%Z).
Proof.
  intros mws. unfold Scan.scan_impulses_from_swings. fold mws.
  destruct (Z.ltb_spec (Z.of_nat (length mws)) 5) as [Hfew|Hmany].
  - exists []. split; [reflexivity|]. split; [reflexivity|].
    split; [constructor|]. split; [constructor|]. split; [constructor|].
    simpl. lia.
  - set (layers := Analyzer._layers (Z.of_nat (length mws)) (Analyzer.max_gap cfg)).
    set (bcfg := Pruner.mkBeamConfig _ _ _).
    pose proof (beam_search_run_shape Z (Scan.score_or_zero mws) bcfg layers) as Hshape.
    destruct (Pruner.beam_search_run Z (Scan.score_or_zero mws) bcfg layers)
      as [[tuples_scores gen] calls].
    destruct Hshape as (Hcalls & Hout & _ & _ & _ & Hcount).
    assert (forallb (fun tup => match Scan.score_prefix mws tup with
                                | Some _ => true
                                | None => false
                                end) calls = true) as Hok.
    { apply forallb_forall. intros tup Htup. rewrite Forall_forall in Hcalls.
      destruct (score_prefix_defined mws (Analyzer.max_gap cfg) tup (Hcalls tup Htup))
        as [s ->]. reflexivity. }
    rewrite Hok.
    destruct (collect_defined mws (Analyzer.max_gap cfg) (map fst tuples_scores))
      as (ps & Hps & Hgood & Hlen).
    { apply Forall_forall. intros tup Htup.
      apply in_map_iff in Htup as (e & <- & He).
      rewrite Forall_forall in Hout. apply (Hout e He). }
    rewrite Hps. cbn [obind]. eexists. split; [reflexivity|].
    split; [intros; lia|]. split; [|split; [|split]].
    + apply Forall_forall. intros p Hp. unfold Pruner.nms_by_span in Hp.
      apply nms_loop_incl in Hp as [[]|Hp]. apply sort_desc_In in Hp.
      rewrite Forall_forall in Hgood. apply Hgood. exact Hp.
    + apply nms_loop_sorted. rewrite app_nil_l. apply sort_desc_sorted.
    + apply (nms_loop_apart Model.WavePattern
               (fun p => (Model.pattern_start_idx p, Model.pattern_end_idx p))
               (Analyzer.nms_overlap cfg) (Analyzer.max_patterns cfg)).
      constructor.
    + intros Hpos. specialize (Hcount Hpos).
      subst bcfg. cbn [Pruner.max_patterns] in Hcount.
      unfold Pruner.nms_by_span.
      pose proof (nms_loop_length_le
                    (fun p => (Model.pattern_start_idx p, Model.pattern_end_idx p))
                    (Analyzer.nms_overlap cfg) (Analyzer.max_patterns cfg)
                    (sort_desc Scan.score_of ps) []) as Hn.
      rewrite sort_desc_length in Hn. rewrite length_map in Hlen. simpl in Hn.
      apply Z.le_trans with (Z.of_nat (length tuples_scores)); [|exact Hcount].
      apply Nat2Z.inj_le. eapply Nat.le_trans; [exact Hn | exact Hlen].
Qed.

(** X22: a scan never ends in an [IndexError]: every tuple the beam
    search scores, and every tuple it returns, addresses monowaves that
    exist.  From fewer than six swing points the scan returns no
    pattern. *)
Theorem scan_never_raises :
  forall (swings : list Monowave.swing) (cfg : Analyzer.AnalyzerConfig),
  exists patterns,
    Scan.scan_impulses_from_swings swings cfg = Some patterns
    /\ ((length swings < 6)%nat -> patterns = []).
Proof.
  intros swings cfg.
  destruct (scan_result swings cfg) as (patterns & Hscan & Hfew & _).
  exists patterns. split; [exact Hscan|].
  intros Hlen. apply Hfew.
  pose proof (build_monowaves_length
                swings (Monowave.mkMonoWaveConfig (Analyzer.monowave_skip cfg)
                                                  (Analyzer.min_leg_abs_move cfg))).
  lia.
Qed.

Lemma scan_never_raises_witness :
  Scan.scan_impulses_from_swings
    [(0%Z, 100); (4%Z, 110); (9%Z, 104)]
    (Analyzer.mkAnalyzerConfig 1 0 1 256 5000 50 0.7) = Some [].
Proof.
  destruct (scan_never_raises
              [(0%Z, 100); (4%Z, 110); (9%Z, 104)]
              (Analyzer.mkAnalyzerConfig 1 0 1 256 5000 50 0.7))
    as (patterns & Hscan & Hfew).
  rewrite Hscan. f_equal. apply Hfew. simpl. lia.
Defined.

(** X23: every pattern a scan returns has as legs five of the scan's
    monowaves that pass the validator, and carries in its metadata the
    overlap flag, its own score and the confidence of that score; the
    patterns come by non-increasing score, any two of them overlap by
    less than [nms_overlap], and there are at most [max_patterns] of
    them when that is not negative. *)
Theorem scan_returns_scored_impulses :
  forall (swings : list Monowave.swing) (cfg : Analyzer.AnalyzerConfig)
         (patterns : list Model.WavePattern),
    Scan.scan_impulses_from_swings swings cfg = Some patterns ->
    Forall (scan_pattern
              (Monowave.build_monowaves_from_swings
                 swings
                 (Monowave.mkMonoWaveConfig (Analyzer.monowave_skip cfg)
                                            (Analyzer.min_leg_abs_move cfg))))
           patterns
    /\ StronglySorted (key_desc Scan.score_of) patterns
    /\ (forall i j a b, i <> j ->
          nth_error patterns i = Some a -> nth_error patterns j = Some b ->
          Pruner.overlap_ratio
            (Model.pattern_start_idx a, Model.pattern_end_idx a)
            (Model.pattern_start_idx b, Model.pattern_end_idx b)
          < Analyzer.nms_overlap cfg)
    /\ ((0 <= Analyzer.max_patterns cfg)%Z ->
        (Z.of_nat (length patterns) <= Analyzer.max_patterns cfg)%Z).
Proof.
  intros swings cfg patterns Hscan.
  destruct (scan_result swings cfg) as (ps & Hps & _ & Hgood & Hsorted & Hpairs & Hn).
  rewrite Hps in Hscan. inversion Hscan; subst ps.
  split; [exact Hgood|]. split; [exact Hsorted|]. split; [|exact Hn].
  intros i j a b Hij Hi Hj.
  destruct (Nat.lt_ge_cases i j) as [Hlt|Hge].
  - exact (FOP_nth _ _ Hpairs i j a b Hlt Hi Hj).
  - rewrite overlap_ratio_sym.
    apply (FOP_nth _ _ Hpairs j i b a); [lia | assumption | assumption].
Qed.

Lemma scan_returns_scored_impulses_witness :
  exists patterns,
    Scan.scan_impulses_from_swings
      [(0%Z, 100); (1%Z, 110); (2%Z, 107); (3%Z, 119); (4%Z, 115); (5%Z, 124)]
      (Analyzer.mkAnalyzerConfig 0 0 1 256 5000 50 0.7) = Some patterns
    /\ (Z.of_nat (length patterns) <= 50)%Z.
Proof.
  destruct (scan_result
              [(0%Z, 100); (1%Z, 110); (2%Z, 107); (3%Z, 119); (4%Z, 115); (5%Z, 124)]
              (Analyzer.mkAnalyzerConfig 0 0 1 256 5000 50 0.7))
    as (patterns & Hscan & _).
  exists patterns. split; [exact Hscan|].
  apply (proj2 (proj2 (proj2 (scan_returns_scored_impulses _ _ _ Hscan)))).
  simpl. lia.
Defined.

(** ** The best pattern of a scan *)

Lemma py_max_by_spec {A : Type} (key : A -> R) xs :
  forall best,
    In (Batch.py_max_by key best xs) (best :: xs)
    /\ forall y, In y (best :: xs) -> key y <= key (Batch.py_max_by key best xs).
Proof.
  induction xs as [|x xs IH]; intros best; simpl.
  - split; [left; reflexivity | intros y [<-|[]]; lra].
  - destruct (Rltb (key best) (key x)) eqn:E.
    + apply Rltb_true in E. destruct (IH x) as [Hin Hmax]. split.
      * destruct Hin as [<-|Hin]; [right; left; reflexivity | right; right; exact Hin].
      * intros y [<-|[<-|Hy]].
        -- specialize (Hmax x (or_introl eq_refl)). lra.
        -- apply Hmax. left. reflexivity.
        -- apply Hmax. right. exact Hy.
    + apply Rltb_false in E. destruct (IH best) as [Hin Hmax]. split.
      * destruct Hin as [<-|Hin]; [left; reflexivity | right; right; exact Hin].
      * intros y [<-|[<-|Hy]].
        -- apply Hmax. left. reflexivity.
        -- specialize (Hmax best (or_introl eq_refl)). lra.
        -- apply Hmax. right. exact Hy.
Qed.

(** X24: for a non-empty pattern list [summarize_patterns] returns the
    score and confidence of one of the patterns, whose score no pattern
    exceeds; and when every pattern's confidence is the confidence of
    its score, as in a scan's result, no pattern exceeds the returned
    confidence either. *)
Theorem summarize_patterns_best :
  forall patterns : list Model.WavePattern,
    patterns <> [] ->
    exists best,
      In best patterns
      /\ Batch.summarize_patterns patterns
         = (Scan.score_of best, Batch.confidence_of best)
      /\ (forall p, In p patterns -> Scan.score_of p <= Scan.score_of best)
      /\ ((forall p, In p patterns ->
             Batch.confidence_of p
             = Scorer.confidence_from_score (Scan.score_of p)) ->
          forall p, In p patterns ->
            Batch.confidence_of p <= snd (Batch.summarize_patterns patterns)).
Proof.
  intros [|p0 rest] Hne; [congruence|].
  destruct (py_max_by_spec Scan.score_of rest p0) as [Hin Hmax].
  exists (Batch.py_max_by Scan.score_of p0 rest).
  split; [exact Hin|]. split; [reflexivity|]. split; [exact Hmax|].
  intros Hconf p Hp. simpl.
  rewrite (Hconf p Hp), (Hconf _ Hin).
  specialize (Hmax p Hp). destruct Hmax as [Hlt|Heq].
  - left. rewrite !confidence_is_logistic. apply logistic_increasing. lra.
  - rewrite Heq. lra.
Qed.

Lemma summarize_patterns_best_witness :
  exists best,
    In best [low_confidence_pattern; six_leg_pattern]
    /\ forall p, In p [low_confidence_pattern; six_leg_pattern] ->
                 Scan.score_of p <= Scan.score_of best.
Proof.
  destruct (summarize_patterns_best [low_confidence_pattern; six_leg_pattern])
    as (best & Hin & _ & Hmax & _); [discriminate|].
  exists best. split; assumption.
Defined.

(** ** Rising and falling markets *)

Section MirrorFacts.
Import Model RulesP5.
Variable c : R.

Lemma Rltb_mirror a b : Rltb (c - a) (c - b) = Rltb b a.
Proof.
  destruct (Rltb (c - a) (c - b)) eqn:E1, (Rltb b a) eqn:E2;
    try reflexivity; exfalso.
  - apply Rltb_true in E1. apply Rltb_false in E2. lra.
  - apply Rltb_false in E1. apply Rltb_true in E2. lra.
Qed.

Lemma Rleb_mirror a b : Rleb (c - a) (c - b) = Rleb b a.
Proof.
  destruct (Rleb (c - a) (c - b)) eqn:E1, (Rleb b a) eqn:E2;
    try reflexivity; exfalso.
  - apply Rleb_true in E1. apply Rleb_false in E2. lra.
  - apply Rleb_false in E1. apply Rleb_true in E2. lra.
Qed.

Lemma dir_cases mw :
  mw_direction mw = 1%Z \/ mw_direction mw = (-1)%Z \/ mw_direction mw = 0%Z.
Proof.
  unfold mw_direction.
  destruct (Rltb _ _); [auto|]. destruct (Rltb _ _); auto.
Qed.

Lemma dir_mirror mw : mw_direction (mirror c mw) = (- mw_direction mw)%Z.
Proof.
  unfold mw_direction, mirror. cbn [mw_start_px mw_end_px].
  rewrite !Rltb_mirror.
  destruct (Rltb (mw_end_px mw) (mw_start_px mw)) eqn:E1,
           (Rltb (mw_start_px mw) (mw_end_px mw)) eqn:E2; try reflexivity.
  apply Rltb_true in E1. apply Rltb_true in E2. lra.
Qed.

Lemma abs_move_mirror mw : mw_abs_move (mirror c mw) = mw_abs_move mw.
Proof.
  unfold mw_abs_move, mirror. cbn [mw_start_px mw_end_px].
  replace (c - mw_end_px mw - (c - mw_start_px mw))
    with (- (mw_end_px mw - mw_start_px mw)) by lra.
  apply Rabs_Ropp.
Qed.

Lemma zero_among_opp ds :
  existsb (Z.eqb 0) (map Z.opp ds) = existsb (Z.eqb 0) ds.
Proof.
  induction ds as [|d ds IH]; [reflexivity|]. simpl. rewrite IH.
  f_equal. destruct d; reflexivity.
Qed.

Lemma map_opp_inj (a : list Z) :
  forall b, map Z.opp a = map Z.opp b -> a = b.
Proof.
  induction a as [|x a IH]; intros [|y b] E; try discriminate; [reflexivity|].
  simpl in E. injection E as Hxy Hab. f_equal; [lia | apply IH; exact Hab].
Qed.

Lemma Z_list_eqb_opp a b :
  Z_list_eqb (map Z.opp a) (map Z.opp b) = Z_list_eqb a b.
Proof.
  unfold Z_list_eqb.
  destruct (list_eq_dec Z.eq_dec (map Z.opp a) (map Z.opp b)) as [E1|N1],
           (list_eq_dec Z.eq_dec a b) as [E2|N2]; try reflexivity; exfalso.
  - apply N2, map_opp_inj, E1.
  - apply N1. now rewrite E2.
Qed.

Lemma is_valid_meta_mirror mws :
  is_valid_impulse_from_monowaves_meta (map (mirror c) mws)
  = is_valid_impulse_from_monowaves_meta mws.
Proof.
  destruct mws as [|m0 [|m1 [|m2 [|m3 [|m4 [|m5 rest]]]]]]; try reflexivity.
  unfold is_valid_impulse_from_monowaves_meta.
  cbn [map]. unfold _dir, _abs_move. rewrite !dir_mirror, !abs_move_mirror.
  change [(- mw_direction m0)%Z; (- mw_direction m1)%Z; (- mw_direction m2)%Z;
          (- mw_direction m3)%Z; (- mw_direction m4)%Z]
    with (map Z.opp [mw_direction m0; mw_direction m1; mw_direction m2;
                     mw_direction m3; mw_direction m4]).
  rewrite zero_among_opp.
  destruct (existsb _ _) eqn:Hz; [reflexivity|].
  change [(- mw_direction m0)%Z; (- - mw_direction m0)%Z; (- mw_direction m0)%Z;
          (- - mw_direction m0)%Z; (- mw_direction m0)%Z]
    with (map Z.opp [mw_direction m0; (- mw_direction m0)%Z; mw_direction m0;
                     (- mw_direction m0)%Z; mw_direction m0]).
  rewrite Z_list_eqb_opp.
  destruct (negb _); [reflexivity|].
  cbn [mirror mw_start_px mw_end_px].
  destruct (dir_cases m0) as [H|[H|H]]; rewrite H in *.
  - cbn [Z.opp Z.eqb Pos.eqb]. rewrite Rleb_mirror.
    destruct (Rleb _ _); [reflexivity|].
    destruct (Rleb _ _); [reflexivity|].
    rewrite Rltb_mirror. reflexivity.
  - cbn [Z.opp Z.eqb Pos.eqb]. rewrite Rleb_mirror.
    destruct (Rleb _ _); [reflexivity|].
    destruct (Rleb _ _); [reflexivity|].
    rewrite Rltb_mirror. reflexivity.
  - simpl in Hz. discriminate.
Qed.
End MirrorFacts.

(** X25: the validator treats rising and falling impulses alike:
    reflecting every price of a window ([p] becomes [c - p]) changes
    neither the verdict nor the wave-4 overlap flag. *)
Theorem validator_mirror_symmetric :
  forall (c : R) (mws : list Model.MonoWave),
    RulesP5.is_valid_impulse_from_monowaves (map (mirror c) mws)
    = RulesP5.is_valid_impulse_from_monowaves mws
    /\ Model.w4_overlap
         (snd (RulesP5.is_valid_impulse_from_monowaves_meta (map (mirror c) mws)))
       = Model.w4_overlap
           (snd (RulesP5.is_valid_impulse_from_monowaves_meta mws)).
Proof.
  intros c mws. unfold RulesP5.is_valid_impulse_from_monowaves.
  rewrite is_valid_meta_mirror. split; reflexivity.
Qed.

Section MapFacts.
Context {A B : Type} (f : A -> B).

Lemma last_map_comm l d : last (map f l) (f d) = f (last l d).
Proof.
  induction l as [|x l IH]; [reflexivity|].
  destruct l as [|y l]; [reflexivity|].
  change (last (map f (x :: y :: l)) (f d)) with (last (map f (y :: l)) (f d)).
  rewrite IH. reflexivity.
Qed.

Lemma stride_from_map step l :
  forall k, Monowave.stride_from step k (map f l)
            = map f (Monowave.stride_from step k l).
Proof.
  induction l as [|x l IH]; intros k; [reflexivity|].
  destruct k; simpl; rewrite IH; reflexivity.
Qed.

Lemma consecutive_map l :
  Monowave.consecutive (map f l)
  = map (fun ab => (f (fst ab), f (snd ab))) (Monowave.consecutive l).
Proof.
  induction l as [|a l IH]; [reflexivity|].
  destruct l as [|b l]; [reflexivity|].
  change (Monowave.consecutive (map f (a :: b :: l)))
    with ((f a, f b) :: Monowave.consecutive (map f (b :: l))).
  rewrite IH. reflexivity.
Qed.

Lemma filter_map_comm (P : B -> bool) l :
  filter P (map f l) = map f (filter (fun x => P (f x)) l).
Proof.
  induction l as [|x l IH]; [reflexivity|].
  simpl. rewrite IH. destruct (P (f x)); reflexivity.
Qed.

Lemma py_index_map l i :
  Scan.py_index (map f l) i = option_map f (Scan.py_index l i).
Proof.
  unfold Scan.py_index. rewrite length_map, !nth_error_map.
  destruct (0 <=? i)%Z; [reflexivity|].
  destruct (_ <=? i)%Z; reflexivity.
Qed.

Lemma gather_map l idxs :
  Scan.gather (map f l) idxs = option_map (map f) (Scan.gather l idxs).
Proof.
  induction idxs as [|i rest IH]; [reflexivity|].
  simpl. rewrite py_index_map, IH.
  destruct (Scan.py_index l i); [|reflexivity].
  destruct (Scan.gather l rest); reflexivity.
Qed.

Lemma insert_desc_map (key : B -> R) x l :
  insert_desc key (f x) (map f l)
  = map f (insert_desc (fun a => key (f a)) x l).
Proof.
  induction l as [|y l IH]; [reflexivity|].
  simpl. destruct (Rlt_dec _ _); simpl; [rewrite IH|]; reflexivity.
Qed.

Lemma sort_desc_map (key : B -> R) l :
  sort_desc key (map f l) = map f (sort_desc (fun a => key (f a)) l).
Proof.
  induction l as [|x l IH]; [reflexivity|].
  unfold sort_desc in *. cbn [map fold_right]. rewrite IH. apply insert_desc_map.
Qed.
End MapFacts.

Section SortExt.
Context {A : Type} (key key' : A -> R).
Hypothesis same_key : forall x, key x = key' x.

Lemma insert_desc_ext x l : insert_desc key x l = insert_desc key' x l.
Proof.
  induction l as [|y l IH]; [reflexivity|].
  simpl. rewrite !same_key, IH. reflexivity.
Qed.

Lemma sort_desc_ext l : sort_desc key l = sort_desc key' l.
Proof.
  induction l as [|x l IH]; [reflexivity|].
  unfold sort_desc in *. cbn [fold_right]. rewrite IH. apply insert_desc_ext.
Qed.
End SortExt.

Section BeamExt.
Import Pruner.
Variable T : Type.
Variables score_fn score_fn' : list T -> R.
Variable cfg : BeamConfig.
Hypothesis same : forall t, score_fn t = score_fn' t.

Lemma expand_prefix_ext prefix layer :
  forall st, expand_prefix T score_fn cfg prefix layer st
             = expand_prefix T score_fn' cfg prefix layer st.
Proof.
  induction layer as [|item rest IH]; intros st; [reflexivity|].
  simpl. rewrite same. destruct (_ >=? _)%Z; [reflexivity | apply IH].
Qed.

Lemma expand_beam_ext beam layer :
  forall st, expand_beam T score_fn cfg beam layer st
             = expand_beam T score_fn' cfg beam layer st.
Proof.
  induction beam as [|[prefix sc] rest IH]; intros st; [reflexivity|].
  simpl. rewrite expand_prefix_ext.
  destruct (_ >=? _)%Z; [reflexivity | apply IH].
Qed.

Lemma run_layers_ext layers :
  forall beam gen log,
    run_layers T score_fn cfg layers beam gen log
    = run_layers T score_fn' cfg layers beam gen log.
Proof.
  induction layers as [|layer rest IH]; intros beam gen log; [reflexivity|].
  simpl. rewrite expand_beam_ext.
  destruct (_ >=? _)%Z; [reflexivity | apply IH].
Qed.

Lemma beam_search_run_ext layers :
  beam_search_run T score_fn cfg layers
  = beam_search_run T score_fn' cfg layers.
Proof. unfold beam_search_run. rewrite run_layers_ext. reflexivity. Qed.
End BeamExt.

Section NMSMap.
Import Pruner.
Context {T : Type} (f : T -> T).
Variable span_fn : T -> Z * Z.
Variable score_fn : T -> R.
Variable overlap_thresh : R.
Variable max_keep : Z.
Hypothesis same_span : forall x, span_fn (f x) = span_fn x.
Hypothesis same_score : forall x, score_fn (f x) = score_fn x.

Lemma suppressed_map sp kept :
  suppressed T span_fn overlap_thresh sp (map f kept)
  = suppressed T span_fn overlap_thresh sp kept.
Proof.
  unfold suppressed. induction kept as [|k kept IH]; [reflexivity|].
  simpl. rewrite IH, same_span. reflexivity.
Qed.

Lemma nms_loop_map ordered :
  forall kept,
    nms_loop T span_fn overlap_thresh max_keep (map f ordered) (map f kept)
    = map f (nms_loop T span_fn overlap_thresh max_keep ordered kept).
Proof.
  induction ordered as [|it rest IH]; intros kept; [reflexivity|].
  simpl. rewrite same_span, suppressed_map.
  destruct (suppressed _ _ _ _ _); [apply IH|].
  rewrite !length_app, !length_map. simpl.
  destruct (_ >=? _)%Z.
  - rewrite map_app. reflexivity.
  - change (map f kept ++ [f it]) with (map f kept ++ map f [it]).
    rewrite <- map_app. apply IH.
Qed.

Lemma nms_by_span_map items :
  nms_by_span T span_fn score_fn overlap_thresh max_keep (map f items)
  = map f (nms_by_span T span_fn score_fn overlap_thresh max_keep items).
Proof.
  unfold nms_by_span. rewrite sort_desc_map.
  replace (sort_desc (fun a => score_fn (f a)) items)
    with (sort_desc score_fn items).
  - apply (nms_loop_map _ []).
  - apply sort_desc_ext. intros x. symmetry. apply same_score.
Qed.
End NMSMap.

Section ScanMirror.
Import Model Monowave Analyzer.
Variable c : R.

Local Abbreviation ms := (mirror_swing c).

Lemma insert_by_idx_mirror x l :
  insert_by_idx (ms x) (map ms l) = map ms (insert_by_idx x l).
Proof.
  induction l as [|y l IH]; [reflexivity|].
  simpl. destruct (fst y <? fst x)%Z; simpl; [rewrite IH|]; reflexivity.
Qed.

Lemma sort_by_idx_mirror l : sort_by_idx (map ms l) = map ms (sort_by_idx l).
Proof.
  induction l as [|x l IH]; [reflexivity|].
  unfold sort_by_idx in *. cbn [map fold_right]. rewrite IH.
  apply insert_by_idx_mirror.
Qed.

Lemma swing_eqb_mirror a b : swing_eqb (ms a) (ms b) = swing_eqb a b.
Proof.
  unfold swing_eqb, mirror_swing. cbn [fst snd]. f_equal.
  destruct (Req_dec_T (c - snd a) (c - snd b)), (Req_dec_T (snd a) (snd b));
    try reflexivity; exfalso; lra.
Qed.

Lemma downsample_mirror step pts :
  downsample step (map ms pts) = map ms (downsample step pts).
Proof.
  unfold downsample, stride. rewrite stride_from_map.
  destruct pts as [|p ps]; [reflexivity|].
  cbn [map]. rewrite !last_map_comm, swing_eqb_mirror.
  destruct (swing_eqb _ _); [reflexivity|].
  rewrite map_app. reflexivity.
Qed.

Lemma build_monowaves_mirror swings cfg :
  build_monowaves_from_swings (map ms swings) cfg
  = map (mirror c) (build_monowaves_from_swings swings cfg).
Proof.
  unfold build_monowaves_from_swings. rewrite length_map.
  destruct (length swings <? 2)%nat; [reflexivity|].
  rewrite sort_by_idx_mirror, downsample_mirror, consecutive_map, map_map.
  set (L := consecutive _).
  set (g := fun ab : swing * swing =>
              mkMonoWave (fst (fst ab)) (fst (snd ab)) (snd (fst ab)) (snd (snd ab))).
  replace (map _ L) with (map (mirror c) (map g L))
    by (rewrite map_map; apply map_ext; intros ab; reflexivity).
  rewrite filter_map_comm.
  f_equal. apply filter_ext. intros mw. rewrite abs_move_mirror. reflexivity.
Qed.

Lemma mw_to_leg_mirror mw : _mw_to_leg (mirror c mw) = mirror_leg c (_mw_to_leg mw).
Proof. reflexivity. Qed.

Lemma pattern_of_mirror win m :
  Scan.pattern_of (map (mirror c) win) m
  = mirror_pattern c (Scan.pattern_of win m).
Proof.
  unfold Scan.pattern_of, mirror_pattern. cbn [kind legs meta].
  rewrite !map_map. reflexivity.
Qed.

Lemma pattern_span_mirror p :
  pattern_start_idx (mirror_pattern c p) = pattern_start_idx p
  /\ pattern_end_idx (mirror_pattern c p) = pattern_end_idx p.
Proof.
  unfold pattern_start_idx, pattern_end_idx, mirror_pattern. cbn [legs].
  destruct (legs p) as [|l ls]; [split; reflexivity|].
  cbn [map]. rewrite last_map_comm. split; reflexivity.
Qed.

Lemma score_impulse_mirror p cfg :
  Scorer.score_impulse (mirror_pattern c p) cfg = Scorer.score_impulse p cfg.
Proof.
  destruct (pattern_span_mirror p) as [Hs He].
  unfold Scorer.score_impulse. rewrite Hs, He.
  cbn [mirror_pattern legs meta]. rewrite map_map.
  replace (map (fun x => Rabs (end_px (mirror_leg c x) - start_px (mirror_leg c x)))
               (legs p))
    with (map (fun l => Rabs (end_px l - start_px l)) (legs p)); [reflexivity|].
  apply map_ext. intros l. unfold mirror_leg. cbn [start_px end_px].
  replace (c - end_px l - (c - start_px l)) with (- (end_px l - start_px l)) by lra.
  symmetry. apply Rabs_Ropp.
Qed.

Lemma scored_pattern_mirror win m :
  Scan.scored_pattern (map (mirror c) win) m
  = mirror_pattern c (Scan.scored_pattern win m).
Proof.
  unfold Scan.scored_pattern. rewrite pattern_of_mirror, score_impulse_mirror.
  reflexivity.
Qed.

Lemma alternates_opp ds :
  forall s k, Scan.alternates (- s) k (map Z.opp ds) = Scan.alternates s k ds.
Proof.
  induction ds as [|d ds IH]; intros s k; [reflexivity|].
  cbn [map Scan.alternates]. rewrite IH.
  replace (- d =? (if Nat.even k then - s else - - s))%Z
    with (d =? (if Nat.even k then s else - s))%Z; [reflexivity|].
  destruct (Nat.even k);
    destruct (Z.eqb_spec d s), (Z.eqb_spec (- d) (- s)),
             (Z.eqb_spec d (- s)), (Z.eqb_spec (- d) (- - s));
    try reflexivity; lia.
Qed.

Variable mws : list MonoWave.

Lemma score_prefix_mirror tup :
  Scan.score_prefix (map (mirror c) mws) tup = Scan.score_prefix mws tup.
Proof.
  unfold Scan.score_prefix. rewrite length_map.
  destruct tup as [|i0 ds] eqn:Htup; [reflexivity|]. rewrite <- Htup.
  destruct (_ >=? _)%Z; [reflexivity|].
  rewrite gather_map.
  destruct (length (Scan.idxs_of tup) =? 5)%nat.
  - destruct (Scan.gather mws (Scan.idxs_of tup)) as [win|]; [|reflexivity].
    cbn [option_map obind]. rewrite is_valid_meta_mirror.
    destruct (RulesP5.is_valid_impulse_from_monowaves_meta win) as [ok m].
    destruct (negb ok); [reflexivity|].
    rewrite pattern_of_mirror, score_impulse_mirror. reflexivity.
  - destruct (2 <=? _)%nat; [|reflexivity].
    destruct (Scan.gather mws (Scan.idxs_of tup)) as [win|]; [|reflexivity].
    cbn [option_map obind].
    replace (map mw_direction (map (mirror c) win))
      with (map Z.opp (map mw_direction win)).
    + rewrite zero_among_opp.
      destruct (existsb _ _); [reflexivity|].
      replace (hd 0%Z (map Z.opp (map mw_direction win)))
        with (- hd 0%Z (map mw_direction win))%Z
        by (destruct win; reflexivity).
      rewrite alternates_opp. reflexivity.
    + rewrite !map_map. apply map_ext. intros mw. symmetry. apply dir_mirror.
Qed.

Lemma score_or_zero_mirror tup :
  Scan.score_or_zero (map (mirror c) mws) tup = Scan.score_or_zero mws tup.
Proof. unfold Scan.score_or_zero. rewrite score_prefix_mirror. reflexivity. Qed.

Lemma pattern_of_tuple_mirror tup :
  Scan.pattern_of_tuple (map (mirror c) mws) tup
  = option_map (option_map (mirror_pattern c)) (Scan.pattern_of_tuple mws tup).
Proof.
  unfold Scan.pattern_of_tuple. rewrite length_map.
  destruct (negb _); [reflexivity|].
  destruct (_ >=? _)%Z; [reflexivity|].
  rewrite gather_map.
  destruct (Scan.gather mws (Scan.idxs_of tup)) as [win|]; [|reflexivity].
  cbn [option_map obind]. rewrite is_valid_meta_mirror.
  destruct (RulesP5.is_valid_impulse_from_monowaves_meta win) as [ok m].
  destruct (negb ok); [reflexivity|].
  rewrite scored_pattern_mirror. reflexivity.
Qed.

Lemma collect_mirror tups :
  Scan.collect (map (mirror c) mws) tups
  = option_map (map (mirror_pattern c)) (Scan.collect mws tups).
Proof.
  induction tups as [|tup rest IH]; [reflexivity|].
  cbn [Scan.collect]. rewrite pattern_of_tuple_mirror, IH.
  destruct (Scan.pattern_of_tuple mws tup) as [[p|]|]; cbn [option_map obind];
    destruct (Scan.collect mws rest); reflexivity.
Qed.
End ScanMirror.

(** X26: the scan treats rising and falling markets alike.  With
    prices as real numbers, reflecting every swing price ([p] becomes
    [c - p]) makes the scan fail exactly when it failed before and
    otherwise return the same patterns, reflected: the same legs over
    the same bars with the same overlap flag, score and confidence, in
    the same order. *)
Theorem scan_mirror_symmetric :
  forall (c : R) (swings : list Monowave.swing) (cfg : Analyzer.AnalyzerConfig),
    Scan.scan_impulses_from_swings (map (mirror_swing c) swings) cfg
    = option_map (map (mirror_pattern c))
                 (Scan.scan_impulses_from_swings swings cfg).
Proof.
  intros c swings cfg. unfold Scan.scan_impulses_from_swings.
  rewrite build_monowaves_mirror.
  set (mws := Monowave.build_monowaves_from_swings swings _).
  rewrite length_map.
  destruct (_ <? 5)%Z; [reflexivity|].
  rewrite (beam_search_run_ext Z _ _ _ (score_or_zero_mirror c mws)).
  destruct (Pruner.beam_search_run Z (Scan.score_or_zero mws) _ _)
    as [[tuples_scores gen] calls].
  replace (forallb _ calls)
    with (forallb (fun tup => match Scan.score_prefix mws tup with
                              | Some _ => true
                              | None => false
                              end) calls).
  - destruct (forallb _ calls); [|reflexivity].
    rewrite collect_mirror.
    destruct (Scan.collect mws (map fst tuples_scores)) as [ps|]; [|reflexivity].
    cbn [option_map obind]. f_equal.
    apply nms_by_span_map.
    + intros p. destruct (pattern_span_mirror c p) as [Hs He].
      rewrite Hs, He. reflexivity.
    + intros p. reflexivity.
  - clear. induction calls as [|tup rest IH]; [reflexivity|].
    cbn [forallb]. rewrite IH, score_prefix_mirror. reflexivity.
Qed.

(** ** Penalised prefixes *)

Section PrefixPenalty.
Import Model Scan.

Lemma running_app a :
  forall acc b,
    running acc (a ++ b) = running acc a ++ running (last (running acc a) acc) b.
Proof.
  induction a as [|d a IH]; intros acc b; [reflexivity|].
  cbn [app running]. rewrite IH. f_equal. f_equal. f_equal.
  rewrite last_cons_last. reflexivity.
Qed.

Lemma idxs_of_app i0 ds ext :
  exists more, idxs_of ((i0 :: ds) ++ ext) = idxs_of (i0 :: ds) ++ more.
Proof.
  cbn [app idxs_of]. rewrite running_app. eexists. reflexivity.
Qed.

Lemma gather_app {A : Type} (l : list A) a :
  forall b win,
    gather l (a ++ b) = Some win ->
    exists w1 w2, gather l a = Some w1 /\ win = w1 ++ w2.
Proof.
  induction a as [|i a IH]; intros b win H.
  - exists [], win. split; reflexivity.
  - cbn [app gather] in *.
    destruct (py_index l i) as [x|]; [|discriminate]. cbn [obind] in *.
    destruct (gather l (a ++ b)) as [w|] eqn:Hw; [|discriminate].
    cbn [obind] in H. inversion H; subst win.
    destruct (IH b w Hw) as (w1 & w2 & H1 & ->).
    rewrite H1. cbn [obind]. exists (x :: w1), w2. split; reflexivity.
Qed.

Lemma gather_in_range {A : Type} (l : list A) idxs :
  forall win,
    gather l idxs = Some win ->
    Forall (fun i => (i < Z.of_nat (length l))%Z) idxs.
Proof.
  induction idxs as [|i rest IH]; intros win H; [constructor|].
  cbn [gather] in H.
  destruct (py_index l i) as [x|] eqn:Hx; [|discriminate]. cbn [obind] in H.
  destruct (gather l rest) as [w|] eqn:Hw; [|discriminate].
  constructor; [|eapply IH; reflexivity].
  unfold py_index in Hx.
  destruct (Z.leb_spec 0 i) as [Hi|Hi]; [|lia].
  assert (nth_error l (Z.to_nat i) <> None) as Hn by congruence.
  apply nth_error_Some in Hn. lia.
Qed.

Lemma gather_length {A : Type} (l : list A) idxs :
  forall win, gather l idxs = Some win -> length win = length idxs.
Proof.
  induction idxs as [|i rest IH]; intros win H.
  - inversion H. reflexivity.
  - cbn [gather] in H.
    destruct (py_index l i) as [x|]; [|discriminate]. cbn [obind] in H.
    destruct (gather l rest) as [w|]; [|discriminate].
    cbn [obind] in H. inversion H. simpl. f_equal. apply IH. reflexivity.
Qed.

Lemma valid_directions win m :
  RulesP5.is_valid_impulse_from_monowaves_meta win = (true, m) ->
  existsb (Z.eqb 0) (map mw_direction win) = false
  /\ exists s, map mw_direction win = [s; - s; s; - s; s]%Z.
Proof.
  unfold RulesP5.is_valid_impulse_from_monowaves_meta.
  destruct win as [|m0 [|m1 [|m2 [|m3 [|m4 [|m5 rest]]]]]]; try discriminate.
  unfold RulesP5._dir.
  destruct (existsb _ _) eqn:Hz; [discriminate|].
  unfold RulesP5.Z_list_eqb.
  destruct (list_eq_dec _ _ _) as [E|N]; [|discriminate].
  intros _. split; [reflexivity|]. eexists. exact E.
Qed.

Lemma alternates_prefix s j :
  alternates s 0 (firstn j [s; - s; s; - s; s]%Z) = true.
Proof.
  do 6 (destruct j as [|j]; [cbn; rewrite ?Z.eqb_refl; reflexivity|]).
  cbn. rewrite !Z.eqb_refl. reflexivity.
Qed.

Lemma zero_among_app a b :
  existsb (Z.eqb 0) (a ++ b) = false -> existsb (Z.eqb 0) a = false.
Proof. rewrite existsb_app. intros H. apply orb_false_iff in H. apply H. Qed.

Lemma penalised_prefix mws tup ext s p :
  (length tup < 5)%nat ->
  score_prefix mws tup = Some s -> s < 0 ->
  pattern_of_tuple mws (tup ++ ext) <> Some (Some p).
Proof.
  intros Hlen Hs Hneg Hp.
  destruct tup as [|i0 ds] eqn:Htup.
  { cbn in Hs. inversion Hs. lra. }
  rewrite <- Htup in *.
  unfold pattern_of_tuple in Hp.
  destruct (negb _); [discriminate|].
  destruct (_ >=? _)%Z; [discriminate|].
  destruct (gather mws (idxs_of (tup ++ ext))) as [win|] eqn:Hwin; [|discriminate].
  cbn [obind] in Hp.
  destruct (RulesP5.is_valid_impulse_from_monowaves_meta win) as [ok m] eqn:Hv.
  destruct ok; [|discriminate]. clear Hp.
  destruct (valid_directions win m Hv) as (Hnz & sg & Hd).
  destruct (idxs_of_app i0 ds ext) as (more & Hidx). rewrite <- Htup in Hidx.
  rewrite Hidx in Hwin.
  destruct (gather_app mws _ _ _ Hwin) as (w1 & w2 & Hw1 & ->).
  rewrite map_app in Hnz, Hd.
  unfold score_prefix in Hs. rewrite Htup in Hs. rewrite <- Htup in Hs.
  destruct (Z.geb_spec (last (idxs_of tup) i0) (Z.of_nat (length mws)))
    as [Hover|_].
  { pose proof (gather_in_range mws _ _ Hw1) as Hr.
    rewrite Forall_forall in Hr.
    assert (In (last (idxs_of tup) i0) (idxs_of tup)) as Hin.
    { rewrite Htup. cbn [idxs_of]. rewrite last_cons_last.
      apply last_In. }
    specialize (Hr _ Hin). lia. }
  rewrite idxs_of_length in Hs.
  destruct (Nat.eqb_spec (length tup) 5) as [H5|_]; [lia|].
  destruct (2 <=? length tup)%nat; [|inversion Hs; lra].
  rewrite Hw1 in Hs. cbn [obind] in Hs.
  rewrite (zero_among_app _ _ Hnz) in Hs.
  assert (map mw_direction w1
          = firstn (length (map mw_direction w1)) [sg; - sg; sg; - sg; sg]%Z)
    as Hpre.
  { rewrite <- Hd. rewrite firstn_app, Nat.sub_diag, firstn_all. cbn [firstn].
    rewrite app_nil_r. reflexivity. }
  assert (hd 0%Z (map mw_direction w1) = sg) as Hhd.
  { destruct w1 as [|x w1].
    - apply gather_length in Hw1. rewrite idxs_of_length, Htup in Hw1.
      discriminate.
    - cbn [map app] in Hd. inversion Hd. reflexivity. }
  rewrite Hhd, Hpre, alternates_prefix in Hs. inversion Hs. lra.
Qed.
End PrefixPenalty.

(** X27: the penalties of the partial check lose no pattern.  When a
    tuple of fewer than five components is scored below zero (it runs
    past the last monowave, meets a flat leg, or breaks the
    alternation of directions), no tuple that extends it is turned
    into a pattern by the scan's final loop. *)
Theorem penalised_prefix_has_no_pattern :
  forall (mws : list Model.MonoWave) (tup ext : list Z) (s : R)
         (p : Model.WavePattern),
    (length tup < 5)%nat ->
    Scan.score_prefix mws tup = Some s ->
    s < 0 ->
    Scan.pattern_of_tuple mws (tup ++ ext) <> Some (Some p).
Proof.
  intros mws tup ext s p. apply penalised_prefix.
Qed.

Lemma penalised_prefix_has_no_pattern_witness :
  Scan.pattern_of_tuple
    [Model.mkMonoWave 0 1 100 110; Model.mkMonoWave 1 2 110 120;
     Model.mkMonoWave 2 3 120 130; Model.mkMonoWave 3 4 130 140;
     Model.mkMonoWave 4 5 140 150]
    ([0; 1] ++ [1; 1; 1])%Z
  <> Some (Some forward_scenario).
Proof.
  apply (penalised_prefix_has_no_pattern _ [0; 1]%Z [1; 1; 1]%Z (- 1e3)).
  - simpl. lia.
  - unfold Scan.score_prefix. cbn. change (Pos.to_nat 1) with 1%nat. cbn.
    unfold Model.mw_direction. cbn. rcmp. reflexivity.
  - lra.
Defined.

(** ** Running the suppression twice *)

Section NMSTwice.
Import Pruner.
Variable T : Type.
Variable span_fn : T -> Z * Z.
Variable score_fn : T -> R.
Variable overlap_thresh : R.
Variable max_keep : Z.

Local Abbreviation loop := (nms_loop T span_fn overlap_thresh max_keep).
Local Abbreviation apart := (apart T span_fn overlap_thresh).

Lemma sort_desc_of_sorted l :
  StronglySorted (key_desc score_fn) l -> sort_desc score_fn l = l.
Proof.
  induction 1 as [|x l Hs IH Hx]; [reflexivity|].
  unfold sort_desc in *. cbn [fold_right]. rewrite IH.
  destruct l as [|y l]; [reflexivity|].
  inversion Hx as [|? ? Hy _]; subst. unfold key_desc in Hy.
  simpl. destruct (Rlt_dec (score_fn x) (score_fn y)); [lra | reflexivity].
Qed.

Lemma apart_not_suppressed it kept :
  Forall (fun k => apart k it) kept ->
  suppressed T span_fn overlap_thresh (span_fn it) kept = false.
Proof.
  unfold suppressed. induction 1 as [|k kept Hk _ IH]; [reflexivity|].
  simpl. rewrite IH. unfold apart in Hk.
  rewrite overlap_ratio_sym in Hk.
  destruct (Rle_dec _ _); [lra | reflexivity].
Qed.

Lemma FOP_app_last (kept : list T) it rest :
  ForallOrdPairs apart (kept ++ it :: rest) ->
  Forall (fun k => apart k it) kept.
Proof.
  induction kept as [|k kept IH]; intros H; [constructor|].
  simpl in H. inversion H as [|? ? Hk Hrest]; subst.
  constructor; [|apply IH; exact Hrest].
  rewrite Forall_forall in Hk. apply Hk. apply in_or_app. right. left. reflexivity.
Qed.

(** The length of a result: one item at most, or no more than the keep
    limit. *)
Lemma nms_loop_short ordered :
  forall kept,
    kept = [] \/ (Z.of_nat (length kept) < max_keep)%Z ->
    (length (loop ordered kept) <= 1)%nat
    \/ (Z.of_nat (length (loop ordered kept)) <= max_keep)%Z.
Proof.
  induction ordered as [|it rest IH]; intros kept Hk; simpl.
  - destruct Hk as [->|Hk]; [left; simpl; lia | right; lia].
  - destruct (suppressed _ _ _ _ _); [apply IH; exact Hk|].
    destruct (Z.geb_spec (Z.of_nat (length (kept ++ [it]))) max_keep) as [Hge|Hlt].
    + rewrite length_app in *. simpl in *.
      destruct Hk as [->|Hk]; [left; simpl; lia | right; lia].
    + apply IH. right. exact Hlt.
Qed.

(** On items that are pairwise apart and few enough, the loop keeps
    everything. *)
Lemma nms_loop_keeps_all rest :
  forall kept,
    ForallOrdPairs apart (kept ++ rest) ->
    (length (kept ++ rest) <= 1)%nat
    \/ (Z.of_nat (length (kept ++ rest)) <= max_keep)%Z ->
    loop rest kept = kept ++ rest.
Proof.
  induction rest as [|it rest IH]; intros kept Hap Hlen; simpl.
  - now rewrite app_nil_r.
  - rewrite (apart_not_suppressed it kept (FOP_app_last kept it rest Hap)).
    assert ((kept ++ [it]) ++ rest = kept ++ it :: rest) as Happ
      by (rewrite <- app_assoc; reflexivity).
    destruct (Z.geb_spec (Z.of_nat (length (kept ++ [it]))) max_keep) as [Hge|Hlt].
    + rewrite !length_app in *. simpl in *.
      destruct rest as [|r rest]; [reflexivity|]. simpl in Hlen. lia.
    + rewrite <- Happ. apply IH; rewrite Happ; assumption.
Qed.

Lemma nms_by_span_twice items :
  let once := nms_by_span T span_fn score_fn overlap_thresh max_keep items in
  nms_by_span T span_fn score_fn overlap_thresh max_keep once = once.
Proof.
  intros once. unfold nms_by_span at 1.
  assert (StronglySorted (key_desc score_fn) once) as Hs.
  { unfold once, nms_by_span. apply nms_loop_sorted. apply sort_desc_sorted. }
  rewrite (sort_desc_of_sorted once Hs).
  apply (nms_loop_keeps_all once []).
  - unfold once, nms_by_span. apply nms_loop_apart. constructor.
  - unfold once, nms_by_span. apply nms_loop_short. left. reflexivity.
Qed.
End NMSTwice.

(** X28: non-maximum suppression is idempotent: run on its own result,
    with the same span and score functions, threshold and keep limit,
    [nms_by_span] returns that result unchanged. *)
Theorem nms_by_span_idempotent :
  forall (T : Type) (span_fn : T -> Z * Z) (score_fn : T -> R)
         (overlap_thresh : R) (max_keep : Z) (items : list T),
    Pruner.nms_by_span T span_fn score_fn overlap_thresh max_keep
      (Pruner.nms_by_span T span_fn score_fn overlap_thresh max_keep items)
    = Pruner.nms_by_span T span_fn score_fn overlap_thresh max_keep items.
Proof.
  intros. apply nms_by_span_twice.
Qed.

(** ** The grid search *)

Section TunerFacts.
Import Tuner.

Lemma tuple_gt_spec a b : tuple_gt a b = true <-> lex_lt b a.
Proof.
  destruct a as [[a1 a2] a3], b as [[b1 b2] b3]. unfold tuple_gt, lex_lt.
  destruct (Req_dec_T a1 b1) as [E1|N1].
  - destruct (Z.eqb_spec a2 b2) as [E2|N2].
    + rewrite Rltb_true. split; [intros H; right; split; [lra|]; right; split; [lia | exact H]|].
      intros [H|[_ [H|[_ H]]]]; [lra | lia | exact H].
    + rewrite Z.ltb_lt. split; [intros H; right; split; [lra|]; left; exact H|].
      intros [H|[_ [H|[H _]]]]; [lra | exact H | lia].
  - rewrite Rltb_true. split; [intros H; left; exact H|].
    intros [H|[H _]]; [exact H | lra].
Qed.

Lemma lex_lt_trans_le a b c :
  ~ lex_lt b a -> lex_lt b c -> ~ lex_lt c a.
Proof.
  destruct a as [[a1 a2] a3], b as [[b1 b2] b3], c as [[c1 c2] c3].
  unfold lex_lt. intros Hab Hbc Hca.
  apply Hab.
  destruct Hbc as [H1|[H1 [H2|[H2 H3]]]], Hca as [K1|[K1 [K2|[K2 K3]]]];
    try (left; lra);
    try (right; split; [lra|]; left; lia);
    try (right; split; [lra|]; right; split; [lia | lra]).
Qed.

Variable swings : list Monowave.swing.

Lemma evaluate_defined opts : exists tr, evaluate swings opts = Some tr.
Proof.
  unfold evaluate.
  destruct (scan_result swings (AnalyzerConfig_from_options opts))
    as (ps & Hps & _).
  rewrite Hps. cbn [obind]. destruct (_summarize ps). eexists. reflexivity.
Qed.

(** What the loop keeps: the evaluation of an option it has visited,
    which none of the visited ones beats. *)
Lemma tune_loop_best todo :
  forall seen best,
    match best with
    | None => seen = []
    | Some b =>
        (exists o, In o seen /\ evaluate swings o = Some b)
        /\ forall o tr, In o seen -> evaluate swings o = Some tr ->
                        tuple_gt (rank_key tr) (rank_key b) = false
    end ->
    exists final,
      tune_loop swings todo best = inr final
      /\ match final with
         | None => seen ++ todo = []
         | Some b =>
             (exists o, In o (seen ++ todo) /\ evaluate swings o = Some b)
             /\ forall o tr, In o (seen ++ todo) ->
                             evaluate swings o = Some tr ->
                             tuple_gt (rank_key tr) (rank_key b) = false
         end.
Proof.
  induction todo as [|opts rest IH]; intros seen best Hinv.
  - exists best. split; [reflexivity|]. rewrite app_nil_r. exact Hinv.
  - cbn [tune_loop]. destruct (evaluate_defined opts) as [tr Htr]. rewrite Htr.
    assert (seen ++ opts :: rest = (seen ++ [opts]) ++ rest) as Happ
      by (rewrite <- app_assoc; reflexivity).
    rewrite Happ.
    assert (tuple_gt (rank_key tr) (rank_key tr) = false) as Hrefl.
    { destruct (tuple_gt (rank_key tr) (rank_key tr)) eqn:E; [|reflexivity].
      apply tuple_gt_spec in E. exfalso.
      destruct (rank_key tr) as [[k1 k2] k3]. unfold lex_lt in E.
      destruct E as [E|[_ [E|[_ E]]]]; [lra | lia | lra]. }
    destruct best as [b|].
    + destruct Hinv as [(o & Ho & Hob) Hmax].
      destruct (tuple_gt (rank_key tr) (rank_key b)) eqn:Hgt.
      * apply IH. split.
        -- exists opts. split; [apply in_or_app; right; left; reflexivity | exact Htr].
        -- intros o' tr' Hin Hev. apply in_app_or in Hin as [Hin|[<-|[]]].
           ++ specialize (Hmax o' tr' Hin Hev).
              destruct (tuple_gt (rank_key tr') (rank_key tr)) eqn:E; [|reflexivity].
              exfalso. apply tuple_gt_spec in E. apply tuple_gt_spec in Hgt.
              assert (~ lex_lt (rank_key b) (rank_key tr')) as Hn.
              { intros K. apply tuple_gt_spec in K. congruence. }
              exact (lex_lt_trans_le _ _ _ Hn Hgt E).
           ++ rewrite Htr in Hev. inversion Hev; subst tr'. exact Hrefl.
      * apply IH. split.
        -- exists o. split; [apply in_or_app; left; exact Ho | exact Hob].
        -- intros o' tr' Hin Hev. apply in_app_or in Hin as [Hin|[<-|[]]].
           ++ exact (Hmax o' tr' Hin Hev).
           ++ rewrite Htr in Hev. inversion Hev; subst tr'. exact Hgt.
    + subst seen. apply IH. split.
      * exists opts. split; [left; reflexivity | exact Htr].
      * intros o' tr' [<-|[]] Hev.
        rewrite Htr in Hev. inversion Hev; subst tr'. exact Hrefl.
Qed.

Lemma grid_nonempty base sks mms mgs bws mp ov :
  sks <> [] -> mms <> [] -> mgs <> [] -> bws <> [] ->
  grid base sks mms mgs bws mp ov <> [].
Proof.
  intros H1 H2 H3 H4.
  destruct sks as [|sk sks]; [congruence|].
  destruct mms as [|mm mms]; [congruence|].
  destruct mgs as [|mg mgs]; [congruence|].
  destruct bws as [|bw bws]; [congruence|].
  unfold grid. cbn. discriminate.
Qed.
End TunerFacts.

(** X29: over a grid with no empty axis [tune_wave_options] raises
    nothing and returns the evaluation of one of the grid's options,
    one that no option of the grid beats in the order of
    [(best_conf, -patterns, best_score)]; with an empty grid it ends in
    the [AssertionError]. *)
Theorem tune_wave_options_best :
  forall (swings : list Monowave.swing) (base : WalkForward.WaveOptions)
         (monowave_skips : list Z) (min_moves : list R)
         (max_gaps beam_widths : list Z) (max_patterns : Z) (nms_overlap : R),
    let todo := Tuner.grid base monowave_skips min_moves max_gaps beam_widths
                           max_patterns nms_overlap in
    (todo = [] ->
     Tuner.tune_wave_options swings base monowave_skips min_moves max_gaps
                             beam_widths max_patterns nms_overlap
     = inl Tuner.AssertionError)
    /\ (monowave_skips <> [] -> min_moves <> [] ->
        max_gaps <> [] -> beam_widths <> [] ->
        exists best,
          Tuner.tune_wave_options swings base monowave_skips min_moves max_gaps
                                  beam_widths max_patterns nms_overlap
          = inr best
          /\ (exists o, In o todo /\ Tuner.evaluate swings o = Some best)
          /\ forall o tr, In o todo -> Tuner.evaluate swings o = Some tr ->
                          ~ lex_lt (Tuner.rank_key best) (Tuner.rank_key tr)).
Proof.
  intros swings base sks mms mgs bws mp ov todo. split.
  - intros Hempty. unfold Tuner.tune_wave_options. fold todo. rewrite Hempty.
    reflexivity.
  - intros H1 H2 H3 H4.
    pose proof (grid_nonempty base sks mms mgs bws mp ov H1 H2 H3 H4) as Hne.
    fold todo in Hne.
    destruct (tune_loop_best swings todo [] None eq_refl) as (final & Hrun & Hfin).
    unfold Tuner.tune_wave_options. fold todo. rewrite Hrun.
    cbn [app] in Hfin.
    destruct final as [b|]; [|congruence].
    destruct Hfin as [Hin Hmax].
    exists b. split; [reflexivity|]. split; [exact Hin|].
    intros o tr Ho Hev K.
    pose proof (proj2 (tuple_gt_spec (Tuner.rank_key tr) (Tuner.rank_key b)) K)
      as K'.
    pose proof (Hmax o tr Ho Hev) as Hle. congruence.
Qed.

Lemma tune_wave_options_best_witness :
  exists best,
    Tuner.tune_wave_options
      [(0%Z, 100); (4%Z, 110); (9%Z, 104)]
      (WalkForward.mkWaveOptions 1 0 1 256 5000 50 0.7)
      [1; 2]%Z [0] [1; 2]%Z [128; 256]%Z 50 0.7
    = inr best.
Proof.
  destruct (tune_wave_options_best
              [(0%Z, 100); (4%Z, 110); (9%Z, 104)]
              (WalkForward.mkWaveOptions 1 0 1 256 5000 50 0.7)
              [1; 2]%Z [0] [1; 2]%Z [128; 256]%Z 50 0.7)
    as [_ H].
  destruct H as (best & Hbest & _); try discriminate.
  exists best. exact Hbest.
Defined.
